(** * Sunrise alarm sketch: a shallow embedding of [arduino_code.ino]

    The sketch is one polling loop over three event sources (a serial
    line, the animation clock, an infrared remote) that mutates a handful
    of globals and writes to an LCD, an RGB LED and the serial port.

    Modelling choices, all following the C++ source:
    - the globals are the fields of [State];
    - every call that reaches the outside world ([analogWrite], [lcd.*],
      [Serial.print*], [IrReceiver.resume]) appends an [Event] to a trace;
    - the values read from the outside world ([millis()], the serial line,
      the decoded remote command) are parameters of the functions;
    - integers have the widths of the AVR boards the sketch is written
      for: [int] is 16 bits, [long] and [unsigned long] are 32 bits; an
      [unsigned long] is a [Z] reduced modulo [2^32] where the source can
      wrap;
    - [float] is IEEE-754 binary32 with round-to-nearest-even, taken from
      the parametric [SpecFloat] operations at precision 24;
    - a [String] may hold NUL characters; [indexOf], [substring] and
      [toInt] go through the C library and stop at the first one;
    - reading [planets[i]] outside the array and dividing by a zero float
      are the two faults a run can end in; [sketch_safe] shows that
      neither is ever reached.

    The file has three parts: the embedding (the [String] operations, the
    [float] operations, the sketch), a rounding-error analysis of the
    interpolation, and the properties of the sketch. *)

From Stdlib Require Import ZArith List String Ascii Bool Lia.
From Stdlib Require Import QArith Qpower Lqa.
From Stdlib Require Import Floats.SpecFloat.
Import ListNotations.

Local Open Scope string_scope.
Local Open Scope Z_scope.

(** ** The Arduino [String] operations the sketch calls *)

Module WString.

(** [isspace] of the C locale: space, and the controls 9 to 13. *)
Definition isspace (c : ascii) : bool :=
  let n := Z.of_N (N_of_ascii c) in
  (n =? 32) || ((9 <=? n) && (n <=? 13)).

Definition isdigit (c : ascii) : bool :=
  let n := Z.of_N (N_of_ascii c) in
  (48 <=? n) && (n <=? 57).

Definition digit_val (c : ascii) : Z := Z.of_N (N_of_ascii c) - 48.

Fixpoint skip_space (s : string) : string :=
  match s with
  | String c s' => if isspace c then skip_space s' else s
  | EmptyString => EmptyString
  end.

Definition is_empty (s : string) : bool :=
  match s with EmptyString => true | _ => false end.

Fixpoint drop_trailing_space (s : string) : string :=
  match s with
  | EmptyString => EmptyString
  | String c s' =>
      let t := drop_trailing_space s' in
      if isspace c && is_empty t then EmptyString else String c t
  end.

(** [String::trim()]: strips [isspace] characters at both ends. *)
Definition trim (s : string) : string :=
  drop_trailing_space (skip_space s).

(** [String::startsWith(prefix)]. *)
Definition startsWith (s p : string) : bool := String.prefix p s.

(** A [String] keeps its length beside its buffer, so it can hold NUL
    characters ([readStringUntil] stores every byte that arrives before the
    line feed).  [trim] and [startsWith] work on the length; the operations
    that hand the buffer to the C library ([strchr] in [indexOf], the copy
    in [substring], [atol] in [toInt]) see a C string, which ends at the
    first NUL. *)
Definition nul : ascii := Ascii.zero.

(** The C string at the start of a buffer: the characters before the
    first NUL. *)
Fixpoint c_str (s : string) : string :=
  match s with
  | EmptyString => EmptyString
  | String c s' => if Ascii.eqb c nul then EmptyString else String c (c_str s')
  end.

(** [strchr(buffer, ch)] as an offset: the first occurrence of [ch] in
    the C string, its terminator included, or [-1]. *)
Fixpoint strchr (ch : ascii) (s : string) : Z :=
  match s with
  | EmptyString => if Ascii.eqb ch nul then 0 else -1
  | String c s' =>
      if Ascii.eqb c ch then 0
      else if Ascii.eqb c nul then -1
      else let i := strchr ch s' in
           if i <? 0 then -1 else i + 1
  end.

(** [String::indexOf(ch)]: [-1] on an empty [String], otherwise what
    [strchr] finds; the search stops at an embedded NUL. *)
Definition indexOf (ch : ascii) (s : string) : Z :=
  if is_empty s then -1 else strchr ch s.

Fixpoint drop (n : nat) (s : string) : string :=
  match n, s with
  | O, _ => s
  | S n', String _ s' => drop n' s'
  | S _, EmptyString => EmptyString
  end.

(** [String::substring(left)]: the suffix from index [left], copied as a
    C string; empty when [left] is at or past the end. *)
Definition substring (left : Z) (s : string) : string :=
  c_str (drop (Z.to_nat left) s).

(** The digit loop of [atol]: stops at the first non-digit. *)
Fixpoint atol_digits (acc : Z) (s : string) : Z :=
  match s with
  | String c s' =>
      if isdigit c then atol_digits (10 * acc + digit_val c) s' else acc
  | EmptyString => acc
  end.

(** A [long] is 32 bits wide; the accumulator wraps in two's complement. *)
Definition wrap_long (z : Z) : Z := (z + 2 ^ 31) mod 2 ^ 32 - 2 ^ 31.

(** [atol]: optional white space, optional sign, then decimal digits. *)
Definition atol (s : string) : Z :=
  match skip_space s with
  | String c s' =>
      if Ascii.eqb c "-" then wrap_long (- atol_digits 0 s')
      else if Ascii.eqb c "+" then wrap_long (atol_digits 0 s')
      else wrap_long (atol_digits 0 (String c s'))
  | EmptyString => 0
  end.

(** [String::toInt()] is [atol] on the buffer (0 for an empty string). *)
Definition toInt (s : string) : Z := atol s.

End WString.

(** ** IEEE-754 binary32, the [float] of the sketch *)

Module F32.

Definition prec : Z := 24.
Definition emax : Z := 128.

Definition float := spec_float.

(** [(float)n] for an integer [n]. *)
Definition of_Z (n : Z) : float := binary_normalize prec emax n 0 false.

Definition mul (x y : float) : float := SFmul prec emax x y.

Definition is_zero (x : float) : bool :=
  match x with S754_zero _ => true | _ => false end.

(** Division; a zero divisor is reported instead of producing an
    infinity or a NaN. *)
Definition div (x y : float) : option float :=
  if is_zero y then None else Some (SFdiv prec emax x y).

(** [(int)x]: truncation toward zero.  The conversion of an infinity or
    a NaN is undefined in C; it is 0 here and never reached. *)
Definition to_Z (x : float) : Z :=
  match x with
  | S754_finite s m e =>
      let a := match e with
               | Zneg p => Z.shiftr (Zpos m) (Zpos p)
               | _ => Z.shiftl (Zpos m) e
               end in
      if s then - a else a
  | _ => 0
  end.

End F32.

(** ** Globals, presets and the trace of outside-world calls *)

Definition IR_RECEIVE_PIN : Z := 8.
Definition RED_PIN : Z := 9.
Definition GREEN_PIN : Z := 10.
Definition BLUE_PIN : Z := 11.

Record PlanetColor := mkPlanetColor {
  r : Z;
  g : Z;
  b : Z;
  name : string
}.

Definition planets : list PlanetColor :=
  [ mkPlanetColor 230 255 0 "Earth";
    mkPlanetColor 100 150 255 "Moon";
    mkPlanetColor 0 0 255 "Mars" ].

Record State := mkState {
  currentPlanet : Z;
  sunriseActive : bool;
  sunriseStartTime : Z;
  targetR : Z;
  targetG : Z;
  targetB : Z;
  sunriseDuration : Z
}.

(** The globals as the sketch initialises them. *)
Definition initial : State := mkState 0 false 0 0 0 0 0.

Inductive Event :=
| AnalogWrite (pin value : Z)
| LcdBegin (cols rows : Z)
| LcdClear
| LcdSetCursor (col row : Z)
| LcdPrint (text : string)
| SerialPrint (text : string)
| SerialPrintln (text : string)
| SerialPrintNum (n : Z)
| SerialPrintlnNum (n : Z)
| IrResume
| Delay (ms : Z).

Inductive Fault := OutOfBounds | DivisionByZero.

(** ** A state, trace and fault monad for the sketch's [void] functions *)

Inductive Result (A : Type) :=
| Ok (a : A) (s : State) (out : list Event)
| Failed (f : Fault).
Arguments Ok {A} a s out.
Arguments Failed {A} f.

Definition M (A : Type) : Type := State -> Result A.

Definition ret {A} (a : A) : M A := fun s => Ok a s [].

Definition bind {A B} (m : M A) (k : A -> M B) : M B :=
  fun s =>
    match m s with
    | Failed f => Failed f
    | Ok a s1 out1 =>
        match k a s1 with
        | Failed f => Failed f
        | Ok c s2 out2 => Ok c s2 (out1 ++ out2)%list
        end
    end.

Definition get_state : M State := fun s => Ok s s [].
Definition modify (f : State -> State) : M unit := fun s => Ok tt (f s) [].
Definition emit (e : Event) : M unit := fun s => Ok tt s [e].
Definition fail {A} (f : Fault) : M A := fun _ => Failed f.

Declare Scope sketch_scope.
Delimit Scope sketch_scope with sketch.
Notation "x <- m ;; k" := (bind m (fun x => k))
  (at level 61, m at next level, right associativity) : sketch_scope.
Notation "m ;; k" := (bind m (fun _ => k))
  (at level 61, right associativity) : sketch_scope.
Local Open Scope sketch_scope.

Definition when (c : bool) (m : M unit) : M unit :=
  if c then m else ret tt.

(** Field updates, one per assigned global. *)
Definition set_currentPlanet (v : Z) (s : State) : State :=
  mkState v (sunriseActive s) (sunriseStartTime s)
          (targetR s) (targetG s) (targetB s) (sunriseDuration s).
Definition set_sunriseActive (v : bool) (s : State) : State :=
  mkState (currentPlanet s) v (sunriseStartTime s)
          (targetR s) (targetG s) (targetB s) (sunriseDuration s).
Definition set_sunriseStartTime (v : Z) (s : State) : State :=
  mkState (currentPlanet s) (sunriseActive s) v
          (targetR s) (targetG s) (targetB s) (sunriseDuration s).
Definition set_target (vr vg vb : Z) (s : State) : State :=
  mkState (currentPlanet s) (sunriseActive s) (sunriseStartTime s)
          vr vg vb (sunriseDuration s).
Definition set_sunriseDuration (v : Z) (s : State) : State :=
  mkState (currentPlanet s) (sunriseActive s) (sunriseStartTime s)
          (targetR s) (targetG s) (targetB s) v.

(** [planets[i]]: a read outside the three entries is a fault. *)
Definition planet_at (i : Z) : M PlanetColor :=
  if (0 <=? i) && (i <? 3) then
    match nth_error planets (Z.to_nat i) with
    | Some p => ret p
    | None => fail OutOfBounds
    end
  else fail OutOfBounds.

(** Reduction to an [unsigned long]. *)
Definition to_ulong (z : Z) : Z := z mod 2 ^ 32.

(** ** The functions of the sketch *)

(** [setColor]: three [analogWrite]s, no inversion. *)
Definition setColor (red green blue : Z) : M unit :=
  emit (AnalogWrite RED_PIN red) ;;
  emit (AnalogWrite GREEN_PIN green) ;;
  emit (AnalogWrite BLUE_PIN blue).

(** [displayPlanet(line1, r, g, b)]. *)
Definition displayPlanet1 (line1 : string) (cr cg cb : Z) : M unit :=
  emit LcdClear ;;
  emit (LcdSetCursor 0 0) ;;
  emit (LcdPrint line1) ;;
  setColor cr cg cb.

(** [displayPlanet(line1, line2, r, g, b)], the two-line overload. *)
Definition displayPlanet2 (line1 line2 : string) (cr cg cb : Z) : M unit :=
  emit LcdClear ;;
  emit (LcdSetCursor 0 0) ;;
  emit (LcdPrint line1) ;;
  emit (LcdSetCursor 0 1) ;;
  emit (LcdPrint line2) ;;
  setColor cr cg cb.

Definition showPlanet (planet : Z) : M unit :=
  modify (set_sunriseActive false) ;;
  match planet with
  | 0 => p <- planet_at 0 ;; displayPlanet1 "Earth: Home" (r p) (g p) (b p)
  | 1 => p <- planet_at 1 ;;
         displayPlanet2 "Moon: Earth's" "Lil sis" (r p) (g p) (b p)
  | 2 => p <- planet_at 2 ;;
         displayPlanet2 "Mars: Earth's" "Lil bro" (r p) (g p) (b p)
  | _ => ret tt
  end.

Definition msg_started : string := "âœ… Sunrise started on ".
Definition msg_invalid : string := "âŒ Invalid SUNRISE command format".
Definition msg_complete : string := "ðŸŒ… Sunrise complete!".

(** [parseAndStartSunrise(command)]; [now] is what [millis()] returns. *)
Definition parseAndStartSunrise (now : Z) (command : string) : M unit :=
  let firstSpace := WString.indexOf " "%char command in
  if 0 <? firstSpace then
    modify (set_sunriseDuration
              (to_ulong (WString.toInt
                           (WString.substring (firstSpace + 1) command)))) ;;
    s <- get_state ;;
    p <- planet_at (currentPlanet s) ;;
    modify (set_target (r p) (g p) (b p)) ;;
    modify (set_sunriseActive true) ;;
    modify (set_sunriseStartTime now) ;;
    setColor 0 0 0 ;;
    emit LcdClear ;;
    emit (LcdSetCursor 0 0) ;;
    emit (LcdPrint "Sunrise: ") ;;
    p1 <- planet_at (currentPlanet s) ;;
    emit (LcdPrint (name p1)) ;;
    emit (LcdSetCursor 0 1) ;;
    emit (LcdPrint "Waking up...") ;;
    emit (SerialPrint msg_started) ;;
    p2 <- planet_at (currentPlanet s) ;;
    emit (SerialPrintln (name p2)) ;;
    s1 <- get_state ;;
    emit (SerialPrint "Target RGB: ") ;;
    emit (SerialPrintNum (targetR s1)) ;;
    emit (SerialPrint ", ") ;;
    emit (SerialPrintNum (targetG s1)) ;;
    emit (SerialPrint ", ") ;;
    emit (SerialPrintlnNum (targetB s1)) ;;
    emit (SerialPrint "Duration: ") ;;
    emit (SerialPrintNum (sunriseDuration s1)) ;;
    emit (SerialPrintln " ms")
  else
    emit (SerialPrintln msg_invalid).

(** [(int)(target * progress)]. *)
Definition scale (target : Z) (progress : F32.float) : Z :=
  F32.to_Z (F32.mul (F32.of_Z target) progress).

(** [(float)elapsedTime / (float)sunriseDuration]. *)
Definition progress_of (elapsedTime duration : Z) : M F32.float :=
  match F32.div (F32.of_Z elapsedTime) (F32.of_Z duration) with
  | Some p => ret p
  | None => fail DivisionByZero
  end.

(** [updateSunrise()]; [now] is what [millis()] returns. *)
Definition updateSunrise (now : Z) : M unit :=
  s <- get_state ;;
  let elapsedTime := to_ulong (now - sunriseStartTime s) in
  if sunriseDuration s <=? elapsedTime then
    modify (set_sunriseActive false) ;;
    setColor (targetR s) (targetG s) (targetB s) ;;
    emit LcdClear ;;
    emit (LcdSetCursor 0 0) ;;
    emit (LcdPrint "Good Morning!") ;;
    emit (LcdSetCursor 0 1) ;;
    p <- planet_at (currentPlanet s) ;;
    emit (LcdPrint (name p)) ;;
    emit (SerialPrintln msg_complete)
  else
    progress <- progress_of elapsedTime (sunriseDuration s) ;;
    let currentR := scale (targetR s) progress in
    let currentG := scale (targetG s) progress in
    let currentB := scale (targetB s) progress in
    setColor currentR currentG currentB.

(** An [int] is 16 bits wide on the board; [++] and [--] wrap. *)
Definition wrap_int (z : Z) : Z := (z + 2 ^ 15) mod 2 ^ 16 - 2 ^ 15.

(** What one pass of [loop()] reads from the outside world. *)
Record LoopInput := mkLoopInput {
  serial_line : option string;  (* the line read when [Serial.available() > 0] *)
  millis_parse : Z;             (* [millis()] inside [parseAndStartSunrise] *)
  millis_update : Z;            (* [millis()] inside [updateSunrise] *)
  ir_command : option Z         (* the command when [IrReceiver.decode()] holds *)
}.

(** First block of [loop()]: the serial command. *)
Definition loop_serial (inp : LoopInput) : M unit :=
  match serial_line inp with
  | Some line =>
      let command := WString.trim line in
      if WString.startsWith command "SUNRISE"
      then parseAndStartSunrise (millis_parse inp) command
      else ret tt
  | None => ret tt
  end.

(** Second block of [loop()]: the animation tick. *)
Definition loop_sunrise (inp : LoopInput) : M unit :=
  s <- get_state ;;
  when (sunriseActive s) (updateSunrise (millis_update inp)).

(** Third block of [loop()]: the remote, looked at only when
    [sunriseActive] is false at that point. *)
Definition loop_remote (inp : LoopInput) : M unit :=
  s <- get_state ;;
  if negb (sunriseActive s) then
    match ir_command inp with
    | Some command =>
        emit (SerialPrint "Button: ") ;;
        emit (SerialPrintlnNum command) ;;
        (if command =? 9 then
           modify (fun s0 => set_currentPlanet (wrap_int (currentPlanet s0 + 1)) s0) ;;
           s1 <- get_state ;;
           when (2 <? currentPlanet s1) (modify (set_currentPlanet 0)) ;;
           s2 <- get_state ;;
           showPlanet (currentPlanet s2) ;;
           emit (SerialPrint "-> Planet: ") ;;
           s3 <- get_state ;;
           emit (SerialPrintlnNum (currentPlanet s3))
         else if command =? 7 then
           modify (fun s0 => set_currentPlanet (wrap_int (currentPlanet s0 - 1)) s0) ;;
           s1 <- get_state ;;
           when (currentPlanet s1 <? 0) (modify (set_currentPlanet 2)) ;;
           s2 <- get_state ;;
           showPlanet (currentPlanet s2) ;;
           emit (SerialPrint "-> Planet: ") ;;
           s3 <- get_state ;;
           emit (SerialPrintlnNum (currentPlanet s3))
         else ret tt) ;;
        emit IrResume
    | None => ret tt
    end
  else ret tt.

Definition loop (inp : LoopInput) : M unit :=
  loop_serial inp ;;
  loop_sunrise inp ;;
  loop_remote inp.

(** [setup()]; port and pin configuration leaves no event. *)
Definition setup : M unit :=
  emit (LcdBegin 16 2) ;;
  emit LcdClear ;;
  emit (LcdPrint "Ready!") ;;
  setColor 0 0 0 ;;
  emit (SerialPrintln "System Ready") ;;
  emit (SerialPrintln "Use UP/DOWN arrows") ;;
  emit (Delay 1000) ;;
  showPlanet 0.

(** One [loop()] pass per input, in order. *)
Fixpoint loops (inps : list LoopInput) : M unit :=
  match inps with
  | [] => ret tt
  | inp :: rest => loop inp ;; loops rest
  end.

(** A run of the sketch: [setup()] from the initial globals, then the
    passes of [loop()]. *)
Definition sketch (inps : list LoopInput) : Result unit :=
  (setup ;; loops inps) initial.

(** ** Reading results *)

Definition state_of {A} (res : Result A) : option State :=
  match res with Ok _ s _ => Some s | Failed _ => None end.

Definition trace_of {A} (res : Result A) : list Event :=
  match res with Ok _ _ out => out | Failed _ => [] end.

(** The colour triples a trace sends to the LED, oldest first: one triple
    per [setColor], which is the only writer of the three pins. *)
Fixpoint color_writes (out : list Event) : list (Z * Z * Z) :=
  match out with
  | AnalogWrite 9 x :: AnalogWrite 10 y :: AnalogWrite 11 z :: rest =>
      (x, y, z) :: color_writes rest
  | _ :: rest => color_writes rest
  | [] => []
  end.

(** Whether the remote was handled ([IrReceiver.resume()] was called). *)
Definition remote_consumed (out : list Event) : bool :=
  existsb (fun ev => match ev with IrResume => true | _ => false end) out.

(** Whether the invalid-format diagnostic was printed. *)
Definition invalid_reported (out : list Event) : bool :=
  existsb (fun ev => match ev with
                     | SerialPrintln t => String.eqb t msg_invalid
                     | _ => false
                     end) out.

Definition valid_planet (s : State) : Prop := 0 <= currentPlanet s < 3.

(** [planets[i]] for an index inside the table. *)
Definition preset (i : Z) : PlanetColor :=
  nth (Z.to_nat i) planets (mkPlanetColor 0 0 0 EmptyString).

Definition color_of (p : PlanetColor) : Z * Z * Z := (r p, g p, b p).

Definition target_of (s : State) : Z * Z * Z := (targetR s, targetG s, targetB s).

(** What the completion branch of [updateSunrise] sends out. *)
Definition completion_trace (s : State) : list Event :=
  [ AnalogWrite RED_PIN (targetR s);
    AnalogWrite GREEN_PIN (targetG s);
    AnalogWrite BLUE_PIN (targetB s);
    LcdClear;
    LcdSetCursor 0 0;
    LcdPrint "Good Morning!";
    LcdSetCursor 0 1;
    LcdPrint (name (preset (currentPlanet s)));
    SerialPrintln msg_complete ].

(** The globals after a successful [parseAndStartSunrise]. *)
Definition armed (now duration : Z) (s : State) : State :=
  mkState (currentPlanet s) true now
          (r (preset (currentPlanet s))) (g (preset (currentPlanet s)))
          (b (preset (currentPlanet s))) duration.

(** What a successful [parseAndStartSunrise] sends out. *)
Definition arm_trace (duration : Z) (s : State) : list Event :=
  let p := preset (currentPlanet s) in
  [ AnalogWrite RED_PIN 0; AnalogWrite GREEN_PIN 0; AnalogWrite BLUE_PIN 0;
    LcdClear; LcdSetCursor 0 0; LcdPrint "Sunrise: "; LcdPrint (name p);
    LcdSetCursor 0 1; LcdPrint "Waking up...";
    SerialPrint msg_started; SerialPrintln (name p);
    SerialPrint "Target RGB: "; SerialPrintNum (r p); SerialPrint ", ";
    SerialPrintNum (g p); SerialPrint ", "; SerialPrintlnNum (b p);
    SerialPrint "Duration: "; SerialPrintNum duration; SerialPrintln " ms" ].

(** The duration a command line arms with. *)
Definition parsed_duration (command : string) : Z :=
  to_ulong (WString.toInt
              (WString.substring (WString.indexOf " "%char command + 1) command)).

(** The first two blocks of [loop()], up to the point where the remote
    is looked at. *)
Definition loop_before_remote (inp : LoopInput) : M unit :=
  loop_serial inp ;; loop_sunrise inp.



(** Decimal notation of a non-negative integer, as a sender writes it. *)
Definition digit_char (d : Z) : ascii := ascii_of_N (Z.to_N (48 + d)).

Fixpoint decimal_aux (fuel : nat) (n : Z) (acc : string) : string :=
  match fuel with
  | O => acc
  | S fuel' =>
      let acc' := String (digit_char (n mod 10)) acc in
      if n <? 10 then acc' else decimal_aux fuel' (n / 10) acc'
  end.

Definition decimal (n : Z) : string :=
  decimal_aux (S (Z.to_nat (Z.log2 n))) n EmptyString.

(** *** Real values behind the floating-point operations *)

(** [x] lies where the location [l] says, relative to the integer [m]. *)
Definition inloc (x : Q) (m : Z) (l : location) : Prop :=
  match l with
  | loc_Exact => (x == inject_Z m)%Q
  | loc_Inexact Lt => (inject_Z m < x /\ x < inject_Z m + (1 # 2))%Q
  | loc_Inexact Eq => (x == inject_Z m + (1 # 2))%Q
  | loc_Inexact Gt => (inject_Z m + (1 # 2) < x /\ x < inject_Z m + 1)%Q
  end.

Definition inrec (x : Q) (mrs : shr_record) : Prop :=
  inloc x (shr_m mrs) (loc_of_shr_record mrs).

Definition pow2 (e : Z) : Q := Qpower 2 e.

(** The unit round-off of binary32, [2^-24]. *)
Definition unit_roundoff : Q := 1 # 16777216.

(** The real value of mantissa [m] at exponent [e]. *)
Definition fval (m e : Z) : Q := (inject_Z m * pow2 e)%Q.

(** A binary32 mantissa in normal form: exactly 24 bits. *)
Definition normal_mantissa (m : positive) : Prop := 2 ^ 23 <= Zpos m < 2 ^ 24.

(** How far a written channel [c] can be from the exact ramp value: it is
    the integer part of [target * elapsed / duration] taken with a relative
    error of at most [9 * 2^-24], hence at most one off, and never beyond
    the target. *)
Definition ramp_value (target elapsed duration c : Z) : Prop :=
  ((16777216 - 9) * (target * elapsed) / (16777216 * duration) <= c /\
   c <= (16777216 + 9) * (target * elapsed) / (16777216 * duration)) /\
  (target * elapsed / duration - 1 <= c <= target * elapsed / duration + 1) /\
  (0 <= c <= target).

(** The states the sketch can be in: the selection is a table index, the
    duration is an [unsigned long] and the target is a preset colour. *)
Definition wellformed (s : State) : Prop :=
  valid_planet s /\
  0 <= sunriseDuration s < 2 ^ 32 /\
  0 <= targetR s <= 255 /\
  0 <= targetG s <= 255 /\
  0 <= targetB s <= 255.

(** *** Runs used as concrete instances *)

(** The Moon selected and nothing running. *)
Definition moon_idle : State := mkState 1 false 0 0 0 0 0.

(** A 25 ms sunrise armed on the Moon at clock 0. *)
Definition moon_25 : State := armed 0 25 moon_idle.

(** A sunrise of 67108866 ms armed on the Moon at clock 0. *)
Definition moon_long : State := armed 0 67108866 moon_idle.

(** A 1000 ms sunrise armed on the Earth at clock 0. *)
Definition earth_1000 : State := armed 0 1000 initial.

(** A sunrise of duration 0 armed on the Moon at clock 3. *)
Definition zero_armed : State := armed 3 0 moon_idle.

(** One pass with the UP button decoded, and one with DOWN. *)
Definition press_up : LoopInput := mkLoopInput None 0 0 (Some 9).
Definition press_down : LoopInput := mkLoopInput None 0 0 (Some 7).

(** A pass that ticks at clock 1000 with the UP button decoded, one that
    ticks at clock 500, and one with a line that is not a command. *)
Definition tick_then_up : LoopInput := mkLoopInput None 0 1000 (Some 9).
Definition tick_then_up_early : LoopInput := mkLoopInput None 0 500 (Some 9).


(** *** The LED as the pins leave it *)

(** One [analogWrite]: the duty of the written pin is replaced. *)
Definition led_step (led : Z * Z * Z) (ev : Event) : Z * Z * Z :=
  match ev with
  | AnalogWrite pin v =>
      let '(x, y, z) := led in
      if pin =? RED_PIN then (v, y, z)
      else if pin =? GREEN_PIN then (x, v, z)
      else if pin =? BLUE_PIN then (x, y, v)
      else led
  | _ => led
  end.

(** The colour on the LED after a trace, from the colour before it. *)
Definition led_after (led : Z * Z * Z) (out : list Event) : Z * Z * Z :=
  fold_left led_step out led.

(** What holds between the globals and the LED in every state the sketch
    reaches: a running sunrise aims at the selected preset's colour, and
    with no sunrise running the LED shows the selected preset's colour. *)
Definition consistent (s : State) (led : Z * Z * Z) : Prop :=
  wellformed s /\
  (sunriseActive s = true -> target_of s = color_of (preset (currentPlanet s))) /\
  (sunriseActive s = false -> led = color_of (preset (currentPlanet s))).

(** A string made of white space only. *)
Definition all_space (s : string) : bool :=
  forallb WString.isspace (list_ascii_of_string s).

(** A string with no white space in it. *)
Definition no_space (s : string) : bool :=
  forallb (fun c => negb (WString.isspace c)) (list_ascii_of_string s).

(** Whether a string starts with a decimal digit. *)
Definition starts_with_digit (s : string) : bool :=
  match s with
  | String c _ => WString.isdigit c
  | EmptyString => false
  end.

(** [F] is the positive real [X] rounded to binary32, to the nearest value
    and on a tie to the even mantissa: [X] lies between the consecutive
    values [m * 2^e] and [(m + 1) * 2^e] with a 24-bit [m], and [F] is the
    nearer of the two. *)
Definition rne (X F : Q) : Prop :=
  exists m e : Z,
    2 ^ 23 <= m < 2 ^ 24 /\
    (inject_Z m * pow2 e <= X /\ X < (inject_Z m + 1) * pow2 e)%Q /\
    ((X < (inject_Z m + (1 # 2)) * pow2 e /\ F == inject_Z m * pow2 e)%Q \/
     ((inject_Z m + (1 # 2)) * pow2 e < X /\ F == (inject_Z m + 1) * pow2 e)%Q \/
     (X == (inject_Z m + (1 # 2)) * pow2 e /\
      F == inject_Z (if Z.even m then m else m + 1) * pow2 e)%Q).

(** What a channel of a short ramp is: the integer part of
    [target * elapsed / duration], or one less where that quotient is
    itself an integer. *)
Definition short_ramp_value (target elapsed duration c : Z) : Prop :=
  target * elapsed / duration - 1 <= c <= target * elapsed / duration /\
  0 <= c /\
  ((target * elapsed) mod duration <> 0 -> c = target * elapsed / duration).

(** The three writes of one [setColor] call. *)
Definition color_trace (c : Z * Z * Z) : list Event :=
  let '(x, y, z) := c in
  [AnalogWrite RED_PIN x; AnalogWrite GREEN_PIN y; AnalogWrite BLUE_PIN z].

(** A 30 s sunrise armed on the Moon at clock 0, and a command line for it. *)
Definition moon_30000 : State := armed 0 30000 moon_idle.
Definition sunrise_line : LoopInput := mkLoopInput (Some "SUNRISE 30000") 5 5 (Some 9).

(** A write the 8-bit PWM takes as it is: one of the three LED pins and a
    duty cycle from 0 to 255. *)
Definition pwm_ok (ev : Event) : bool :=
  match ev with
  | AnalogWrite pin v =>
      ((pin =? RED_PIN) || (pin =? GREEN_PIN) || (pin =? BLUE_PIN))
      && (0 <=? v) && (v <=? 255)
  | _ => true
  end.

(** The column of the LCD cursor after an event, on the 16x2 display that
    [setup] asks for; [None] when the cursor is placed outside the display
    or a text runs past the end of its row. *)
Definition lcd_step (col : Z) (ev : Event) : option Z :=
  match ev with
  | LcdBegin _ _ => Some 0
  | LcdClear => Some 0
  | LcdSetCursor c row =>
      if (0 <=? c) && (c <? 16) && (0 <=? row) && (row <? 2) then Some c else None
  | LcdPrint text =>
      let c := col + Z.of_nat (String.length text) in
      if c <=? 16 then Some c else None
  | _ => Some col
  end.

Fixpoint lcd_run (col : Z) (out : list Event) : option Z :=
  match out with
  | [] => Some col
  | ev :: rest =>
      match lcd_step col ev with
      | Some c => lcd_run c rest
      | None => None
      end
  end.

(** A stretch of the trace that the LED and the display take as it is,
    wherever the cursor was left before. *)
Definition trace_ok (out : list Event) : Prop :=
  forallb pwm_ok out = true /\ forall col : Z, lcd_run col out <> None.

(** How many times a trace announces a completed sunrise. *)
Definition completions (out : list Event) : nat :=
  List.length
    (filter (fun ev => match ev with
                       | SerialPrintln t => String.eqb t msg_complete
                       | _ => false
                       end) out).

(** A pass whose serial line is a command that [parseAndStartSunrise]
    accepts: after trimming it starts with the keyword and has a space
    past its first character. *)
Definition accepted (inp : LoopInput) : bool :=
  match serial_line inp with
  | Some line =>
      WString.startsWith (WString.trim line) "SUNRISE"
      && (0 <? WString.indexOf " "%char (WString.trim line))
  | None => false
  end.

(** How many passes of a run arm a sunrise. *)
Definition commands (inps : list LoopInput) : nat :=
  List.length (filter accepted inps).

(** The completions that a state still owes: one while a sunrise runs. *)
Definition pending (s : State) : nat := if sunriseActive s then 1 else 0.

(** ** Correct rounding in binary32

    The [SpecFloat] operations are read back in the rationals: in the
    normal range each of them returns the exact result times [1 + d] with
    [|d| <= 2^-24]. *)

Section Rounding.

Local Open Scope Q_scope.

Lemma inject_Z_xO (p : positive) : inject_Z (Zpos p~0) == 2 * inject_Z (Zpos p).
Proof. unfold Qeq. cbn. lia. Qed.

Lemma inject_Z_xI (p : positive) : inject_Z (Zpos p~1) == 2 * inject_Z (Zpos p) + 1.
Proof. unfold Qeq. cbn. lia. Qed.

Lemma inrec_of_loc (x : Q) (m : Z) (l : location) :
  inloc x m l -> inrec x (shr_record_of_loc m l).
Proof. destruct l as [| []]; exact (fun H => H). Qed.

Lemma shr_1_inrec (x : Q) (mrs : shr_record) :
  (0 <= shr_m mrs)%Z ->
  inrec x mrs ->
  inrec (x * (1 # 2)) (shr_1 mrs) /\ shr_m (shr_1 mrs) = (shr_m mrs / 2)%Z.
Proof.
  destruct mrs as [m rb sb]. unfold inrec. cbn [shr_m].
  intros Hm H.
  destruct m as [| p | p]; [| | lia].
  - destruct rb, sb; cbn in H |- *; change (inject_Z 0) with 0 in *;
      (split; [| reflexivity]); lra.
  - destruct p as [p | p |].
    + assert (Hd : (Zpos p~1 / 2)%Z = Zpos p).
      { symmetry. apply Z.div_unique with 1%Z; [lia |]. apply Pos2Z.inj_xI. }
      pose proof (inject_Z_xI p) as E.
      destruct rb, sb; cbn in H |- *; (split; [| symmetry; exact Hd]); lra.
    + assert (Hd : (Zpos p~0 / 2)%Z = Zpos p).
      { symmetry. apply Z.div_unique with 0%Z; [lia |].
        rewrite Z.add_0_r. apply Pos2Z.inj_xO. }
      pose proof (inject_Z_xO p) as E.
      destruct rb, sb; cbn in H |- *; (split; [| symmetry; exact Hd]); lra.
    + destruct rb, sb; cbn in H |- *;
        change (inject_Z 0) with 0 in *; change (inject_Z 1) with 1 in *;
        (split; [| reflexivity]); lra.
Qed.

Lemma iter_pos_nat {A} (f : A -> A) (p : positive) (x : A) :
  iter_pos f p x = Nat.iter (Pos.to_nat p) f x.
Proof.
  revert x. induction p as [p IH | p IH |]; intros x; cbn [iter_pos].
  - rewrite !IH. rewrite Pos2Nat.inj_xI.
    rewrite <- Nat.iter_add. rewrite <- Nat.iter_succ_r.
    f_equal. lia.
  - rewrite !IH. rewrite Pos2Nat.inj_xO.
    rewrite <- Nat.iter_add. f_equal. lia.
  - reflexivity.
Qed.

Lemma pow2_pos (e : Z) : 0 < pow2 e.
Proof. apply Qpower_0_lt. reflexivity. Qed.

Lemma pow2_add (a c : Z) : pow2 (a + c) == pow2 a * pow2 c.
Proof. apply Qpower_plus. discriminate. Qed.

Lemma pow2_0 : pow2 0 == 1.
Proof. reflexivity. Qed.

Lemma pow2_1 : pow2 1 == 2.
Proof. reflexivity. Qed.

Lemma pow2_m1 : pow2 (-1) == (1 # 2).
Proof. reflexivity. Qed.

Lemma pow2_succ (a : Z) : pow2 (a + 1) == 2 * pow2 a.
Proof. rewrite pow2_add, pow2_1. ring. Qed.

Lemma pow2_pred (a : Z) : pow2 (a - 1) == (1 # 2) * pow2 a.
Proof. unfold Z.sub. rewrite pow2_add, pow2_m1. ring. Qed.

Lemma pow2_inject (n : Z) : (0 <= n)%Z -> pow2 n == inject_Z (2 ^ n).
Proof. intros Hn. unfold pow2. rewrite Zpower_Qpower by assumption. reflexivity. Qed.

Lemma inloc_ext (x y : Q) (m : Z) (l : location) :
  x == y -> inloc x m l -> inloc y m l.
Proof. intros E. destruct l as [| []]; cbn; lra. Qed.

Lemma shr_iter_inrec (n : nat) (x : Q) (mrs : shr_record) :
  (0 <= shr_m mrs)%Z ->
  inrec x mrs ->
  inrec (x * pow2 (- Z.of_nat n)) (Nat.iter n shr_1 mrs) /\
  shr_m (Nat.iter n shr_1 mrs) = (shr_m mrs / 2 ^ Z.of_nat n)%Z.
Proof.
  intros Hm H.
  induction n as [| n [IH1 IH2]].
  - change (Nat.iter 0 shr_1 mrs) with mrs. cbn [Z.of_nat Z.opp]. split.
    + apply (inloc_ext x); [rewrite pow2_0; ring | exact H].
    + rewrite Z.pow_0_r, Z.div_1_r. reflexivity.
  - change (Nat.iter (S n) shr_1 mrs) with (shr_1 (Nat.iter n shr_1 mrs)).
    assert (Hnn : (0 <= shr_m (Nat.iter n shr_1 mrs))%Z).
    { rewrite IH2. apply Z.div_pos; lia. }
    destruct (shr_1_inrec _ _ Hnn IH1) as [K1 K2].
    split.
    + replace (- Z.of_nat (S n))%Z with (- Z.of_nat n - 1)%Z by lia.
      revert K1. apply inloc_ext. rewrite pow2_pred. ring.
    + rewrite K2, IH2. rewrite Nat2Z.inj_succ, Z.pow_succ_r by lia.
      rewrite Z.div_div by lia. f_equal. lia.
Qed.

Lemma shr_inrec (x : Q) (mrs : shr_record) (e n : Z) :
  (0 <= n)%Z ->
  (0 <= shr_m mrs)%Z ->
  inrec x mrs ->
  inrec (x * pow2 (- n)) (fst (shr mrs e n)) /\
  shr_m (fst (shr mrs e n)) = (shr_m mrs / 2 ^ n)%Z /\
  snd (shr mrs e n) = (e + n)%Z.
Proof.
  intros Hn Hm H.
  destruct n as [| p | p]; [| | lia]; cbn [shr fst snd].
  - repeat split.
    + apply (inloc_ext x); [rewrite pow2_0; ring | exact H].
    + rewrite Z.pow_0_r, Z.div_1_r. reflexivity.
    + lia.
  - rewrite iter_pos_nat.
    destruct (shr_iter_inrec (Pos.to_nat p) x mrs Hm H) as [K1 K2].
    rewrite positive_nat_Z in K1, K2.
    repeat split; assumption.
Qed.

Lemma digits2_size (p : positive) : digits2_pos p = Pos.size p.
Proof. induction p; cbn; congruence. Qed.

Lemma Zdigits2_bounds (m : Z) :
  (0 < m)%Z -> (2 ^ (Zdigits2 m - 1) <= m < 2 ^ Zdigits2 m)%Z.
Proof.
  destruct m as [| p | p]; try lia. intros _.
  cbn [Zdigits2]. rewrite digits2_size.
  pose proof (Pos.size_gt p) as Hgt.
  pose proof (Pos.size_le p) as Hle.
  apply Pos2Z.pos_lt_pos in Hgt. apply Pos2Z.pos_le_pos in Hle.
  rewrite Pos2Z.inj_pow in Hgt, Hle.
  split; [| exact Hgt].
  change (Zpos p~0) with (2 * Zpos p)%Z in Hle.
  replace (Zpos (Pos.size p)) with (Zpos (Pos.size p) - 1 + 1)%Z in Hle by lia.
  rewrite Z.pow_add_r in Hle by lia.
  change (2 ^ 1)%Z with 2%Z in Hle. lia.
Qed.

Lemma Zdigits2_unique (m k : Z) :
  (2 ^ (k - 1) <= m < 2 ^ k)%Z -> (0 < k)%Z -> Zdigits2 m = k.
Proof.
  intros [Hlo Hhi] Hk.
  assert (Hm : (0 < m)%Z).
  { apply Z.lt_le_trans with (2 ^ (k - 1))%Z; [apply Z.pow_pos_nonneg; lia | exact Hlo]. }
  destruct (Zdigits2_bounds m Hm) as [Dlo Dhi].
  assert (Hdpos : (0 < Zdigits2 m)%Z).
  { destruct m; cbn; lia. }
  destruct (Z.lt_trichotomy (Zdigits2 m) k) as [Hlt | [Heq | Hgt]]; [| exact Heq |].
  - exfalso.
    assert (2 ^ Zdigits2 m <= 2 ^ (k - 1))%Z by (apply Z.pow_le_mono_r; lia).
    lia.
  - exfalso.
    assert (2 ^ k <= 2 ^ (Zdigits2 m - 1))%Z by (apply Z.pow_le_mono_r; lia).
    lia.
Qed.

(** What [round_nearest_even] returns is a nearest integer. *)
Lemma round_nearest_even_near (y : Q) (m : Z) (l : location) :
  inloc y m l ->
  let mr := round_nearest_even m l in
  (m <= mr <= m + 1)%Z /\
  inject_Z mr - (1 # 2) <= y /\ y <= inject_Z mr + (1 # 2) /\
  inject_Z m <= y.
Proof.
  intros H. cbn zeta.
  destruct l as [| []]; cbn [round_nearest_even inloc] in *.
  - split; [lia |]. lra.
  - destruct (Z.even m).
    + split; [lia |]. lra.
    + split; [lia |]. rewrite inject_Z_plus. change (inject_Z 1) with 1. lra.
  - split; [lia |]. lra.
  - split; [lia |]. rewrite inject_Z_plus. change (inject_Z 1) with 1. lra.
Qed.

Lemma fexp32 (k : Z) : (-125 <= k)%Z -> fexp 24 128 k = (k - 24)%Z.
Proof. intros Hk. unfold fexp, emin. lia. Qed.

Lemma div_pow2_digits (mx d : Z) :
  (24 <= d)%Z ->
  (2 ^ (d - 1) <= mx < 2 ^ d)%Z ->
  (2 ^ 23 <= mx / 2 ^ (d - 24) < 2 ^ 24)%Z.
Proof.
  intros Hd [Hlo Hhi].
  assert (Hp : (0 < 2 ^ (d - 24))%Z) by (apply Z.pow_pos_nonneg; lia).
  split.
  - apply Z.div_le_lower_bound; [exact Hp |].
    rewrite <- Z.pow_add_r by lia.
    replace (d - 24 + 23)%Z with (d - 1)%Z by lia. exact Hlo.
  - apply Z.div_lt_upper_bound; [exact Hp |].
    rewrite <- Z.pow_add_r by lia.
    replace (d - 24 + 24)%Z with d by lia. exact Hhi.
Qed.

Lemma round_aux_normal (sx : bool) (mx ex : Z) (lx : location) (x : Q) :
  (0 < mx)%Z ->
  (24 <= Zdigits2 mx)%Z ->
  (-125 <= Zdigits2 mx + ex <= 127)%Z ->
  inloc x mx lx ->
  exists m e,
    binary_round_aux 24 128 sx mx ex lx = S754_finite sx m e /\
    (2 ^ 23 <= Zpos m < 2 ^ 24)%Z /\
    (Zdigits2 mx + ex - 24 <= e <= Zdigits2 mx + ex - 23)%Z /\
    (1 - unit_roundoff) * (x * pow2 ex) <= fval (Zpos m) e /\
    fval (Zpos m) e <= (1 + unit_roundoff) * (x * pow2 ex).
Proof.
  intros Hmx Hd Hrange Hx.
  set (d := Zdigits2 mx) in *.
  pose proof (Zdigits2_bounds mx Hmx) as Hb. fold d in Hb.
  unfold binary_round_aux.
  (* first shift: down to 24 digits *)
  unfold shr_fexp. fold d.
  rewrite (fexp32 (d + ex)) by lia.
  replace (d + ex - 24 - ex)%Z with (d - 24)%Z by lia.
  destruct (shr_inrec x (shr_record_of_loc mx lx) ex (d - 24))
    as (K1 & K2 & K3).
  { lia. }
  { destruct lx as [| []]; cbn; lia. }
  { apply inrec_of_loc. exact Hx. }
  destruct (shr (shr_record_of_loc mx lx) ex (d - 24)) as [mrs1 e1].
  cbn [fst snd] in K1, K2, K3.
  assert (Hm1 : shr_m mrs1 = (mx / 2 ^ (d - 24))%Z).
  { rewrite K2. destruct lx as [| []]; reflexivity. }
  pose proof (div_pow2_digits mx d Hd Hb) as Hm1b. rewrite <- Hm1 in Hm1b.
  destruct (round_nearest_even_near _ _ _ K1) as (R1 & R2 & R3 & R4).
  set (mr := round_nearest_even (shr_m mrs1) (loc_of_shr_record mrs1)) in *.
  set (y := x * pow2 (- (d - 24))) in *.
  assert (Hxy : x * pow2 ex == y * pow2 e1).
  { unfold y. rewrite K3. rewrite <- Qmult_assoc, <- pow2_add.
    replace (- (d - 24) + (ex + (d - 24)))%Z with ex by lia. reflexivity. }
  assert (Hy : inject_Z (2 ^ 23) <= y).
  { apply Qle_trans with (inject_Z (shr_m mrs1)); [| exact R4].
    rewrite <- Zle_Qle. lia. }
  change (inject_Z (2 ^ 23)) with (8388608 # 1) in Hy.
  pose proof (pow2_pos e1) as He1.
  (* second shift: only when rounding carried into a 25th digit *)
  destruct (Z.eq_dec mr (2 ^ 24)) as [Hcarry | Hnocarry].
  - rewrite Hcarry.
    change (Zdigits2 (2 ^ 24)) with 25%Z.
    rewrite fexp32 by lia.
    replace (25 + e1 - 24 - e1)%Z with 1%Z by lia.
    cbn [shr shr_record_of_loc iter_pos shr_1 shr_m Z.pow Z.pow_pos Pos.iter Z.mul Pos.mul].
    assert (Hle : (e1 + 1 <=? 128 - 24)%Z = true) by (apply Z.leb_le; lia).
    rewrite Hle.
    exists 8388608%positive, (e1 + 1)%Z.
    split; [reflexivity |]. split; [lia |]. split; [lia |].
    unfold fval. rewrite pow2_succ, Hxy.
    rewrite Hcarry in R2, R3.
    change (inject_Z (2 ^ 24)) with (16777216 # 1) in R2, R3.
    change (inject_Z 8388608) with (8388608 # 1).
    unfold unit_roundoff. split; nra.
  - assert (Hmr : (2 ^ 23 <= mr < 2 ^ 24)%Z) by lia.
    rewrite (Zdigits2_unique mr 24) by (cbn; lia).
    rewrite fexp32 by lia.
    replace (24 + e1 - 24 - e1)%Z with 0%Z by lia.
    cbn [shr shr_record_of_loc shr_m].
    destruct mr as [| pm | pm] eqn:Emr; [lia | | lia].
    assert (Hle : (e1 <=? 128 - 24)%Z = true) by (apply Z.leb_le; lia).
    rewrite Hle.
    exists pm, e1.
    split; [reflexivity |]. split; [lia |]. split; [lia |].
    unfold fval. rewrite Hxy.
    assert (Hpm : 8388608 <= inject_Z (Zpos pm)).
    { change 8388608 with (inject_Z (2 ^ 23)). rewrite <- Zle_Qle. lia. }
    unfold unit_roundoff. split; nra.
Qed.

Lemma normal_digits (m : positive) : normal_mantissa m -> Zdigits2 (Zpos m) = 24%Z.
Proof. intros H. apply Zdigits2_unique; [exact H | lia]. Qed.

Lemma iter_xO_pow2 (p q : positive) :
  Zpos (Pos.iter xO p q) = (Zpos p * 2 ^ Zpos q)%Z.
Proof.
  rewrite <- Z.shiftl_mul_pow2 by lia.
  cbn [Z.shiftl].
  apply (Pos.iter_swap_gen _ _ Zpos xO (Z.mul 2)).
  intros a. reflexivity.
Qed.

Lemma fval_pos (m : positive) (e : Z) : 0 < fval (Zpos m) e.
Proof.
  unfold fval. apply Qmult_lt_0_compat; [| apply pow2_pos].
  change 0 with (inject_Z 0). rewrite <- Zlt_Qlt. lia.
Qed.

(** [(float)n] for a positive integer below [2^32]. *)
Lemma of_Z_normal (n : Z) :
  (0 < n < 2 ^ 32)%Z ->
  exists m e,
    F32.of_Z n = S754_finite false m e /\
    normal_mantissa m /\
    (-23 <= e <= 9)%Z /\
    (1 - unit_roundoff) * inject_Z n <= fval (Zpos m) e /\
    fval (Zpos m) e <= (1 + unit_roundoff) * inject_Z n.
Proof.
  intros Hn.
  destruct n as [| p | p]; [lia | | lia].
  unfold F32.of_Z, F32.prec, F32.emax, binary_normalize, binary_round.
  pose proof (Zdigits2_bounds (Zpos p) (proj1 Hn)) as Hb.
  cbn [Zdigits2] in Hb.
  set (d := Zpos (digits2_pos p)) in *.
  assert (Hd : (1 <= d <= 32)%Z).
  { split; [unfold d; lia |].
    destruct (Z_le_gt_dec d 32) as [Hle | Hgt]; [exact Hle | exfalso].
    assert (2 ^ 32 <= 2 ^ (d - 1))%Z by (apply Z.pow_le_mono_r; lia).
    lia. }
  rewrite Z.add_0_r. rewrite fexp32 by lia.
  unfold shl_align. rewrite Z.sub_0_r.
  destruct (d - 24)%Z as [| q | q] eqn:Eq.
  - (* exactly 24 digits *)
    destruct (round_aux_normal false (Zpos p) 0 loc_Exact (inject_Z (Zpos p)))
      as (m & e & E1 & E2 & E3 & E4 & E5);
      try (cbn [Zdigits2]; fold d; lia); [reflexivity |].
    exists m, e. rewrite E1. cbn [Zdigits2] in E3. fold d in E3.
    rewrite pow2_0, Qmult_1_r in E4, E5.
    repeat split; try assumption; lia.
  - (* more than 24 digits: rounding *)
    destruct (round_aux_normal false (Zpos p) 0 loc_Exact (inject_Z (Zpos p)))
      as (m & e & E1 & E2 & E3 & E4 & E5);
      try (cbn [Zdigits2]; fold d; lia); [reflexivity |].
    exists m, e. rewrite E1. cbn [Zdigits2] in E3. fold d in E3.
    rewrite pow2_0, Qmult_1_r in E4, E5.
    repeat split; try assumption; lia.
  - (* fewer than 24 digits: the mantissa is shifted left, exactly *)
    pose proof (iter_xO_pow2 p q) as Hsh.
    set (mz := Pos.iter xO p q) in *.
    assert (Hq : Zpos q = (24 - d)%Z) by lia.
    assert (Hmz : (2 ^ 23 <= Zpos mz < 2 ^ 24)%Z).
    { rewrite Hsh, Hq.
      assert (Hp : (0 < 2 ^ (24 - d))%Z) by (apply Z.pow_pos_nonneg; lia).
      assert (H23 : (2 ^ 23 = 2 ^ (d - 1) * 2 ^ (24 - d))%Z).
      { rewrite <- Z.pow_add_r by lia. f_equal. lia. }
      assert (H24 : (2 ^ 24 = 2 ^ d * 2 ^ (24 - d))%Z).
      { rewrite <- Z.pow_add_r by lia. f_equal. lia. }
      rewrite H23, H24. split.
      - apply Z.mul_le_mono_nonneg_r; lia.
      - apply Z.mul_lt_mono_pos_r; lia. }
    destruct (round_aux_normal false (Zpos mz) (Zneg q) loc_Exact
                (inject_Z (Zpos mz)))
      as (m & e & E1 & E2 & E3 & E4 & E5);
      try (rewrite (normal_digits mz Hmz); lia); [lia | reflexivity |].
    exists m, e. rewrite E1.
    rewrite (normal_digits mz Hmz) in E3.
    assert (Hval : inject_Z (Zpos mz) * pow2 (Zneg q) == inject_Z (Zpos p)).
    { rewrite Hsh, inject_Z_mult, <- pow2_inject by lia.
      rewrite <- Qmult_assoc, <- pow2_add.
      replace (Zpos q + Zneg q)%Z with 0%Z by lia.
      rewrite pow2_0. ring. }
    rewrite Hval in E4, E5.
    repeat split; try assumption; lia.
Qed.

(** The location [SFdiv] attaches to a quotient is where the exact
    quotient lies. *)
Lemma new_location_inloc (x : Q) (q nb k : Z) :
  (0 <= k < nb)%Z ->
  x * inject_Z nb == inject_Z q * inject_Z nb + inject_Z k ->
  inloc x q (new_location nb k).
Proof.
  intros [Hk0 Hk] Hx.
  assert (Hnb : 0 < inject_Z nb).
  { change 0 with (inject_Z 0). rewrite <- Zlt_Qlt. lia. }
  assert (Hkq : 0 <= inject_Z k).
  { change 0 with (inject_Z 0). rewrite <- Zle_Qle. lia. }
  assert (Hknb : inject_Z k < inject_Z nb) by (rewrite <- Zlt_Qlt; lia).
  assert (Hlt : (2 * k < nb)%Z -> 2 * inject_Z k < inject_Z nb).
  { intros H. change 2 with (inject_Z 2). rewrite <- inject_Z_mult, <- Zlt_Qlt. exact H. }
  assert (Hgt : (nb < 2 * k)%Z -> inject_Z nb < 2 * inject_Z k).
  { intros H. change 2 with (inject_Z 2). rewrite <- inject_Z_mult, <- Zlt_Qlt. exact H. }
  assert (Heq : (2 * k = nb)%Z -> 2 * inject_Z k == inject_Z nb).
  { intros H. change 2 with (inject_Z 2). rewrite <- inject_Z_mult, H. reflexivity. }
  unfold new_location.
  destruct (Z.even nb) eqn:Eev.
  - unfold new_location_even.
    destruct (Z.eqb_spec k 0) as [-> | Hk1].
    + cbn. change (inject_Z 0) with 0 in Hx. nra.
    + assert (0 < inject_Z k).
      { change 0 with (inject_Z 0). rewrite <- Zlt_Qlt. lia. }
      destruct (Z.compare_spec (2 * k) nb) as [E | E | E]; cbn.
      * apply Heq in E. nra.
      * apply Hlt in E. split; nra.
      * apply Hgt in E. split; nra.
  - unfold new_location_odd.
    destruct (Z.eqb_spec k 0) as [-> | Hk1].
    + cbn. change (inject_Z 0) with 0 in Hx. nra.
    + assert (0 < inject_Z k).
      { change 0 with (inject_Z 0). rewrite <- Zlt_Qlt. lia. }
      assert (Hodd : (2 * k <> nb)%Z).
      { intros E. rewrite <- E, Z.even_mul in Eev. discriminate Eev. }
      destruct (Z.compare_spec (2 * k + 1) nb) as [E | E | E]; cbn.
      * assert (E' : (2 * k < nb)%Z) by lia. apply Hlt in E'. split; nra.
      * assert (E' : (2 * k < nb)%Z) by lia. apply Hlt in E'. split; nra.
      * assert (E' : (nb < 2 * k)%Z) by lia. apply Hgt in E'. split; nra.
Qed.

Lemma Zdigits2_range (m lo hi : Z) :
  (0 < lo)%Z ->
  (2 ^ (lo - 1) <= m < 2 ^ hi)%Z ->
  (lo <= Zdigits2 m <= hi)%Z.
Proof.
  intros Hlo [H1 H2].
  assert (Hm : (0 < m)%Z).
  { apply Z.lt_le_trans with (2 ^ (lo - 1))%Z; [apply Z.pow_pos_nonneg; lia | exact H1]. }
  destruct (Zdigits2_bounds m Hm) as [D1 D2].
  assert (Hdpos : (0 < Zdigits2 m)%Z) by (destruct m; cbn; lia).
  split.
  - destruct (Z_le_gt_dec lo (Zdigits2 m)) as [Hle | Hgt]; [exact Hle | exfalso].
    assert (2 ^ Zdigits2 m <= 2 ^ (lo - 1))%Z by (apply Z.pow_le_mono_r; lia).
    lia.
  - destruct (Z_le_gt_dec (Zdigits2 m) hi) as [Hle | Hgt]; [exact Hle | exfalso].
    assert (2 ^ hi <= 2 ^ (Zdigits2 m - 1))%Z by (apply Z.pow_le_mono_r; lia).
    lia.
Qed.

Lemma inject_Z_pos (z : Z) : (0 < z)%Z -> 0 < inject_Z z.
Proof. intros H. change 0 with (inject_Z 0). rewrite <- Zlt_Qlt. exact H. Qed.

(** Division of two normal_mantissa values: the correctly rounded quotient. *)
Lemma div_normal (m1 : positive) (e1 : Z) (m2 : positive) (e2 : Z) (qx : Q) :
  normal_mantissa m1 -> normal_mantissa m2 ->
  (-100 <= e1 - e2 <= 100)%Z ->
  qx * fval (Zpos m2) e2 == fval (Zpos m1) e1 ->
  exists m e,
    SFdiv 24 128 (S754_finite false m1 e1) (S754_finite false m2 e2)
      = S754_finite false m e /\
    normal_mantissa m /\
    (e1 - e2 - 24 <= e <= e1 - e2 - 22)%Z /\
    (1 - unit_roundoff) * qx <= fval (Zpos m) e /\
    fval (Zpos m) e <= (1 + unit_roundoff) * qx.
Proof.
  intros N1 N2 He Hq.
  unfold SFdiv, SFdiv_core_binary.
  rewrite (normal_digits m1 N1), (normal_digits m2 N2).
  replace (24 + e1 - (24 + e2))%Z with (e1 - e2)%Z by lia.
  rewrite fexp32 by lia.
  rewrite Z.min_l by lia.
  replace (e1 - e2 - (e1 - e2 - 24))%Z with 24%Z by lia.
  cbv beta iota.
  rewrite Z.shiftl_mul_pow2 by lia.
  pose proof (Z_div_mod (Zpos m1 * 2 ^ 24) (Zpos m2) eq_refl) as Hdm.
  destruct (Z.div_eucl (Zpos m1 * 2 ^ 24) (Zpos m2)) as [q k].
  destruct Hdm as [Hdm Hk].
  unfold normal_mantissa in N1, N2.
  assert (Hqb : (2 ^ 23 <= q < 2 ^ 25)%Z).
  { change (2 ^ 23)%Z with 8388608%Z in *. change (2 ^ 24)%Z with 16777216%Z in *.
    change (2 ^ 25)%Z with 33554432%Z. nia. }
  pose proof (Zdigits2_range q 24 25 eq_refl Hqb) as Hdq.
  set (x := inject_Z (Zpos m1 * 2 ^ 24) / inject_Z (Zpos m2)).
  assert (Hm2 : 0 < inject_Z (Zpos m2)) by (apply inject_Z_pos; lia).
  assert (Hx : x * inject_Z (Zpos m2) == inject_Z (Zpos m1 * 2 ^ 24)).
  { unfold x. field. lra. }
  cbn [xorb].
  destruct (round_aux_normal false q (e1 - e2 - 24) (new_location (Zpos m2) k) x)
    as (m & e & E1 & E2 & E3 & E4 & E5); try lia.
  { apply new_location_inloc; [exact Hk |].
    rewrite Hx, Hdm, inject_Z_plus, inject_Z_mult. ring. }
  exists m, e. rewrite E1.
  assert (Hqx : qx == x * pow2 (e1 - e2 - 24)).
  { pose proof (fval_pos m2 e2) as Hpos.
    apply (Qmult_inj_r _ _ (fval (Zpos m2) e2)); [lra |].
    rewrite Hq. unfold fval.
    transitivity (x * inject_Z (Zpos m2) * (pow2 (e1 - e2 - 24) * pow2 e2));
      [| ring].
    rewrite Hx, inject_Z_mult, <- pow2_inject by lia.
    rewrite <- pow2_add, <- Qmult_assoc, <- pow2_add.
    replace (24 + (e1 - e2 - 24 + e2))%Z with e1 by lia. reflexivity. }
  rewrite <- Hqx in E4, E5.
  repeat split; try assumption; lia.
Qed.

(** Multiplication of two normal_mantissa values: the correctly rounded product. *)
Lemma mul_normal (m1 : positive) (e1 : Z) (m2 : positive) (e2 : Z) :
  normal_mantissa m1 -> normal_mantissa m2 ->
  (-100 <= e1 + e2 <= 50)%Z ->
  exists m e,
    F32.mul (S754_finite false m1 e1) (S754_finite false m2 e2)
      = S754_finite false m e /\
    normal_mantissa m /\
    (e1 + e2 + 23 <= e <= e1 + e2 + 25)%Z /\
    (1 - unit_roundoff) * (fval (Zpos m1) e1 * fval (Zpos m2) e2) <= fval (Zpos m) e /\
    fval (Zpos m) e <= (1 + unit_roundoff) * (fval (Zpos m1) e1 * fval (Zpos m2) e2).
Proof.
  intros N1 N2 He.
  unfold F32.mul, F32.prec, F32.emax, SFmul. cbn [xorb].
  unfold normal_mantissa in N1, N2.
  assert (Hpb : (2 ^ 46 <= Zpos (m1 * m2) < 2 ^ 48)%Z).
  { rewrite Pos2Z.inj_mul.
    change (2 ^ 23)%Z with 8388608%Z in *. change (2 ^ 24)%Z with 16777216%Z in *.
    change (2 ^ 46)%Z with 70368744177664%Z.
    change (2 ^ 48)%Z with 281474976710656%Z. nia. }
  pose proof (Zdigits2_range (Zpos (m1 * m2)) 47 48 eq_refl Hpb) as Hd.
  destruct (round_aux_normal false (Zpos (m1 * m2)) (e1 + e2) loc_Exact
              (inject_Z (Zpos (m1 * m2))))
    as (m & e & E1 & E2 & E3 & E4 & E5); try lia.
  { reflexivity. }
  exists m, e. rewrite E1.
  assert (Hv : inject_Z (Zpos (m1 * m2)) * pow2 (e1 + e2)
               == fval (Zpos m1) e1 * fval (Zpos m2) e2).
  { unfold fval. rewrite Pos2Z.inj_mul, inject_Z_mult, pow2_add. ring. }
  rewrite Hv in E4, E5.
  repeat split; try assumption; lia.
Qed.

(** [(int)x] of a positive value is its integer part. *)
Lemma to_Z_floor (m : positive) (e : Z) :
  inject_Z (F32.to_Z (S754_finite false m e)) <= fval (Zpos m) e /\
  fval (Zpos m) e < inject_Z (F32.to_Z (S754_finite false m e)) + 1.
Proof.
  unfold F32.to_Z, fval.
  destruct e as [| p | p].
  - rewrite Z.shiftl_0_r, pow2_0. lra.
  - rewrite Z.shiftl_mul_pow2 by lia.
    rewrite inject_Z_mult, <- pow2_inject by lia. lra.
  - rewrite Z.shiftr_div_pow2 by lia.
    pose proof (Z_div_mod (Zpos m) (2 ^ Zpos p)) as Hdm.
    assert (Hp : (0 < 2 ^ Zpos p)%Z) by (apply Z.pow_pos_nonneg; lia).
    specialize (Hdm (Z.lt_gt _ _ Hp)).
    unfold Z.div.
    destruct (Z.div_eucl (Zpos m) (2 ^ Zpos p)) as [q k].
    destruct Hdm as [Hdm Hk]. cbn [fst].
    assert (Hinv : pow2 (Zneg p) * inject_Z (2 ^ Zpos p) == 1).
    { rewrite <- pow2_inject by lia. rewrite <- pow2_add.
      replace (Zneg p + Zpos p)%Z with 0%Z by lia. reflexivity. }
    pose proof (pow2_pos (Zneg p)) as Hpp.
    rewrite Hdm, inject_Z_plus, inject_Z_mult.
    assert (Hk0 : 0 <= inject_Z k).
    { change 0 with (inject_Z 0). rewrite <- Zle_Qle. lia. }
    assert (Hk1 : inject_Z k < inject_Z (2 ^ Zpos p)) by (rewrite <- Zlt_Qlt; lia).
    set (B := inject_Z (2 ^ Zpos p)) in *.
    set (P := pow2 (Zneg p)) in *.
    assert (H1 : 0 <= inject_Z k * P) by (apply Qmult_le_0_compat; lra).
    assert (H2 : 0 < (B - inject_Z k) * P) by (apply Qmult_lt_0_compat; lra).
    assert (H3 : (B * inject_Z q + inject_Z k) * P
                 == inject_Z q * (P * B) + inject_Z k * P) by ring.
    rewrite H3, Hinv.
    assert (H4 : (B - inject_Z k) * P == P * B - inject_Z k * P) by ring.
    rewrite H4, Hinv in H2.
    split; lra.
Qed.

(** The progress value and a scaled channel, in the reals: for positive
    [target], [elapsed] and [duration] the value that [(int)] truncates is
    [target * elapsed / duration] up to a relative error of [9 * 2^-24]. *)
Lemma scale_real (t e D : Z) :
  (0 < t < 2 ^ 15)%Z -> (0 < e < 2 ^ 32)%Z -> (0 < D < 2 ^ 32)%Z ->
  exists p m ex,
    F32.div (F32.of_Z e) (F32.of_Z D) = Some p /\
    F32.mul (F32.of_Z t) p = S754_finite false m ex /\
    forall x : Q,
      x * inject_Z D == inject_Z t * inject_Z e ->
      (1 - 9 * unit_roundoff) * x <= fval (Zpos m) ex /\
      fval (Zpos m) ex <= (1 + 9 * unit_roundoff) * x.
Proof.
  intros Ht He HD.
  destruct (of_Z_normal e He) as (me & ee & Ee & Ne & Re & Le & Ue).
  destruct (of_Z_normal D HD) as (md & ed & Ed & Nd & Rd & Ld & Ud).
  destruct (of_Z_normal t) as (mt & et & Et & Nt & Rt & Lt & Ut); [lia |].
  pose proof (fval_pos md ed) as Hdv.
  set (qx := fval (Zpos me) ee / fval (Zpos md) ed).
  assert (Hqx : qx * fval (Zpos md) ed == fval (Zpos me) ee).
  { unfold qx. field. lra. }
  destruct (div_normal me ee md ed qx Ne Nd) as (mp & ep & Ep & Np & Rp & Lp & Up);
    [lia | exact Hqx |].
  destruct (mul_normal mt et mp ep Nt Np) as (m & ex & Em & Nm & Rm & Lm & Um);
    [lia |].
  exists (S754_finite false mp ep), m, ex.
  split.
  { rewrite Ee, Ed. unfold F32.div, F32.is_zero, F32.prec, F32.emax.
    rewrite Ep. reflexivity. }
  split.
  { rewrite Et. exact Em. }
  intros x Hx.
  pose proof (inject_Z_pos t (proj1 Ht)) as Qt.
  pose proof (inject_Z_pos e (proj1 He)) as Qe.
  pose proof (inject_Z_pos D (proj1 HD)) as QD.
  pose proof (fval_pos me ee) as Hev.
  pose proof (fval_pos mt et) as Htv.
  pose proof (fval_pos mp ep) as Hpv.
  set (E := fval (Zpos me) ee) in *.
  set (Dv := fval (Zpos md) ed) in *.
  set (P := fval (Zpos mp) ep) in *.
  set (T := fval (Zpos mt) et) in *.
  set (Y := fval (Zpos m) ex) in *.
  set (qt := inject_Z t) in *. set (qe := inject_Z e) in *.
  set (qD := inject_Z D) in *.
  (* the exact progress [rho = e / D] *)
  set (rho := qe / qD).
  assert (Hrho : rho * qD == qe) by (unfold rho; field; lra).
  assert (Hrho0 : 0 < rho).
  { apply (Qmult_lt_r _ _ qD QD). rewrite Hrho. lra. }
  assert (Hxr : x == qt * rho).
  { apply (Qmult_inj_r _ _ qD); [lra |]. rewrite Hx, <- Hrho. ring. }
  assert (Hqx0 : 0 < qx).
  { apply (Qmult_lt_r _ _ Dv Hdv). rewrite Hqx. lra. }
  unfold unit_roundoff in *.
  (* the quotient before rounding *)
  assert (Hq_hi : (1 - (1 # 16777216)) * qx <= (1 + (1 # 16777216)) * rho).
  { apply (Qmult_le_r _ _ qD QD).
    apply Qle_trans with (qx * Dv).
    - assert (qx * ((1 - (1 # 16777216)) * qD) <= qx * Dv)
        by (apply Qmult_le_l; lra).
      lra.
    - rewrite Hqx.
      assert ((1 + (1 # 16777216)) * rho * qD == (1 + (1 # 16777216)) * qe)
        by (rewrite <- Hrho; ring).
      lra. }
  assert (Hq_lo : (1 - (1 # 16777216)) * rho <= (1 + (1 # 16777216)) * qx).
  { apply (Qmult_le_r _ _ qD QD).
    apply Qle_trans with (qx * Dv).
    - rewrite Hqx.
      assert ((1 - (1 # 16777216)) * rho * qD == (1 - (1 # 16777216)) * qe)
        by (rewrite <- Hrho; ring).
      lra.
    - assert (qx * Dv <= qx * ((1 + (1 # 16777216)) * qD))
        by (apply Qmult_le_l; lra).
      lra. }
  assert (HP_hi : P <= (1 + (5 # 16777216)) * rho) by lra.
  assert (HP_lo : (1 - (5 # 16777216)) * rho <= P) by lra.
  (* the product before rounding *)
  assert (HTP_hi : T * P <= (1 + (7 # 16777216)) * (qt * rho)).
  { apply Qle_trans with (((1 + (1 # 16777216)) * qt) * ((1 + (5 # 16777216)) * rho)).
    - apply Qle_trans with (T * ((1 + (5 # 16777216)) * rho)).
      + apply Qmult_le_l; lra.
      + apply Qmult_le_r; lra.
    - assert (0 < qt * rho) by (apply Qmult_lt_0_compat; lra).
      lra. }
  assert (HTP_lo : (1 - (7 # 16777216)) * (qt * rho) <= T * P).
  { apply Qle_trans with (((1 - (1 # 16777216)) * qt) * ((1 - (5 # 16777216)) * rho)).
    - assert (0 < qt * rho) by (apply Qmult_lt_0_compat; lra).
      lra.
    - apply Qle_trans with (T * ((1 - (5 # 16777216)) * rho)).
      + apply Qmult_le_r; lra.
      + apply Qmult_le_l; lra. }
  assert (HTP0 : 0 < T * P) by (apply Qmult_lt_0_compat; lra).
  assert (0 < qt * rho) by (apply Qmult_lt_0_compat; lra).
  rewrite Hxr. split; lra.
Qed.

Lemma Qfloor_below (n d : Z) (x : Q) :
  (0 < d)%Z ->
  x * inject_Z d == inject_Z n ->
  inject_Z (n / d) <= x /\ x < inject_Z (n / d) + 1.
Proof.
  intros Hd Hx.
  pose proof (Z_div_mod n d (Z.lt_gt _ _ Hd)) as Hdm.
  unfold Z.div. destruct (Z.div_eucl n d) as [q k]. cbn [fst].
  destruct Hdm as [Hdm Hk].
  pose proof (inject_Z_pos d Hd) as Qd.
  assert (Hk0 : 0 <= inject_Z k).
  { change 0 with (inject_Z 0). rewrite <- Zle_Qle. lia. }
  assert (Hk1 : inject_Z k < inject_Z d) by (rewrite <- Zlt_Qlt; lia).
  rewrite Hdm, inject_Z_plus, inject_Z_mult in Hx.
  split.
  - apply (Qmult_le_r _ _ (inject_Z d) Qd). lra.
  - apply (Qmult_lt_r _ _ (inject_Z d) Qd). lra.
Qed.

Lemma inject_Z_lt_succ (a c : Z) :
  inject_Z a < inject_Z c + 1 -> (a <= c)%Z.
Proof.
  intros H. change 1 with (inject_Z 1) in H.
  rewrite <- inject_Z_plus, <- Zlt_Qlt in H. lia.
Qed.

Theorem scale_ramp (t e D : Z) :
  (0 <= t < 2 ^ 15)%Z -> (0 <= e < D)%Z -> (D < 2 ^ 32)%Z ->
  exists p,
    F32.div (F32.of_Z e) (F32.of_Z D) = Some p /\
    ramp_value t e D (scale t p).
Proof.
  intros Ht He HD.
  destruct (Z.eq_dec e 0) as [-> | He0].
  { (* no time elapsed: the progress is a float zero *)
    destruct (of_Z_normal D) as (md & ed & Ed & _); [lia |].
    exists (S754_zero false). split.
    - rewrite Ed. reflexivity.
    - assert (Hs : scale t (S754_zero false) = 0%Z).
      { unfold scale.
        destruct (Z.eq_dec t 0) as [-> | Ht0]; [reflexivity |].
        destruct (of_Z_normal t) as (mt & et & Et & _); [lia |].
        rewrite Et. reflexivity. }
      rewrite Hs. unfold ramp_value.
      rewrite Z.mul_0_r, !Z.mul_0_r, !Z.div_0_l by lia. lia. }
  destruct (Z.eq_dec t 0) as [-> | Ht0].
  { (* a dark channel stays dark *)
    destruct (of_Z_normal D) as (md & ed & Ed & Nd & Rd & _); [lia |].
    destruct (of_Z_normal e) as (me & ee & Ee & Ne & Re & _); [lia |].
    pose proof (fval_pos md ed) as Hdv.
    destruct (div_normal me ee md ed (fval (Zpos me) ee / fval (Zpos md) ed) Ne Nd)
      as (mp & ep & Ep & _); [lia | field; lra |].
    exists (S754_finite false mp ep). split.
    - rewrite Ee, Ed. unfold F32.div, F32.is_zero, F32.prec, F32.emax.
      rewrite Ep. reflexivity.
    - change (scale 0 (S754_finite false mp ep)) with 0%Z.
      unfold ramp_value.
      rewrite Z.mul_0_l, !Z.mul_0_r, !Z.div_0_l by lia. lia. }
  destruct (scale_real t e D) as (p & m & ex & Ep & Em & Hb); try lia.
  exists p. split; [exact Ep |].
  unfold scale. rewrite Em.
  destruct (to_Z_floor m ex) as [F1 F2].
  set (c := F32.to_Z (S754_finite false m ex)) in *.
  set (Y := fval (Zpos m) ex) in *.
  pose proof (inject_Z_pos D) as QD. specialize (QD ltac:(lia)).
  set (x := inject_Z (t * e) / inject_Z D).
  assert (Hx : x * inject_Z D == inject_Z (t * e)) by (unfold x; field; lra).
  destruct (Hb x) as [B1 B2]; [rewrite Hx, inject_Z_mult; reflexivity |].
  destruct (Qfloor_below (t * e) D x) as [X1 X2]; [lia | exact Hx |].
  assert (Hxt : x < inject_Z t).
  { apply (Qmult_lt_r _ _ (inject_Z D) QD). rewrite Hx.
    rewrite <- inject_Z_mult, <- Zlt_Qlt. nia. }
  assert (Hx0 : 0 < x).
  { apply (Qmult_lt_r _ _ (inject_Z D) QD). rewrite Hx.
    rewrite Qmult_0_l. apply inject_Z_pos. nia. }
  assert (Ht15 : inject_Z t <= 32767).
  { change 32767 with (inject_Z 32767). rewrite <- Zle_Qle. lia. }
  unfold unit_roundoff in B1, B2.
  unfold ramp_value. split; [| split].
  - (* the tolerance *)
    split.
    + apply inject_Z_lt_succ.
      apply Qle_lt_trans with ((1 - 9 * (1 # 16777216)) * x); [| lra].
      destruct (Qfloor_below ((16777216 - 9) * (t * e)) (16777216 * D)
                  ((1 - 9 * (1 # 16777216)) * x)) as [G1 _]; [lia | | exact G1].
      rewrite !inject_Z_mult, <- Hx.
      change (inject_Z (16777216 - 9)) with (16777207 # 1).
      change (inject_Z 16777216) with (16777216 # 1). ring.
    + apply inject_Z_lt_succ.
      apply Qle_lt_trans with ((1 + 9 * (1 # 16777216)) * x); [lra |].
      destruct (Qfloor_below ((16777216 + 9) * (t * e)) (16777216 * D)
                  ((1 + 9 * (1 # 16777216)) * x)) as [_ G2]; [lia | | exact G2].
      rewrite !inject_Z_mult, <- Hx.
      change (inject_Z (16777216 + 9)) with (16777225 # 1).
      change (inject_Z 16777216) with (16777216 # 1). ring.
  - (* at most one off *)
    split.
    + assert (H : inject_Z (t * e / D) < inject_Z (c + 1) + 1).
      { rewrite inject_Z_plus. change (inject_Z 1) with 1. lra. }
      apply inject_Z_lt_succ in H. lia.
    + apply inject_Z_lt_succ.
      rewrite inject_Z_plus. change (inject_Z 1) with 1. lra.
  - (* between dark and the target *)
    split.
    + assert (H : inject_Z 0 < inject_Z c + 1).
      { change (inject_Z 0) with 0. lra. }
      apply inject_Z_lt_succ in H. exact H.
    + apply inject_Z_lt_succ. lra.
Qed.

End Rounding.

(** ** Basic facts about the sketch *)

Ltac unfold_sketch :=
  cbv beta iota delta
    [bind ret get_state modify emit fail when setColor displayPlanet1
     displayPlanet2].

Lemma three_planets (i : Z) :
  0 <= i < 3 -> i = 0 \/ i = 1 \/ i = 2.
Proof. lia. Qed.

Lemma valid_planet_dec (s : State) : {valid_planet s} + {~ valid_planet s}.
Proof.
  unfold valid_planet.
  destruct (Z_le_dec 0 (currentPlanet s)); destruct (Z_lt_dec (currentPlanet s) 3);
    try (left; lia); right; lia.
Qed.

Lemma planet_at_valid (i : Z) (s : State) :
  0 <= i < 3 -> planet_at i s = Ok (preset i) s [].
Proof.
  intros Hi.
  destruct (three_planets i Hi) as [-> | [-> | ->]]; reflexivity.
Qed.

Lemma planet_at_invalid (i : Z) (s : State) :
  ~ 0 <= i < 3 -> planet_at i s = Failed OutOfBounds.
Proof.
  intros Hi. unfold planet_at.
  destruct (0 <=? i) eqn:E1; destruct (i <? 3) eqn:E2; cbn; try reflexivity.
  apply Z.leb_le in E1. apply Z.ltb_lt in E2. lia.
Qed.

Lemma preset_color_range (i : Z) :
  0 <= r (preset i) <= 255 /\
  0 <= g (preset i) <= 255 /\
  0 <= b (preset i) <= 255.
Proof.
  unfold preset.
  destruct (Z.to_nat i) as [| [| [| n]]]; cbn; try lia.
  destruct n; cbn; lia.
Qed.

(** Unsigned subtraction recovers the elapsed time across a roll-over of
    the millisecond clock. *)
Lemma elapsed_across_rollover (start e : Z) :
  0 <= e < 2 ^ 32 ->
  to_ulong (to_ulong (start + e) - start) = e.
Proof.
  intros He. unfold to_ulong.
  rewrite Zminus_mod_idemp_l.
  replace (start + e - start) with e by ring.
  apply Z.mod_small. exact He.
Qed.

Lemma to_ulong_range (z : Z) : 0 <= to_ulong z < 2 ^ 32.
Proof. unfold to_ulong. apply Z.mod_pos_bound. reflexivity. Qed.

(** *** [updateSunrise] *)

Lemma updateSunrise_done (now : Z) (s : State) :
  valid_planet s ->
  sunriseDuration s <= to_ulong (now - sunriseStartTime s) ->
  updateSunrise now s = Ok tt (set_sunriseActive false s) (completion_trace s).
Proof.
  intros Hv He.
  unfold updateSunrise. unfold_sketch.
  apply Z.leb_le in He. rewrite He.
  rewrite (planet_at_valid _ _ Hv).
  reflexivity.
Qed.

Lemma updateSunrise_done_out_of_bounds (now : Z) (s : State) :
  ~ valid_planet s ->
  sunriseDuration s <= to_ulong (now - sunriseStartTime s) ->
  updateSunrise now s = Failed OutOfBounds.
Proof.
  intros Hv He.
  unfold updateSunrise. unfold_sketch.
  apply Z.leb_le in He. rewrite He.
  rewrite (planet_at_invalid _ _ Hv).
  reflexivity.
Qed.

(** The interpolation branch, for whatever the division returns. *)
Lemma updateSunrise_interpolates (now : Z) (s : State) :
  to_ulong (now - sunriseStartTime s) < sunriseDuration s ->
  updateSunrise now s =
    match F32.div (F32.of_Z (to_ulong (now - sunriseStartTime s)))
                  (F32.of_Z (sunriseDuration s)) with
    | Some p =>
        Ok tt s [ AnalogWrite RED_PIN (scale (targetR s) p);
                  AnalogWrite GREEN_PIN (scale (targetG s) p);
                  AnalogWrite BLUE_PIN (scale (targetB s) p) ]
    | None => Failed DivisionByZero
    end.
Proof.
  intros He.
  unfold updateSunrise, progress_of. unfold_sketch.
  apply Z.leb_gt in He. rewrite He.
  destruct (F32.div _ _); reflexivity.
Qed.

Lemma color_writes_completion (s : State) :
  color_writes (completion_trace s) = [target_of s].
Proof. reflexivity. Qed.

(** The completion branch is the only place that prints the completion
    message, and nothing in it touches the remote. *)
Lemma updateSunrise_frame (now : Z) (s s' : State) (out : list Event) :
  updateSunrise now s = Ok tt s' out ->
  remote_consumed out = false /\
  invalid_reported out = false /\
  currentPlanet s' = currentPlanet s.
Proof.
  intros H.
  destruct (Z_le_gt_dec (sunriseDuration s) (to_ulong (now - sunriseStartTime s)))
    as [Hle | Hgt].
  - destruct (valid_planet_dec s) as [Hv | Hv].
    + rewrite (updateSunrise_done now s Hv Hle) in H.
      injection H as <- <-.
      split; [| split; [| reflexivity]];
        destruct (three_planets _ Hv) as [E | [E | E]];
        unfold completion_trace; rewrite E; reflexivity.
    + rewrite (updateSunrise_done_out_of_bounds now s Hv Hle) in H. discriminate H.
  - rewrite (updateSunrise_interpolates now s) in H by lia.
    destruct (F32.div _ _); [| discriminate H].
    injection H as <- <-. repeat split; reflexivity.
Qed.

(** *** [showPlanet] *)

(** [showPlanet] on a table index: the flag is cleared and the preset is
    displayed with its own colour. *)
Lemma showPlanet_valid (planet : Z) (s : State) :
  0 <= planet < 3 ->
  exists out,
    showPlanet planet s = Ok tt (set_sunriseActive false s) out /\
    color_writes out = [color_of (preset planet)] /\
    ~ In (SerialPrintln msg_complete) out.
Proof.
  intros Hp.
  destruct (three_planets planet Hp) as [-> | [-> | ->]];
    (eexists; split; [reflexivity |]);
    (split; [reflexivity |]);
    cbn; intros H; repeat (destruct H as [H | H]; [discriminate H |]); exact H.
Qed.

(** *** [parseAndStartSunrise] *)

Lemma parse_accepts (now : Z) (command : string) (s : State) :
  0 < WString.indexOf " "%char command ->
  valid_planet s ->
  parseAndStartSunrise now command s =
    Ok tt (armed now (parsed_duration command) s)
          (arm_trace (parsed_duration command) s).
Proof.
  intros Hsp Hv.
  unfold parseAndStartSunrise, parsed_duration.
  apply Z.ltb_lt in Hsp. rewrite Hsp.
  set (d := to_ulong _).
  unfold_sketch.
  unfold set_sunriseDuration at 1 2 3.
  cbn [currentPlanet].
  rewrite !(planet_at_valid _ _ Hv).
  reflexivity.
Qed.

Lemma parse_out_of_bounds (now : Z) (command : string) (s : State) :
  0 < WString.indexOf " "%char command ->
  ~ valid_planet s ->
  parseAndStartSunrise now command s = Failed OutOfBounds.
Proof.
  intros Hsp Hv.
  unfold parseAndStartSunrise.
  apply Z.ltb_lt in Hsp. rewrite Hsp.
  set (d := to_ulong _).
  unfold_sketch.
  unfold set_sunriseDuration at 1.
  cbn [currentPlanet].
  rewrite (planet_at_invalid _ _ Hv).
  reflexivity.
Qed.

Lemma parse_rejects (now : Z) (command : string) (s : State) :
  WString.indexOf " "%char command <= 0 ->
  parseAndStartSunrise now command s = Ok tt s [SerialPrintln msg_invalid].
Proof.
  intros Hsp.
  unfold parseAndStartSunrise.
  destruct (0 <? WString.indexOf " " command) eqn:E.
  - apply Z.ltb_lt in E. lia.
  - reflexivity.
Qed.

Lemma arm_trace_quiet (duration : Z) (s : State) :
  valid_planet s ->
  remote_consumed (arm_trace duration s) = false /\
  invalid_reported (arm_trace duration s) = false /\
  color_writes (arm_trace duration s) = [(0, 0, 0)].
Proof.
  intros Hv. unfold arm_trace.
  destruct (three_planets _ Hv) as [E | [E | E]]; rewrite E;
    repeat split; reflexivity.
Qed.

Lemma parse_frame (now : Z) (command : string) (s s' : State) (out : list Event) :
  parseAndStartSunrise now command s = Ok tt s' out ->
  remote_consumed out = false /\ currentPlanet s' = currentPlanet s.
Proof.
  intros H.
  destruct (Z_lt_le_dec 0 (WString.indexOf " "%char command)) as [Hsp | Hsp].
  - destruct (valid_planet_dec s) as [Hv | Hv].
    + rewrite (parse_accepts now command s Hsp Hv) in H.
      injection H as <- <-.
      destruct (arm_trace_quiet (parsed_duration command) s Hv) as (Q1 & _).
      split; [exact Q1 | reflexivity].
    + rewrite (parse_out_of_bounds now command s Hsp Hv) in H. discriminate H.
  - rewrite (parse_rejects now command s Hsp) in H.
    injection H as <- <-. split; reflexivity.
Qed.

(** *** The [String] helpers *)

Lemma strchr_lower (ch : ascii) (s : string) : -1 <= WString.strchr ch s.
Proof.
  induction s as [| c s IH]; cbn [WString.strchr].
  - destruct (Ascii.eqb ch WString.nul); lia.
  - destruct (Ascii.eqb c ch); [lia |].
    destruct (Ascii.eqb c WString.nul); [lia |].
    destruct (WString.strchr ch s <? 0) eqn:E; [lia |].
    apply Z.ltb_ge in E. lia.
Qed.

Lemma indexOf_lower (ch : ascii) (s : string) : -1 <= WString.indexOf ch s.
Proof.
  unfold WString.indexOf.
  destruct (WString.is_empty s); [lia | apply strchr_lower].
Qed.

Lemma strchr_absent (ch : ascii) (s : string) :
  ch <> WString.nul ->
  ~ In ch (list_ascii_of_string s) ->
  WString.strchr ch s = -1.
Proof.
  intros Hch.
  induction s as [| c s IH]; cbn [WString.strchr list_ascii_of_string In]; intros Hin.
  - destruct (Ascii.eqb_spec ch WString.nul) as [E | _]; [contradiction | reflexivity].
  - destruct (Ascii.eqb_spec c ch) as [E | _]; [exfalso; apply Hin; left; exact E |].
    destruct (Ascii.eqb c WString.nul); [reflexivity |].
    rewrite IH by (intros H; apply Hin; right; exact H).
    reflexivity.
Qed.

(** A character that does not occur is not found. *)
Lemma indexOf_absent (ch : ascii) (s : string) :
  ch <> WString.nul ->
  ~ In ch (list_ascii_of_string s) ->
  WString.indexOf ch s = -1.
Proof.
  intros Hch Hin. unfold WString.indexOf.
  destruct (WString.is_empty s); [reflexivity | apply strchr_absent; assumption].
Qed.

(** The search does not look past a NUL. *)
Lemma strchr_stops_at_nul (ch : ascii) (a t : string) :
  ch <> WString.nul ->
  ~ In ch (list_ascii_of_string a) ->
  WString.strchr ch (a ++ String WString.nul t) = -1.
Proof.
  intros Hch.
  induction a as [| c a IH]; cbn [append WString.strchr list_ascii_of_string In];
    intros Hin.
  - destruct (Ascii.eqb_spec WString.nul ch) as [E | _];
      [exfalso; apply Hch; symmetry; exact E | reflexivity].
  - destruct (Ascii.eqb_spec c ch) as [E | _]; [exfalso; apply Hin; left; exact E |].
    destruct (Ascii.eqb c WString.nul); [reflexivity |].
    rewrite IH by (intros H; apply Hin; right; exact H).
    reflexivity.
Qed.



Lemma digit_char_spec (d : Z) :
  0 <= d < 10 ->
  WString.isdigit (digit_char d) = true /\
  WString.digit_val (digit_char d) = d.
Proof.
  intros Hd.
  assert (H : d = 0 \/ d = 1 \/ d = 2 \/ d = 3 \/ d = 4 \/
              d = 5 \/ d = 6 \/ d = 7 \/ d = 8 \/ d = 9) by lia.
  repeat (destruct H as [-> | H]; [split; reflexivity |]).
  subst d. split; reflexivity.
Qed.

Lemma atol_digits_decimal_aux (fuel : nat) :
  forall (n : Z) (rest : string),
    0 <= n < 2 ^ Z.of_nat fuel ->
    WString.atol_digits 0 (decimal_aux fuel n rest) = WString.atol_digits n rest.
Proof.
  induction fuel as [| fuel IH]; intros n rest Hn.
  - cbn in Hn. assert (n = 0) by lia. subst n. reflexivity.
  - cbn [decimal_aux].
    assert (Hmod : 0 <= n mod 10 < 10) by (apply Z.mod_pos_bound; lia).
    destruct (digit_char_spec (n mod 10) Hmod) as [D1 D2].
    destruct (n <? 10) eqn:E.
    + apply Z.ltb_lt in E.
      cbn [WString.atol_digits]. rewrite D1, D2.
      rewrite Z.mod_small by lia. f_equal.
    + apply Z.ltb_ge in E.
      rewrite IH.
      * cbn [WString.atol_digits]. rewrite D1, D2.
        f_equal. symmetry. apply Z.div_mod. lia.
      * rewrite Nat2Z.inj_succ, Z.pow_succ_r in Hn by lia.
        split; [apply Z.div_pos; lia |].
        apply Z.div_lt_upper_bound; lia.
Qed.

(** Reading back the decimal notation of [n] gives [n]. *)
Lemma atol_digits_decimal (n : Z) :
  0 <= n -> WString.atol_digits 0 (decimal n) = n.
Proof.
  intros Hn. unfold decimal.
  rewrite atol_digits_decimal_aux; [reflexivity |].
  rewrite Nat2Z.inj_succ, Z2Nat.id by apply Z.log2_nonneg.
  destruct (Z.eq_dec n 0) as [-> | Hn0]; [cbn; lia |].
  split; [lia |]. apply Z.log2_spec. lia.
Qed.

(** Every negative [long] has a token that [toInt] reads as it. *)
Lemma toInt_minus_decimal (n : Z) :
  0 < n <= 2 ^ 31 ->
  WString.toInt (String "-"%char (decimal n)) = - n.
Proof.
  intros Hn.
  unfold WString.toInt, WString.atol.
  change (WString.skip_space (String "-"%char (decimal n)))
    with (String "-"%char (decimal n)).
  cbv iota beta. change (Ascii.eqb "-" "-") with true. cbv iota.
  rewrite atol_digits_decimal by lia.
  unfold WString.wrap_long.
  replace (- n + 2 ^ 31) with (2 ^ 31 - n) by ring.
  rewrite Z.mod_small by lia. ring.
Qed.

(** *** The three blocks of [loop()] *)

Lemma loop_serial_frame (inp : LoopInput) (s s' : State) (out : list Event) :
  loop_serial inp s = Ok tt s' out ->
  remote_consumed out = false /\ currentPlanet s' = currentPlanet s.
Proof.
  unfold loop_serial.
  destruct (serial_line inp) as [line |].
  - destruct (WString.startsWith (WString.trim line) "SUNRISE").
    + apply parse_frame.
    + intros H. injection H as <- <-. split; reflexivity.
  - intros H. injection H as <- <-. split; reflexivity.
Qed.

Lemma loop_sunrise_frame (inp : LoopInput) (s s' : State) (out : list Event) :
  loop_sunrise inp s = Ok tt s' out ->
  remote_consumed out = false /\ currentPlanet s' = currentPlanet s.
Proof.
  unfold loop_sunrise. unfold_sketch.
  destruct (sunriseActive s).
  - destruct (updateSunrise (millis_update inp) s) as [[] s1 o1 | f] eqn:E;
      [| discriminate].
    intros H. injection H as <- <-.
    destruct (updateSunrise_frame _ _ _ _ E) as (F1 & _ & F3).
    split; assumption.
  - intros H. injection H as <- <-. split; reflexivity.
Qed.

Lemma loop_remote_active (inp : LoopInput) (s : State) :
  sunriseActive s = true -> loop_remote inp s = Ok tt s [].
Proof.
  intros Ha. unfold loop_remote. unfold_sketch. rewrite Ha. reflexivity.
Qed.

Lemma loop_idle_remote (inp : LoopInput) (s : State) :
  serial_line inp = None ->
  sunriseActive s = false ->
  loop inp s = loop_remote inp s.
Proof.
  intros Hl Ha.
  unfold loop, loop_serial, loop_sunrise. rewrite Hl.
  set (rem := loop_remote inp).
  unfold_sketch. rewrite Ha.
  destruct (rem s); reflexivity.
Qed.

Lemma loop_remote_up (inp : LoopInput) (s : State) :
  ir_command inp = Some 9 ->
  sunriseActive s = false ->
  valid_planet s ->
  exists out,
    loop_remote inp s =
      Ok tt (set_sunriseActive false
               (set_currentPlanet ((currentPlanet s + 1) mod 3) s)) out /\
    remote_consumed out = true.
Proof.
  intros Hc Ha Hv.
  unfold loop_remote. unfold_sketch. rewrite Ha, Hc. cbn [negb Z.eqb Pos.eqb].
  destruct s as [cp act st tr tg tb du]. cbn in Ha, Hv |- *. subst act.
  destruct (three_planets cp Hv) as [-> | [-> | ->]];
    eexists; split; reflexivity.
Qed.

Lemma loop_remote_down (inp : LoopInput) (s : State) :
  ir_command inp = Some 7 ->
  sunriseActive s = false ->
  valid_planet s ->
  exists out,
    loop_remote inp s =
      Ok tt (set_sunriseActive false
               (set_currentPlanet ((currentPlanet s - 1) mod 3) s)) out /\
    remote_consumed out = true.
Proof.
  intros Hc Ha Hv.
  unfold loop_remote. unfold_sketch. rewrite Ha, Hc. cbn [negb Z.eqb Pos.eqb].
  destruct s as [cp act st tr tg tb du]. cbn in Ha, Hv |- *. subst act.
  destruct (three_planets cp Hv) as [-> | [-> | ->]];
    eexists; split; reflexivity.
Qed.

(** *** Trimming and conversion *)

Lemma digit_not_space (c : ascii) :
  WString.isdigit c = true -> WString.isspace c = false.
Proof.
  unfold WString.isdigit, WString.isspace.
  set (n := Z.of_N (N_of_ascii c)).
  intros H. apply andb_true_iff in H. destruct H as [H1 H2].
  apply Z.leb_le in H1. apply Z.leb_le in H2.
  apply orb_false_iff. split.
  - apply Z.eqb_neq. lia.
  - apply andb_false_iff. right. apply Z.leb_gt. lia.
Qed.

Lemma digit_not_sign (c : ascii) :
  WString.isdigit c = true ->
  Ascii.eqb c "-" = false /\ Ascii.eqb c "+" = false.
Proof.
  intros H.
  split; apply Ascii.eqb_neq; intros ->; discriminate H.
Qed.

Lemma skip_space_padding (ws s : string) :
  all_space ws = true ->
  WString.skip_space (ws ++ s) = WString.skip_space s.
Proof.
  unfold all_space.
  induction ws as [| c ws IH]; cbn; [reflexivity |].
  intros H. apply andb_true_iff in H. destruct H as [Hc Hws].
  rewrite Hc. apply IH. exact Hws.
Qed.

Lemma drop_trailing_space_padding (ws : string) :
  all_space ws = true -> WString.drop_trailing_space ws = EmptyString.
Proof.
  unfold all_space.
  induction ws as [| c ws IH]; cbn; [reflexivity |].
  intros H. apply andb_true_iff in H. destruct H as [Hc Hws].
  rewrite (IH Hws), Hc. reflexivity.
Qed.

Lemma drop_trailing_space_solid (b ws : string) :
  no_space b = true -> all_space ws = true ->
  WString.drop_trailing_space (b ++ ws) = b.
Proof.
  unfold no_space. intros Hb Hws.
  induction b as [| c b IH]; cbn in Hb |- *.
  - apply drop_trailing_space_padding. exact Hws.
  - apply andb_true_iff in Hb. destruct Hb as [Hc Hb].
    apply negb_true_iff in Hc. rewrite Hc, (IH Hb). reflexivity.
Qed.

Lemma drop_trailing_space_front (a t : string) :
  WString.is_empty (WString.drop_trailing_space t) = false ->
  WString.drop_trailing_space (a ++ t) = a ++ WString.drop_trailing_space t.
Proof.
  intros Ht.
  induction a as [| c a IH]; cbn; [reflexivity |].
  rewrite IH.
  assert (E : WString.is_empty (a ++ WString.drop_trailing_space t) = false).
  { destruct a; [exact Ht | reflexivity]. }
  rewrite E, andb_false_r. reflexivity.
Qed.

Lemma decimal_aux_digits (fuel : nat) :
  forall (n : Z) (acc : string),
    0 <= n ->
    forallb WString.isdigit (list_ascii_of_string acc) = true ->
    forallb WString.isdigit (list_ascii_of_string (decimal_aux fuel n acc)) = true.
Proof.
  induction fuel as [| fuel IH]; intros n acc Hn Hacc; cbn [decimal_aux];
    [exact Hacc |].
  assert (Hmod : 0 <= n mod 10 < 10) by (apply Z.mod_pos_bound; lia).
  destruct (digit_char_spec (n mod 10) Hmod) as [D1 _].
  assert (Hacc' : forallb WString.isdigit
                    (list_ascii_of_string (String (digit_char (n mod 10)) acc)) = true).
  { cbn. rewrite D1, Hacc. reflexivity. }
  destruct (n <? 10); [exact Hacc' |].
  apply IH; [apply Z.div_pos; lia | exact Hacc'].
Qed.

Lemma decimal_aux_append (fuel : nat) :
  forall (n : Z) (acc tail : string),
    decimal_aux fuel n acc ++ tail = decimal_aux fuel n (acc ++ tail).
Proof.
  induction fuel as [| fuel IH]; intros n acc tail; cbn [decimal_aux];
    [reflexivity |].
  destruct (n <? 10); [reflexivity |].
  rewrite IH. reflexivity.
Qed.

Lemma decimal_aux_starts (fuel : nat) :
  forall (n : Z) (acc : string),
    0 <= n ->
    (fuel <> O \/ starts_with_digit acc = true) ->
    starts_with_digit (decimal_aux fuel n acc) = true.
Proof.
  induction fuel as [| fuel IH]; intros n acc Hn H; cbn [decimal_aux].
  - destruct H as [H | H]; [contradiction | exact H].
  - assert (Hmod : 0 <= n mod 10 < 10) by (apply Z.mod_pos_bound; lia).
    destruct (digit_char_spec (n mod 10) Hmod) as [D1 _].
    destruct (n <? 10); [exact D1 |].
    apply IH; [apply Z.div_pos; lia | right; exact D1].
Qed.

(** The decimal notation of [n] is a non-empty string of digits. *)
Lemma decimal_digits (n : Z) :
  0 <= n ->
  forallb WString.isdigit (list_ascii_of_string (decimal n)) = true /\
  starts_with_digit (decimal n) = true.
Proof.
  intros Hn. unfold decimal. split.
  - apply decimal_aux_digits; [exact Hn | reflexivity].
  - apply decimal_aux_starts; [exact Hn | left; discriminate].
Qed.

Lemma digits_no_space (s : string) :
  forallb WString.isdigit (list_ascii_of_string s) = true -> no_space s = true.
Proof.
  unfold no_space.
  induction s as [| c s IH]; cbn; [reflexivity |].
  intros H. apply andb_true_iff in H. destruct H as [Hc Hs].
  rewrite (digit_not_space c Hc), (IH Hs). reflexivity.
Qed.

(** [toInt] reads the decimal notation of [n] back as [n] and stops at
    the first character that is not a digit. *)
Lemma toInt_decimal (n : Z) (tail : string) :
  0 <= n < 2 ^ 31 ->
  starts_with_digit tail = false ->
  WString.toInt (decimal n ++ tail) = n.
Proof.
  intros Hn Ht.
  destruct (decimal_digits n (proj1 Hn)) as [_ Hs].
  assert (Hval : WString.atol_digits 0 (decimal n ++ tail) = n).
  { unfold decimal. rewrite decimal_aux_append.
    rewrite atol_digits_decimal_aux.
    - cbn [append]. destruct tail as [| c tail]; [reflexivity |].
      cbn in Ht |- *. rewrite Ht. reflexivity.
    - rewrite Nat2Z.inj_succ, Z2Nat.id by apply Z.log2_nonneg.
      destruct (Z.eq_dec n 0) as [-> | Hn0]; [cbn; lia |].
      split; [lia |]. apply Z.log2_spec. lia. }
  unfold WString.toInt, WString.atol.
  destruct (decimal n) as [| c rest] eqn:Ed; [discriminate Hs |].
  cbn in Hs. cbn [append WString.skip_space].
  rewrite (digit_not_space c Hs).
  destruct (digit_not_sign c Hs) as [-> ->].
  change (String c (rest ++ tail)) with (String c rest ++ tail).
  rewrite Hval. unfold WString.wrap_long.
  rewrite Z.mod_small by lia. ring.
Qed.

Lemma strchr_append (ch : ascii) (a t : string) :
  ~ In ch (list_ascii_of_string a) ->
  ~ In WString.nul (list_ascii_of_string a) ->
  WString.strchr ch (a ++ String ch t) = Z.of_nat (String.length a).
Proof.
  induction a as [| c a IH]; cbn [append WString.strchr String.length
                                  list_ascii_of_string In]; intros Ha Hn.
  - rewrite Ascii.eqb_refl. reflexivity.
  - destruct (Ascii.eqb_spec c ch) as [E | _]; [exfalso; apply Ha; left; exact E |].
    destruct (Ascii.eqb_spec c WString.nul) as [E | _];
      [exfalso; apply Hn; left; exact E |].
    rewrite IH;
      [| intros H; apply Ha; right; exact H | intros H; apply Hn; right; exact H].
    destruct (Z.of_nat (String.length a) <? 0) eqn:E; [apply Z.ltb_lt in E; lia |].
    lia.
Qed.

(** The first occurrence of [ch], when no NUL comes before it, and the C
    string that [substring] copies from behind it. *)
Lemma indexOf_append (ch : ascii) (a t : string) :
  ~ In ch (list_ascii_of_string a) ->
  ~ In WString.nul (list_ascii_of_string a) ->
  WString.indexOf ch (a ++ String ch t) = Z.of_nat (String.length a) /\
  WString.substring (Z.of_nat (String.length a) + 1) (a ++ String ch t)
    = WString.c_str t.
Proof.
  intros Ha Hn. split.
  - unfold WString.indexOf.
    destruct a as [| c a]; [cbn; rewrite Ascii.eqb_refl; reflexivity |].
    cbn [append WString.is_empty].
    apply (strchr_append ch (String c a) t Ha Hn).
  - unfold WString.substring. f_equal.
    replace (Z.to_nat (Z.of_nat (String.length a) + 1)) with (S (String.length a))
      by lia.
    clear Ha Hn.
    induction a as [| c a IH]; [reflexivity |].
    cbn [append String.length WString.drop]. exact IH.
Qed.

Lemma append_empty (s : string) : s ++ EmptyString = s.
Proof. induction s as [| c s IH]; cbn; [reflexivity | rewrite IH; reflexivity]. Qed.



(** *** [toInt] sees neither what follows a NUL nor trailing white space *)

Lemma skip_space_c_str (s : string) :
  WString.skip_space (WString.c_str s) = WString.c_str (WString.skip_space s).
Proof.
  induction s as [| c s IH]; [reflexivity |].
  cbn [WString.c_str WString.skip_space].
  destruct (Ascii.eqb_spec c WString.nul) as [-> | Hne].
  - reflexivity.
  - cbn [WString.skip_space].
    destruct (WString.isspace c); [exact IH |].
    cbn [WString.c_str].
    destruct (Ascii.eqb_spec c WString.nul) as [E | _]; [contradiction | reflexivity].
Qed.

Lemma atol_digits_c_str (s : string) :
  forall acc : Z,
    WString.atol_digits acc (WString.c_str s) = WString.atol_digits acc s.
Proof.
  induction s as [| c s IH]; intros acc; [reflexivity |].
  cbn [WString.c_str].
  destruct (Ascii.eqb_spec c WString.nul) as [-> | Hne]; [reflexivity |].
  cbn [WString.atol_digits].
  destruct (WString.isdigit c); [apply IH | reflexivity].
Qed.

Lemma toInt_c_str (s : string) :
  WString.toInt (WString.c_str s) = WString.toInt s.
Proof.
  unfold WString.toInt, WString.atol.
  rewrite skip_space_c_str.
  destruct (WString.skip_space s) as [| c t]; [reflexivity |].
  cbn [WString.c_str].
  destruct (Ascii.eqb_spec c WString.nul) as [-> | Hne]; [reflexivity |].
  destruct (Ascii.eqb c "-"); [rewrite atol_digits_c_str; reflexivity |].
  destruct (Ascii.eqb c "+"); [rewrite atol_digits_c_str; reflexivity |].
  cbn [WString.atol_digits].
  destruct (WString.isdigit c); [rewrite atol_digits_c_str |]; reflexivity.
Qed.




(** *** Lines that spell the keyword, a space and a token *)



Lemma toInt_range (token : string) :
  - 2 ^ 31 <= WString.toInt token < 2 ^ 31.
Proof.
  assert (W : forall z, - 2 ^ 31 <= WString.wrap_long z < 2 ^ 31).
  { intros z. unfold WString.wrap_long.
    pose proof (Z.mod_pos_bound (z + 2 ^ 31) (2 ^ 32) eq_refl).
    change (2 ^ 32) with (2 * 2 ^ 31) in *. lia. }
  unfold WString.toInt, WString.atol.
  destruct (WString.skip_space token) as [| c rest]; [cbn; lia |].
  destruct (Ascii.eqb c "-"); [apply W |].
  destruct (Ascii.eqb c "+"); apply W.
Qed.

(** The duration that the line [SUNRISE <token>] arms with. *)
Lemma parsed_duration_keyword (token : string) :
  0 < WString.indexOf " "%char ("SUNRISE " ++ token) /\
  parsed_duration ("SUNRISE " ++ token) = to_ulong (WString.toInt token).
Proof.
  split; [reflexivity |].
  unfold parsed_duration.
  change (WString.substring (WString.indexOf " " ("SUNRISE " ++ token) + 1)
                            ("SUNRISE " ++ token))
    with (WString.c_str token).
  rewrite toInt_c_str. reflexivity.
Qed.


Lemma loops_cons (inp : LoopInput) (rest : list LoopInput) (s : State) :
  loops (inp :: rest) s =
    match loop inp s with
    | Ok _ s1 out1 =>
        match loops rest s1 with
        | Ok c s2 out2 => Ok c s2 (out1 ++ out2)%list
        | Failed f => Failed f
        end
    | Failed f => Failed f
    end.
Proof. reflexivity. Qed.

(** One press of UP on an idle sketch, through the whole of [loop()]. *)
Lemma loop_press_up (up : LoopInput) (s : State) :
  serial_line up = None -> ir_command up = Some 9 ->
  valid_planet s -> sunriseActive s = false ->
  exists out,
    loop up s =
      Ok tt (set_sunriseActive false
               (set_currentPlanet ((currentPlanet s + 1) mod 3) s)) out /\
    remote_consumed out = true.
Proof.
  intros Hl Hc Hv Ha.
  rewrite (loop_idle_remote up s Hl Ha).
  apply loop_remote_up; assumption.
Qed.

Lemma loop_press_down (down : LoopInput) (s : State) :
  serial_line down = None -> ir_command down = Some 7 ->
  valid_planet s -> sunriseActive s = false ->
  exists out,
    loop down s =
      Ok tt (set_sunriseActive false
               (set_currentPlanet ((currentPlanet s - 1) mod 3) s)) out /\
    remote_consumed out = true.
Proof.
  intros Hl Hc Hv Ha.
  rewrite (loop_idle_remote down s Hl Ha).
  apply loop_remote_down; assumption.
Qed.

Lemma mod3_valid (z : Z) (s : State) :
  valid_planet (set_sunriseActive false (set_currentPlanet (z mod 3) s)).
Proof. unfold valid_planet. cbn. apply Z.mod_pos_bound. lia. Qed.

(** The progress division always has a non-zero divisor when it is
    reached: [updateSunrise] never ends in a division fault. *)
Lemma updateSunrise_no_division_fault (now : Z) (s : State) :
  0 <= sunriseDuration s < 2 ^ 32 ->
  updateSunrise now s <> Failed DivisionByZero.
Proof.
  intros HD.
  destruct (Z_le_gt_dec (sunriseDuration s) (to_ulong (now - sunriseStartTime s)))
    as [Hle | Hgt].
  - destruct (valid_planet_dec s) as [Hv | Hv].
    + rewrite (updateSunrise_done now s Hv Hle). discriminate.
    + rewrite (updateSunrise_done_out_of_bounds now s Hv Hle). discriminate.
  - rewrite updateSunrise_interpolates by lia.
    pose proof (to_ulong_range (now - sunriseStartTime s)) as He.
    destruct (scale_ramp 0 (to_ulong (now - sunriseStartTime s)) (sunriseDuration s))
      as (p & Ep & _); try lia.
    rewrite Ep. discriminate.
Qed.

(** The pass whose tick completes the sunrise looks at the remote in the
    same pass: an UP press decoded then moves the selection. *)
Lemma completing_pass_handles_remote (inp : LoopInput) (s : State) :
  serial_line inp = None ->
  ir_command inp = Some 9 ->
  sunriseActive s = true ->
  valid_planet s ->
  sunriseDuration s <= to_ulong (millis_update inp - sunriseStartTime s) ->
  exists s1 out,
    loop inp s = Ok tt s1 out /\
    currentPlanet s1 = (currentPlanet s + 1) mod 3 /\
    remote_consumed out = true.
Proof.
  intros Hl Hc Ha Hv He.
  unfold loop, loop_serial, loop_sunrise. rewrite Hl.
  set (rem := loop_remote inp).
  unfold_sketch. rewrite Ha.
  rewrite (updateSunrise_done _ s Hv He).
  destruct (loop_remote_up inp (set_sunriseActive false s) Hc eq_refl Hv)
    as (out & E & R).
  fold rem in E. rewrite E.
  eexists; eexists. split; [reflexivity |]. split; [reflexivity |].
  cbn [app]. unfold remote_consumed in *.
  rewrite existsb_app, R. apply orb_true_r.
Qed.

(** ** No run of the sketch ends in a fault *)

Lemma wellformed_flag (v : bool) (s : State) :
  wellformed s -> wellformed (set_sunriseActive v s).
Proof. intros H. exact H. Qed.

Lemma wellformed_select (z : Z) (s : State) :
  wellformed s ->
  wellformed (set_sunriseActive false (set_currentPlanet (z mod 3) s)).
Proof.
  intros (_ & H). split; [apply mod3_valid | exact H].
Qed.

Lemma wellformed_armed (now d : Z) (s : State) :
  wellformed s -> wellformed (armed now (to_ulong d) s).
Proof.
  intros (Hv & _).
  destruct (preset_color_range (currentPlanet s)) as (Hr & Hg & Hb).
  split; [exact Hv |]. split; [apply to_ulong_range |].
  split; [exact Hr |]. split; [exact Hg | exact Hb].
Qed.

Lemma loop_serial_safe (inp : LoopInput) (s : State) :
  wellformed s ->
  exists s1 out, loop_serial inp s = Ok tt s1 out /\ wellformed s1.
Proof.
  intros Hw. unfold loop_serial.
  destruct (serial_line inp) as [line |]; [| exists s, []; split; [reflexivity | exact Hw]].
  destruct (WString.startsWith (WString.trim line) "SUNRISE");
    [| exists s, []; split; [reflexivity | exact Hw]].
  destruct (Z_lt_le_dec 0 (WString.indexOf " "%char (WString.trim line)))
    as [Hsp | Hsp].
  - rewrite (parse_accepts _ _ s Hsp (proj1 Hw)).
    eexists; eexists. split; [reflexivity |].
    unfold parsed_duration. apply wellformed_armed. exact Hw.
  - rewrite (parse_rejects _ _ s Hsp).
    eexists; eexists. split; [reflexivity | exact Hw].
Qed.

Lemma updateSunrise_safe (now : Z) (s : State) :
  wellformed s ->
  exists s1 out, updateSunrise now s = Ok tt s1 out /\ wellformed s1.
Proof.
  intros Hw. pose proof Hw as (Hv & HD & _).
  destruct (Z_le_gt_dec (sunriseDuration s) (to_ulong (now - sunriseStartTime s)))
    as [Hle | Hgt].
  - rewrite (updateSunrise_done now s Hv Hle).
    eexists; eexists. split; [reflexivity |]. apply wellformed_flag. exact Hw.
  - rewrite updateSunrise_interpolates by lia.
    pose proof (to_ulong_range (now - sunriseStartTime s)) as He.
    destruct (scale_ramp 0 (to_ulong (now - sunriseStartTime s)) (sunriseDuration s))
      as (p & Ep & _); try lia.
    rewrite Ep. eexists; eexists. split; [reflexivity | exact Hw].
Qed.

Lemma loop_sunrise_safe (inp : LoopInput) (s : State) :
  wellformed s ->
  exists s1 out, loop_sunrise inp s = Ok tt s1 out /\ wellformed s1.
Proof.
  intros Hw. unfold loop_sunrise. unfold_sketch.
  destruct (sunriseActive s).
  - destruct (updateSunrise_safe (millis_update inp) s Hw) as (s1 & out & E & Hw1).
    rewrite E. exists s1, out. split; [reflexivity | exact Hw1].
  - exists s, []. split; [reflexivity | exact Hw].
Qed.

(** A decoded command other than 9 and 7 is echoed and dropped. *)
Lemma loop_remote_other (inp : LoopInput) (command : Z) (s : State) :
  ir_command inp = Some command ->
  command <> 9 -> command <> 7 ->
  sunriseActive s = false ->
  loop_remote inp s =
    Ok tt s [SerialPrint "Button: "; SerialPrintlnNum command; IrResume].
Proof.
  intros Hc H9 H7 Ha.
  unfold loop_remote. unfold_sketch. rewrite Ha, Hc. cbn [negb].
  apply Z.eqb_neq in H9. apply Z.eqb_neq in H7. rewrite H9, H7.
  reflexivity.
Qed.

Lemma loop_remote_safe (inp : LoopInput) (s : State) :
  wellformed s ->
  exists s1 out, loop_remote inp s = Ok tt s1 out /\ wellformed s1.
Proof.
  intros Hw.
  destruct (sunriseActive s) eqn:Ha.
  - rewrite (loop_remote_active inp s Ha).
    exists s, []. split; [reflexivity | exact Hw].
  - destruct (ir_command inp) as [command |] eqn:Hc.
    + destruct (Z.eq_dec command 9) as [-> | H9].
      * destruct (loop_remote_up inp s Hc Ha (proj1 Hw)) as (out & E & _).
        rewrite E. eexists; exists out. split; [reflexivity |].
        apply wellformed_select. exact Hw.
      * destruct (Z.eq_dec command 7) as [-> | H7].
        -- destruct (loop_remote_down inp s Hc Ha (proj1 Hw)) as (out & E & _).
           rewrite E. eexists; exists out. split; [reflexivity |].
           apply wellformed_select. exact Hw.
        -- rewrite (loop_remote_other inp command s Hc H9 H7 Ha).
           eexists; eexists. split; [reflexivity | exact Hw].
    + exists s, []. split; [| exact Hw].
      unfold loop_remote. unfold_sketch. rewrite Ha, Hc. reflexivity.
Qed.

(** One pass of [loop()] from a well-formed state ends well-formed: no
    read outside [planets], no division by zero. *)
Lemma loop_safe (inp : LoopInput) (s : State) :
  wellformed s ->
  exists s1 out, loop inp s = Ok tt s1 out /\ wellformed s1.
Proof.
  intros Hw. unfold loop, bind.
  destruct (loop_serial_safe inp s Hw) as (sa & oa & Ea & Hwa). rewrite Ea.
  destruct (loop_sunrise_safe inp sa Hwa) as (sb & ob & Eb & Hwb). rewrite Eb.
  destruct (loop_remote_safe inp sb Hwb) as (sc & oc & Ec & Hwc). rewrite Ec.
  eexists; eexists. split; [reflexivity | exact Hwc].
Qed.

Lemma loops_safe (inps : list LoopInput) :
  forall s : State,
    wellformed s ->
    exists s1 out, loops inps s = Ok tt s1 out /\ wellformed s1.
Proof.
  induction inps as [| inp rest IH]; intros s Hw.
  - exists s, []. split; [reflexivity | exact Hw].
  - rewrite loops_cons.
    destruct (loop_safe inp s Hw) as (s1 & o1 & E1 & Hw1). rewrite E1.
    destruct (IH s1 Hw1) as (s2 & o2 & E2 & Hw2). rewrite E2.
    eexists; eexists. split; [reflexivity | exact Hw2].
Qed.

(** X1: whatever the serial port, the clock and the remote deliver, the
    sketch runs without a fault (no read outside the preset table, no
    division by zero) and stays in a well-formed state. *)
Theorem sketch_safe (inps : list LoopInput) :
  exists s out, sketch inps = Ok tt s out /\ wellformed s.
Proof.
  assert (Hw : wellformed initial).
  { unfold wellformed, valid_planet. cbn. lia. }
  destruct (loops_safe inps initial Hw) as (s & out & E & Hws).
  unfold sketch, bind.
  change (setup initial) with
    (Ok tt initial
        [LcdBegin 16 2; LcdClear; LcdPrint "Ready!";
         AnalogWrite RED_PIN 0; AnalogWrite GREEN_PIN 0; AnalogWrite BLUE_PIN 0;
         SerialPrintln "System Ready"; SerialPrintln "Use UP/DOWN arrows";
         Delay 1000; LcdClear; LcdSetCursor 0 0; LcdPrint "Earth: Home";
         AnalogWrite RED_PIN 230; AnalogWrite GREEN_PIN 255;
         AnalogWrite BLUE_PIN 0]).
  cbv beta iota. rewrite E.
  eexists; eexists. split; [reflexivity | exact Hws].
Qed.

(** ** The claims *)

(** Closed arithmetic side conditions, by evaluation. *)
Ltac evaluate :=
  vm_compute; repeat split; first [reflexivity | discriminate].

(** C1, as stated, fails: the interpolated channel is not always
    [floor(target * elapsed / duration)].  On the Moon, 21 ms into a 25 ms
    sunrise the green channel is written as 125 while [150 * 21 / 25 = 126];
    and one millisecond before the end of a 67108866 ms sunrise the full
    target is already written, because both times convert to the same
    [float]. *)
Lemma ramp_is_not_the_exact_floor :
  updateSunrise 21 moon_25 =
    Ok tt moon_25 [AnalogWrite RED_PIN 84; AnalogWrite GREEN_PIN 125;
                   AnalogWrite BLUE_PIN 214] /\
  (targetR moon_25 * 21 / 25, targetG moon_25 * 21 / 25,
   targetB moon_25 * 21 / 25) = (84, 126, 214) /\
  updateSunrise 67108865 moon_long =
    Ok tt moon_long [AnalogWrite RED_PIN 100; AnalogWrite GREEN_PIN 150;
                     AnalogWrite BLUE_PIN 255] /\
  (targetR moon_long * 67108865 / 67108866,
   targetG moon_long * 67108865 / 67108866,
   targetB moon_long * 67108865 / 67108866) = (99, 149, 254).
Proof. repeat split; vm_compute; reflexivity. Qed.

(** C1, amended: for a target in [0, 32767] per channel and a duration
    [D] with [0 <= e < D < 2^32], a tick at elapsed time [e] leaves the
    globals unchanged and writes exactly one triple, each channel being
    [(int)(target * p)] for the one binary32 progress value
    [p = (float)e / (float)D]; each written channel is the integer part of
    [target * e / D] up to a relative error of [9 * 2^-24], so it is at most
    one away from [floor(target * e / D)] and lies between 0 and the
    target. *)
Theorem updateSunrise_ramp (now : Z) (s : State) :
  0 <= targetR s < 2 ^ 15 ->
  0 <= targetG s < 2 ^ 15 ->
  0 <= targetB s < 2 ^ 15 ->
  to_ulong (now - sunriseStartTime s) < sunriseDuration s < 2 ^ 32 ->
  exists p,
    F32.div (F32.of_Z (to_ulong (now - sunriseStartTime s)))
            (F32.of_Z (sunriseDuration s)) = Some p /\
    updateSunrise now s =
      Ok tt s [ AnalogWrite RED_PIN (scale (targetR s) p);
                AnalogWrite GREEN_PIN (scale (targetG s) p);
                AnalogWrite BLUE_PIN (scale (targetB s) p) ] /\
    ramp_value (targetR s) (to_ulong (now - sunriseStartTime s))
               (sunriseDuration s) (scale (targetR s) p) /\
    ramp_value (targetG s) (to_ulong (now - sunriseStartTime s))
               (sunriseDuration s) (scale (targetG s) p) /\
    ramp_value (targetB s) (to_ulong (now - sunriseStartTime s))
               (sunriseDuration s) (scale (targetB s) p).
Proof.
  intros HR HG HB HD.
  set (e := to_ulong (now - sunriseStartTime s)) in *.
  pose proof (to_ulong_range (now - sunriseStartTime s)) as He. fold e in He.
  destruct (scale_ramp (targetR s) e (sunriseDuration s)) as (p & Ep & Rr); try lia.
  destruct (scale_ramp (targetG s) e (sunriseDuration s)) as (pg & Epg & Rg); try lia.
  destruct (scale_ramp (targetB s) e (sunriseDuration s)) as (pb & Epb & Rb); try lia.
  assert (pg = p) by congruence. assert (pb = p) by congruence. subst pg pb.
  exists p. split; [exact Ep |]. split.
  - rewrite updateSunrise_interpolates by (fold e; lia).
    fold e. rewrite Ep. reflexivity.
  - split; [exact Rr |]. split; [exact Rg | exact Rb].
Qed.

Lemma updateSunrise_ramp_witness :
  0 <= targetR moon_25 < 2 ^ 15 /\
  0 <= targetG moon_25 < 2 ^ 15 /\
  0 <= targetB moon_25 < 2 ^ 15 /\
  to_ulong (21 - sunriseStartTime moon_25) < sunriseDuration moon_25 < 2 ^ 32 /\
  exists p,
    F32.div (F32.of_Z (to_ulong (21 - sunriseStartTime moon_25)))
            (F32.of_Z (sunriseDuration moon_25)) = Some p /\
    updateSunrise 21 moon_25 =
      Ok tt moon_25 [ AnalogWrite RED_PIN (scale (targetR moon_25) p);
                      AnalogWrite GREEN_PIN (scale (targetG moon_25) p);
                      AnalogWrite BLUE_PIN (scale (targetB moon_25) p) ] /\
    ramp_value (targetR moon_25) (to_ulong (21 - sunriseStartTime moon_25))
               (sunriseDuration moon_25) (scale (targetR moon_25) p) /\
    ramp_value (targetG moon_25) (to_ulong (21 - sunriseStartTime moon_25))
               (sunriseDuration moon_25) (scale (targetG moon_25) p) /\
    ramp_value (targetB moon_25) (to_ulong (21 - sunriseStartTime moon_25))
               (sunriseDuration moon_25) (scale (targetB moon_25) p).
Proof.
  assert (h1 : 0 <= targetR moon_25 < 2 ^ 15) by evaluate.
  assert (h2 : 0 <= targetG moon_25 < 2 ^ 15) by evaluate.
  assert (h3 : 0 <= targetB moon_25 < 2 ^ 15) by evaluate.
  assert (h4 : to_ulong (21 - sunriseStartTime moon_25)
               < sunriseDuration moon_25 < 2 ^ 32)
    by evaluate.
  split; [exact h1 |]. split; [exact h2 |]. split; [exact h3 |].
  split; [exact h4 |].
  exact (updateSunrise_ramp 21 moon_25 h1 h2 h3 h4).
Defined.

(** C2: a tick at an elapsed time at or beyond the duration writes
    exactly the target colour and clears [sunriseActive], whatever the
    elapsed time is; nothing else in the globals changes. *)
Theorem updateSunrise_saturates (now : Z) (s : State) :
  valid_planet s ->
  sunriseDuration s <= to_ulong (now - sunriseStartTime s) ->
  updateSunrise now s = Ok tt (set_sunriseActive false s) (completion_trace s) /\
  color_writes (completion_trace s) = [(targetR s, targetG s, targetB s)] /\
  sunriseActive (set_sunriseActive false s) = false.
Proof.
  intros Hv He.
  split; [apply updateSunrise_done; assumption |].
  split; reflexivity.
Qed.

Lemma updateSunrise_saturates_witness :
  valid_planet earth_1000 /\
  sunriseDuration earth_1000 <= to_ulong (4000000 - sunriseStartTime earth_1000) /\
  updateSunrise 4000000 earth_1000 =
    Ok tt (set_sunriseActive false earth_1000) (completion_trace earth_1000) /\
  color_writes (completion_trace earth_1000) =
    [(targetR earth_1000, targetG earth_1000, targetB earth_1000)] /\
  sunriseActive (set_sunriseActive false earth_1000) = false.
Proof.
  assert (h1 : valid_planet earth_1000) by evaluate.
  assert (h2 : sunriseDuration earth_1000
               <= to_ulong (4000000 - sunriseStartTime earth_1000))
    by evaluate.
  split; [exact h1 |]. split; [exact h2 |].
  exact (updateSunrise_saturates 4000000 earth_1000 h1 h2).
Defined.

(** C3, as stated, fails: [showPlanet] does write to the LED.  Half way
    through a 1000 ms sunrise on the Earth the tick writes (115, 127, 0);
    [showPlanet(0)] then writes (230, 255, 0), which is the target colour,
    and [showPlanet(1)] writes the Moon's (100, 150, 255): in both cases
    the interpolated colour is no longer the last one written. *)
Lemma showPlanet_overwrites_the_ramp :
  sunriseActive earth_1000 = true /\
  (targetR earth_1000, targetG earth_1000, targetB earth_1000) = (230, 255, 0) /\
  color_writes (trace_of (updateSunrise 500 earth_1000)) = [(115, 127, 0)] /\
  state_of (showPlanet 0 earth_1000) = Some (set_sunriseActive false earth_1000) /\
  color_writes (trace_of (showPlanet 0 earth_1000)) = [(230, 255, 0)] /\
  color_writes (trace_of (showPlanet 1 earth_1000)) = [(100, 150, 255)].
Proof. repeat split; vm_compute; reflexivity. Qed.

(** C3, amended: [showPlanet] on a table index clears [sunriseActive],
    leaves every other global as it is, prints no completion message and
    writes exactly one colour, the selected preset's own; the target
    colour therefore reaches the LED only when the selected preset has
    that colour. *)
Theorem showPlanet_cancels (planet : Z) (s : State) :
  0 <= planet < 3 ->
  exists out,
    showPlanet planet s = Ok tt (set_sunriseActive false s) out /\
    color_writes out = [color_of (preset planet)] /\
    ~ In (SerialPrintln msg_complete) out /\
    (color_of (preset planet) <> target_of s ->
     ~ In (target_of s) (color_writes out)).
Proof.
  intros Hp.
  destruct (showPlanet_valid planet s Hp) as (out & E1 & E2 & E3).
  exists out. repeat split; try assumption.
  rewrite E2. intros Hne [H | []]. exact (Hne H).
Qed.

Lemma showPlanet_cancels_witness :
  0 <= 1 < 3 /\
  exists out,
    showPlanet 1 earth_1000 = Ok tt (set_sunriseActive false earth_1000) out /\
    color_writes out = [color_of (preset 1)] /\
    ~ In (SerialPrintln msg_complete) out /\
    (color_of (preset 1) <> target_of earth_1000 ->
     ~ In (target_of earth_1000) (color_writes out)).
Proof.
  assert (h1 : 0 <= 1 < 3) by evaluate.
  split; [exact h1 |].
  exact (showPlanet_cancels 1 earth_1000 h1).
Defined.

(** C4: a command that arms with duration 0 is completed by the tick
    that follows it, whatever the state was before the command, also when a
    sunrise with another duration was running: the tick takes the completion
    branch for every clock value, so the progress division, which would be
    a division by zero, is not reached.  The same holds for every state
    whose duration is 0. *)
Theorem zero_duration_completes (now arm_time : Z) (token : string) (s : State) :
  valid_planet s ->
  WString.toInt token = 0 ->
  (parseAndStartSunrise arm_time ("SUNRISE " ++ token) ;; updateSunrise now) s =
    Ok tt (set_sunriseActive false (armed arm_time 0 s))
          (arm_trace 0 s ++ completion_trace (armed arm_time 0 s)) /\
  sunriseActive (set_sunriseActive false (armed arm_time 0 s)) = false /\
  forall s0 : State,
    valid_planet s0 ->
    sunriseDuration s0 = 0 ->
    updateSunrise now s0 =
      Ok tt (set_sunriseActive false s0) (completion_trace s0).
Proof.
  intros Hv Ht. split; [| split; [reflexivity |]].
  - destruct (parsed_duration_keyword token) as [Hsp Hd].
    rewrite Ht in Hd. change (to_ulong 0) with 0 in Hd.
    unfold bind.
    rewrite (parse_accepts arm_time _ s Hsp Hv), Hd.
    rewrite updateSunrise_done.
    + reflexivity.
    + exact Hv.
    + cbn [armed sunriseDuration]. apply to_ulong_range.
  - intros s0 Hv0 HD.
    apply updateSunrise_done; [exact Hv0 |].
    rewrite HD. apply to_ulong_range.
Qed.

Lemma zero_duration_completes_witness :
  valid_planet earth_1000 /\
  WString.toInt "0" = 0 /\
  sunriseDuration earth_1000 = 1000 /\
  (parseAndStartSunrise 5 ("SUNRISE " ++ "0") ;; updateSunrise 7) earth_1000 =
    Ok tt (set_sunriseActive false (armed 5 0 earth_1000))
          (arm_trace 0 earth_1000 ++ completion_trace (armed 5 0 earth_1000)) /\
  sunriseActive (set_sunriseActive false (armed 5 0 earth_1000)) = false /\
  updateSunrise 7 zero_armed =
    Ok tt (set_sunriseActive false zero_armed) (completion_trace zero_armed).
Proof.
  assert (h1 : valid_planet earth_1000) by evaluate.
  assert (h2 : valid_planet zero_armed) by evaluate.
  destruct (zero_duration_completes 7 5 "0" earth_1000 h1 eq_refl)
    as (Harm & Hflag & Htick).
  split; [exact h1 |]. split; [reflexivity |]. split; [reflexivity |].
  split; [exact Harm |]. split; [exact Hflag |].
  exact (Htick zero_armed h2 eq_refl).
Defined.

(** C5: a command with no space in it is rejected with the
    invalid-format diagnostic, and no global changes. *)
Theorem parse_without_separator (now : Z) (command : string) (s : State) :
  ~ In " "%char (list_ascii_of_string command) ->
  parseAndStartSunrise now command s = Ok tt s [SerialPrintln msg_invalid].
Proof.
  intros Hsp. apply parse_rejects.
  rewrite (indexOf_absent " "%char command); [lia | discriminate | exact Hsp].
Qed.

Lemma parse_without_separator_witness :
  ~ In " "%char (list_ascii_of_string "SUNRISE") /\
  parseAndStartSunrise 5 "SUNRISE" earth_1000 =
    Ok tt earth_1000 [SerialPrintln msg_invalid].
Proof.
  assert (h1 : ~ In " "%char (list_ascii_of_string "SUNRISE")).
  { cbn. intros H. repeat (destruct H as [H | H]; [discriminate H |]). exact H. }
  split; [exact h1 |].
  exact (parse_without_separator 5 "SUNRISE" earth_1000 h1).
Defined.

(** C6: on an idle sketch, one pass with UP decoded moves the selection
    from [i] to [(i + 1) mod 3] and one with DOWN to [(i - 1) mod 3]; three
    UP passes bring it back to [i]. *)
Theorem selection_wraps (up down : LoopInput) (s : State) :
  serial_line up = None -> ir_command up = Some 9 ->
  serial_line down = None -> ir_command down = Some 7 ->
  valid_planet s -> sunriseActive s = false ->
  (exists s1 out, loop up s = Ok tt s1 out /\
     currentPlanet s1 = (currentPlanet s + 1) mod 3) /\
  (exists s1 out, loop down s = Ok tt s1 out /\
     currentPlanet s1 = (currentPlanet s - 1) mod 3) /\
  (exists s3 out, loops [up; up; up] s = Ok tt s3 out /\
     currentPlanet s3 = currentPlanet s).
Proof.
  intros Hul Huc Hdl Hdc Hv Ha.
  split; [| split].
  - destruct (loop_press_up up s Hul Huc Hv Ha) as (out & E & _).
    eexists; exists out. split; [exact E | reflexivity].
  - destruct (loop_press_down down s Hdl Hdc Hv Ha) as (out & E & _).
    eexists; exists out. split; [exact E | reflexivity].
  - destruct (loop_press_up up s Hul Huc Hv Ha) as (o1 & E1 & _).
    set (s1 := set_sunriseActive false
                 (set_currentPlanet ((currentPlanet s + 1) mod 3) s)) in *.
    destruct (loop_press_up up s1 Hul Huc (mod3_valid _ s) eq_refl) as (o2 & E2 & _).
    set (s2 := set_sunriseActive false
                 (set_currentPlanet ((currentPlanet s1 + 1) mod 3) s1)) in *.
    destruct (loop_press_up up s2 Hul Huc (mod3_valid _ s1) eq_refl) as (o3 & E3 & _).
    rewrite loops_cons, E1. cbv beta iota.
    rewrite loops_cons, E2. cbv beta iota.
    rewrite loops_cons, E3. cbv beta iota.
    eexists; eexists. split; [reflexivity |].
    cbn [currentPlanet set_sunriseActive set_currentPlanet s2 s1].
    unfold valid_planet in Hv.
    destruct (three_planets _ Hv) as [E | [E | E]]; rewrite E; reflexivity.
Qed.

Lemma selection_wraps_witness :
  serial_line press_up = None /\ ir_command press_up = Some 9 /\
  serial_line press_down = None /\ ir_command press_down = Some 7 /\
  valid_planet moon_idle /\ sunriseActive moon_idle = false /\
  (exists s1 out, loop press_up moon_idle = Ok tt s1 out /\
     currentPlanet s1 = (currentPlanet moon_idle + 1) mod 3) /\
  (exists s1 out, loop press_down moon_idle = Ok tt s1 out /\
     currentPlanet s1 = (currentPlanet moon_idle - 1) mod 3) /\
  (exists s3 out, loops [press_up; press_up; press_up] moon_idle = Ok tt s3 out /\
     currentPlanet s3 = currentPlanet moon_idle).
Proof.
  assert (h5 : valid_planet moon_idle) by evaluate.
  split; [reflexivity |]. split; [reflexivity |].
  split; [reflexivity |]. split; [reflexivity |].
  split; [exact h5 |]. split; [reflexivity |].
  exact (selection_wraps press_up press_down moon_idle
           eq_refl eq_refl eq_refl eq_refl h5 eq_refl).
Defined.

(** C7, as stated, fails: a pass that starts with the sunrise active can
    still handle the remote.  When the tick of that pass completes the
    sunrise, the remote block finds [sunriseActive] already false: here the
    1000 ms sunrise is ticked at clock 1000 and the UP press of the same
    pass moves the selection from 0 to 1. *)
Lemma remote_handled_after_completing_tick :
  sunriseActive earth_1000 = true /\
  currentPlanet earth_1000 = 0 /\
  option_map currentPlanet (state_of (loop tick_then_up earth_1000)) = Some 1 /\
  remote_consumed (trace_of (loop tick_then_up earth_1000)) = true.
Proof. repeat split; vm_compute; reflexivity. Qed.

(** C7, amended: when [sunriseActive] is still true after the serial and
    tick blocks of a pass, the pass ends there: [IrReceiver.resume()] is
    not called, nothing more is sent out, and the selection index is the
    one the pass started with. *)
Theorem remote_ignored_while_active
    (inp : LoopInput) (s s1 : State) (out1 : list Event) :
  loop_before_remote inp s = Ok tt s1 out1 ->
  sunriseActive s1 = true ->
  loop inp s = Ok tt s1 out1 /\
  remote_consumed out1 = false /\
  currentPlanet s1 = currentPlanet s.
Proof.
  unfold loop_before_remote, loop, bind.
  intros H Ha.
  destruct (loop_serial inp s) as [[] sa oa | f] eqn:Es; [| discriminate H].
  destruct (loop_sunrise inp sa) as [[] sb ob | f] eqn:Et; [| discriminate H].
  injection H as <- <-.
  rewrite (loop_remote_active inp sb Ha), app_nil_r.
  destruct (loop_serial_frame _ _ _ _ Es) as [S1 S2].
  destruct (loop_sunrise_frame _ _ _ _ Et) as [T1 T2].
  repeat split.
  - unfold remote_consumed in *. rewrite existsb_app, S1, T1. reflexivity.
  - congruence.
Qed.

Lemma remote_ignored_while_active_witness :
  loop_before_remote tick_then_up_early earth_1000 =
    Ok tt earth_1000 [AnalogWrite RED_PIN 115; AnalogWrite GREEN_PIN 127;
                      AnalogWrite BLUE_PIN 0] /\
  sunriseActive earth_1000 = true /\
  loop tick_then_up_early earth_1000 =
    Ok tt earth_1000 [AnalogWrite RED_PIN 115; AnalogWrite GREEN_PIN 127;
                      AnalogWrite BLUE_PIN 0] /\
  remote_consumed [AnalogWrite RED_PIN 115; AnalogWrite GREEN_PIN 127;
                   AnalogWrite BLUE_PIN 0] = false /\
  currentPlanet earth_1000 = currentPlanet earth_1000.
Proof.
  assert (h1 : loop_before_remote tick_then_up_early earth_1000 =
               Ok tt earth_1000 [AnalogWrite RED_PIN 115; AnalogWrite GREEN_PIN 127;
                                 AnalogWrite BLUE_PIN 0])
    by (vm_compute; reflexivity).
  split; [exact h1 |]. split; [reflexivity |].
  exact (remote_ignored_while_active tick_then_up_early earth_1000 earth_1000 _
           h1 eq_refl).
Defined.




(** C9: a duration token that converts to a negative [long] [k] is
    stored into the [unsigned long] duration as [k mod 2^32 = k + 2^32]: the
    command is accepted and the sunrise is armed with a duration of at least
    [2^31] ms. *)
Theorem negative_duration_wraps (now k : Z) (token : string) (s : State) :
  valid_planet s ->
  WString.toInt token = k ->
  k < 0 ->
  parseAndStartSunrise now ("SUNRISE " ++ token) s =
    Ok tt (armed now (k + 2 ^ 32) s) (arm_trace (k + 2 ^ 32) s) /\
  sunriseActive (armed now (k + 2 ^ 32) s) = true /\
  k mod 2 ^ 32 = k + 2 ^ 32 /\
  2 ^ 31 <= sunriseDuration (armed now (k + 2 ^ 32) s) < 2 ^ 32 /\
  invalid_reported (arm_trace (k + 2 ^ 32) s) = false.
Proof.
  intros Hv Ht Hk.
  pose proof (toInt_range token) as Hr. rewrite Ht in Hr.
  destruct (parsed_duration_keyword token) as [Hsp Hd].
  assert (Hmod : k mod 2 ^ 32 = k + 2 ^ 32).
  { symmetry. apply Z.mod_unique with (-1); lia. }
  rewrite Ht in Hd. unfold to_ulong in Hd. rewrite Hmod in Hd.
  split.
  - rewrite (parse_accepts now _ s Hsp Hv), Hd. reflexivity.
  - split; [reflexivity |]. split; [exact Hmod |]. split.
    + cbn [armed sunriseDuration]. lia.
    + apply (arm_trace_quiet _ s Hv).
Qed.

Lemma negative_duration_wraps_witness :
  valid_planet initial /\
  WString.toInt "-1" = -1 /\
  -1 < 0 /\
  parseAndStartSunrise 5 ("SUNRISE " ++ "-1") initial =
    Ok tt (armed 5 (-1 + 2 ^ 32) initial) (arm_trace (-1 + 2 ^ 32) initial) /\
  sunriseActive (armed 5 (-1 + 2 ^ 32) initial) = true /\
  -1 mod 2 ^ 32 = -1 + 2 ^ 32 /\
  2 ^ 31 <= sunriseDuration (armed 5 (-1 + 2 ^ 32) initial) < 2 ^ 32 /\
  invalid_reported (arm_trace (-1 + 2 ^ 32) initial) = false.
Proof.
  assert (h1 : valid_planet initial) by evaluate.
  assert (h3 : -1 < 0) by evaluate.
  split; [exact h1 |]. split; [reflexivity |]. split; [exact h3 |].
  exact (negative_duration_wraps 5 (-1) "-1" initial h1 eq_refl h3).
Defined.




(** ** Further properties of the sketch *)

(** *** The LED and the selection *)

Lemma led_after_app (led : Z * Z * Z) (out1 out2 : list Event) :
  led_after led (out1 ++ out2) = led_after (led_after led out1) out2.
Proof. apply fold_left_app. Qed.

Lemma led_after_completion (led : Z * Z * Z) (s : State) :
  led_after led (completion_trace s) = target_of s.
Proof. destruct led as [[x y] z]. reflexivity. Qed.

Lemma led_after_arm (led : Z * Z * Z) (d : Z) (s : State) :
  led_after led (arm_trace d s) = (0, 0, 0).
Proof. destruct led as [[x y] z]. reflexivity. Qed.

Lemma loop_remote_up_led (inp : LoopInput) (s : State) (led : Z * Z * Z) :
  ir_command inp = Some 9 ->
  sunriseActive s = false ->
  valid_planet s ->
  exists out,
    loop_remote inp s =
      Ok tt (set_sunriseActive false
               (set_currentPlanet ((currentPlanet s + 1) mod 3) s)) out /\
    led_after led out = color_of (preset ((currentPlanet s + 1) mod 3)).
Proof.
  intros Hc Ha Hv.
  unfold loop_remote. unfold_sketch. rewrite Ha, Hc. cbn [negb Z.eqb Pos.eqb].
  destruct s as [cp act st tr tg tb du]. cbn in Ha, Hv |- *. subst act.
  destruct led as [[x y] z].
  destruct (three_planets cp Hv) as [-> | [-> | ->]];
    eexists; split; reflexivity.
Qed.

Lemma loop_remote_down_led (inp : LoopInput) (s : State) (led : Z * Z * Z) :
  ir_command inp = Some 7 ->
  sunriseActive s = false ->
  valid_planet s ->
  exists out,
    loop_remote inp s =
      Ok tt (set_sunriseActive false
               (set_currentPlanet ((currentPlanet s - 1) mod 3) s)) out /\
    led_after led out = color_of (preset ((currentPlanet s - 1) mod 3)).
Proof.
  intros Hc Ha Hv.
  unfold loop_remote. unfold_sketch. rewrite Ha, Hc. cbn [negb Z.eqb Pos.eqb].
  destruct s as [cp act st tr tg tb du]. cbn in Ha, Hv |- *. subst act.
  destruct led as [[x y] z].
  destruct (three_planets cp Hv) as [-> | [-> | ->]];
    eexists; split; reflexivity.
Qed.

Lemma loop_serial_consistent (inp : LoopInput) (s : State) (led : Z * Z * Z) :
  consistent s led ->
  exists s1 out,
    loop_serial inp s = Ok tt s1 out /\ consistent s1 (led_after led out).
Proof.
  intros Hc. pose proof Hc as (Hw & Ht & Hl).
  assert (Same : forall out, led_after led out = led ->
                 exists s1 out1, Ok tt s out = Ok tt s1 out1 /\
                                 consistent s1 (led_after led out1)).
  { intros out E. exists s, out. split; [reflexivity |]. rewrite E. exact Hc. }
  unfold loop_serial.
  destruct (serial_line inp) as [line |]; [| apply Same; reflexivity].
  destruct (WString.startsWith (WString.trim line) "SUNRISE");
    [| apply Same; reflexivity].
  destruct (Z_lt_le_dec 0 (WString.indexOf " "%char (WString.trim line)))
    as [Hsp | Hsp].
  - rewrite (parse_accepts _ _ s Hsp (proj1 Hw)).
    eexists; eexists. split; [reflexivity |].
    split; [unfold parsed_duration; apply wellformed_armed; exact Hw |].
    split; [reflexivity | discriminate].
  - rewrite (parse_rejects _ _ s Hsp). apply Same.
    destruct led as [[x y] z]. reflexivity.
Qed.

Lemma loop_sunrise_consistent (inp : LoopInput) (s : State) (led : Z * Z * Z) :
  consistent s led ->
  exists s1 out,
    loop_sunrise inp s = Ok tt s1 out /\ consistent s1 (led_after led out).
Proof.
  intros Hc. pose proof Hc as (Hw & Ht & Hl).
  pose proof Hw as (Hv & HD & _).
  unfold loop_sunrise. unfold_sketch.
  destruct (sunriseActive s) eqn:Ha.
  - destruct (Z_le_gt_dec (sunriseDuration s)
                (to_ulong (millis_update inp - sunriseStartTime s))) as [Hle | Hgt].
    + rewrite (updateSunrise_done _ s Hv Hle).
      eexists; eexists. split; [reflexivity |].
      split; [apply wellformed_flag; exact Hw |].
      split; [discriminate |]. intros _.
      cbn [app]. rewrite led_after_completion. apply Ht. reflexivity.
    + rewrite updateSunrise_interpolates by lia.
      pose proof (to_ulong_range (millis_update inp - sunriseStartTime s)) as He.
      destruct (scale_ramp 0 (to_ulong (millis_update inp - sunriseStartTime s))
                  (sunriseDuration s)) as (p & Ep & _); try lia.
      rewrite Ep. eexists; eexists. split; [reflexivity |].
      split; [exact Hw |]. split; [intros _; apply Ht; reflexivity |].
      intros Hf. rewrite Ha in Hf. discriminate Hf.
  - exists s, []. split; [reflexivity |]. exact Hc.
Qed.

Lemma consistent_select (z : Z) (s : State) (led : Z * Z * Z) :
  wellformed s ->
  led = color_of (preset (z mod 3)) ->
  consistent (set_sunriseActive false (set_currentPlanet (z mod 3) s)) led.
Proof.
  intros Hw E. split; [apply wellformed_select; exact Hw |].
  split; [discriminate | intros _; exact E].
Qed.

Lemma loop_remote_consistent (inp : LoopInput) (s : State) (led : Z * Z * Z) :
  consistent s led ->
  exists s1 out,
    loop_remote inp s = Ok tt s1 out /\ consistent s1 (led_after led out).
Proof.
  intros Hc. pose proof Hc as (Hw & Ht & Hl).
  destruct (sunriseActive s) eqn:Ha.
  - rewrite (loop_remote_active inp s Ha).
    exists s, []. split; [reflexivity | exact Hc].
  - destruct (ir_command inp) as [command |] eqn:Hi.
    + destruct (Z.eq_dec command 9) as [-> | H9].
      * destruct (loop_remote_up_led inp s led Hi Ha (proj1 Hw)) as (out & E & L).
        rewrite E. eexists; exists out. split; [reflexivity |].
        apply consistent_select; assumption.
      * destruct (Z.eq_dec command 7) as [-> | H7].
        -- destruct (loop_remote_down_led inp s led Hi Ha (proj1 Hw)) as (out & E & L).
           rewrite E. eexists; exists out. split; [reflexivity |].
           apply consistent_select; assumption.
        -- rewrite (loop_remote_other inp command s Hi H9 H7 Ha).
           eexists; eexists. split; [reflexivity |].
           destruct led as [[x y] z]. exact Hc.
    + exists s, []. split; [| exact Hc].
      unfold loop_remote. unfold_sketch. rewrite Ha, Hi. reflexivity.
Qed.

Lemma loop_consistent (inp : LoopInput) (s : State) (led : Z * Z * Z) :
  consistent s led ->
  exists s1 out, loop inp s = Ok tt s1 out /\ consistent s1 (led_after led out).
Proof.
  intros Hc. unfold loop, bind.
  destruct (loop_serial_consistent inp s led Hc) as (sa & oa & Ea & Ca). rewrite Ea.
  destruct (loop_sunrise_consistent inp sa _ Ca) as (sb & ob & Eb & Cb). rewrite Eb.
  destruct (loop_remote_consistent inp sb _ Cb) as (sc & oc & Ec & Cc). rewrite Ec.
  eexists; eexists. split; [reflexivity |].
  rewrite !led_after_app. exact Cc.
Qed.

Lemma loops_consistent (inps : list LoopInput) :
  forall (s : State) (led : Z * Z * Z),
    consistent s led ->
    exists s1 out, loops inps s = Ok tt s1 out /\ consistent s1 (led_after led out).
Proof.
  induction inps as [| inp rest IH]; intros s led Hc.
  - exists s, []. split; [reflexivity | exact Hc].
  - rewrite loops_cons.
    destruct (loop_consistent inp s led Hc) as (s1 & o1 & E1 & C1). rewrite E1.
    destruct (IH s1 _ C1) as (s2 & o2 & E2 & C2). rewrite E2.
    eexists; eexists. split; [reflexivity |].
    rewrite led_after_app. exact C2.
Qed.

(** X2: in every run of the sketch, whatever colour the LED had at power
    on: while a sunrise is running its target is the colour of the selected
    preset, and whenever no sunrise is running the LED shows the colour of
    the selected preset (after [setup()], after a selection, and after a
    sunrise has completed). *)
Theorem led_follows_selection (inps : list LoopInput) (led0 : Z * Z * Z) :
  exists s out,
    sketch inps = Ok tt s out /\
    (sunriseActive s = true ->
     (targetR s, targetG s, targetB s) = color_of (preset (currentPlanet s))) /\
    (sunriseActive s = false ->
     led_after led0 out = color_of (preset (currentPlanet s))).
Proof.
  unfold sketch, bind.
  change (setup initial) with
    (Ok tt initial
        [LcdBegin 16 2; LcdClear; LcdPrint "Ready!";
         AnalogWrite RED_PIN 0; AnalogWrite GREEN_PIN 0; AnalogWrite BLUE_PIN 0;
         SerialPrintln "System Ready"; SerialPrintln "Use UP/DOWN arrows";
         Delay 1000; LcdClear; LcdSetCursor 0 0; LcdPrint "Earth: Home";
         AnalogWrite RED_PIN 230; AnalogWrite GREEN_PIN 255;
         AnalogWrite BLUE_PIN 0]).
  cbv beta iota.
  set (boot := [LcdBegin 16 2; _; _; _; _; _; _; _; _; _; _; _; _; _; _]).
  assert (Hc : consistent initial (led_after led0 boot)).
  { destruct led0 as [[x y] z].
    split; [unfold wellformed, valid_planet; cbn; lia |].
    split; [discriminate | reflexivity]. }
  destruct (loops_consistent inps initial _ Hc) as (s & out & E & (_ & Ct & Cl)).
  rewrite E. exists s, (boot ++ out)%list.
  split; [reflexivity |]. split; [exact Ct |].
  rewrite led_after_app. exact Cl.
Qed.

(** *** The remote *)

Lemma select_back (i : Z) :
  0 <= i < 3 ->
  ((i + 1) mod 3 - 1) mod 3 = i /\ ((i - 1) mod 3 + 1) mod 3 = i.
Proof.
  intros Hi.
  destruct (three_planets i Hi) as [-> | [-> | ->]]; split; reflexivity.
Qed.

Lemma reselect_idle (z : Z) (s : State) :
  sunriseActive s = false ->
  set_sunriseActive false
    (set_currentPlanet (currentPlanet s)
       (set_sunriseActive false (set_currentPlanet z s))) = s.
Proof.
  destruct s as [cp act st tr tg tb du]. cbn. intros ->. reflexivity.
Qed.

(** X3: on an idle sketch DOWN undoes UP and UP undoes DOWN: after the
    two passes every global is what it was. *)
Theorem up_and_down_cancel (up down : LoopInput) (s : State) :
  serial_line up = None -> ir_command up = Some 9 ->
  serial_line down = None -> ir_command down = Some 7 ->
  valid_planet s -> sunriseActive s = false ->
  (exists out, loops [up; down] s = Ok tt s out) /\
  (exists out, loops [down; up] s = Ok tt s out).
Proof.
  intros Hul Huc Hdl Hdc Hv Ha.
  destruct (select_back (currentPlanet s) Hv) as [B1 B2].
  split.
  - destruct (loop_press_up up s Hul Huc Hv Ha) as (o1 & E1 & _).
    set (s1 := set_sunriseActive false
                 (set_currentPlanet ((currentPlanet s + 1) mod 3) s)) in *.
    destruct (loop_press_down down s1 Hdl Hdc (mod3_valid _ s) eq_refl)
      as (o2 & E2 & _).
    rewrite loops_cons, E1. cbv beta iota.
    rewrite loops_cons, E2. cbv beta iota.
    cbn [loops ret]. eexists. f_equal.
    unfold s1 at 1. cbn [currentPlanet set_sunriseActive set_currentPlanet].
    rewrite B1. apply reselect_idle. exact Ha.
  - destruct (loop_press_down down s Hdl Hdc Hv Ha) as (o1 & E1 & _).
    set (s1 := set_sunriseActive false
                 (set_currentPlanet ((currentPlanet s - 1) mod 3) s)) in *.
    destruct (loop_press_up up s1 Hul Huc (mod3_valid _ s) eq_refl)
      as (o2 & E2 & _).
    rewrite loops_cons, E1. cbv beta iota.
    rewrite loops_cons, E2. cbv beta iota.
    cbn [loops ret]. eexists. f_equal.
    unfold s1 at 1. cbn [currentPlanet set_sunriseActive set_currentPlanet].
    rewrite B2. apply reselect_idle. exact Ha.
Qed.

Lemma up_and_down_cancel_witness :
  serial_line press_up = None /\ ir_command press_up = Some 9 /\
  serial_line press_down = None /\ ir_command press_down = Some 7 /\
  valid_planet moon_idle /\ sunriseActive moon_idle = false /\
  (exists out, loops [press_up; press_down] moon_idle = Ok tt moon_idle out) /\
  (exists out, loops [press_down; press_up] moon_idle = Ok tt moon_idle out).
Proof.
  assert (h5 : valid_planet moon_idle) by evaluate.
  split; [reflexivity |]. split; [reflexivity |].
  split; [reflexivity |]. split; [reflexivity |].
  split; [exact h5 |]. split; [reflexivity |].
  exact (up_and_down_cancel press_up press_down moon_idle
           eq_refl eq_refl eq_refl eq_refl h5 eq_refl).
Defined.

(** X4: on an idle sketch a decoded command other than 9 and 7 is echoed
    on the serial port and dropped: no global changes, nothing is displayed,
    and the decoder is resumed. *)
Theorem unknown_command_is_dropped (inp : LoopInput) (command : Z) (s : State) :
  serial_line inp = None ->
  ir_command inp = Some command ->
  command <> 9 -> command <> 7 ->
  sunriseActive s = false ->
  loop inp s =
    Ok tt s [SerialPrint "Button: "; SerialPrintlnNum command; IrResume].
Proof.
  intros Hl Hc H9 H7 Ha.
  rewrite (loop_idle_remote inp s Hl Ha).
  apply loop_remote_other; assumption.
Qed.

Lemma unknown_command_is_dropped_witness :
  serial_line (mkLoopInput None 0 0 (Some 21)) = None /\
  ir_command (mkLoopInput None 0 0 (Some 21)) = Some 21 /\
  21 <> 9 /\ 21 <> 7 /\
  sunriseActive moon_idle = false /\
  loop (mkLoopInput None 0 0 (Some 21)) moon_idle =
    Ok tt moon_idle [SerialPrint "Button: "; SerialPrintlnNum 21; IrResume].
Proof.
  assert (h3 : 21 <> 9) by discriminate.
  assert (h4 : 21 <> 7) by discriminate.
  split; [reflexivity |]. split; [reflexivity |].
  split; [exact h3 |]. split; [exact h4 |]. split; [reflexivity |].
  exact (unknown_command_is_dropped (mkLoopInput None 0 0 (Some 21)) 21 moon_idle
           eq_refl eq_refl h3 h4 eq_refl).
Defined.

(** The remote block on a well-formed state, case by case. *)
Lemma loop_remote_cases (inp : LoopInput) (s : State) :
  valid_planet s ->
  (loop_remote inp s = Ok tt s [] /\
   (sunriseActive s = true \/ ir_command inp = None)) \/
  (exists command,
     ir_command inp = Some command /\ command <> 9 /\ command <> 7 /\
     loop_remote inp s =
       Ok tt s [SerialPrint "Button: "; SerialPrintlnNum command; IrResume]) \/
  (exists z out,
     (ir_command inp = Some 9 \/ ir_command inp = Some 7) /\
     sunriseActive s = false /\
     loop_remote inp s =
       Ok tt (set_sunriseActive false (set_currentPlanet (z mod 3) s)) out /\
     remote_consumed out = true).
Proof.
  intros Hv.
  destruct (sunriseActive s) eqn:Ha.
  - left. split; [apply loop_remote_active; exact Ha | left; reflexivity].
  - destruct (ir_command inp) as [command |] eqn:Hi.
    + destruct (Z.eq_dec command 9) as [-> | H9].
      * right; right.
        destruct (loop_remote_up inp s Hi Ha Hv) as (out & E & R).
        exists (currentPlanet s + 1), out. repeat split; try assumption.
        left; reflexivity.
      * destruct (Z.eq_dec command 7) as [-> | H7].
        -- right; right.
           destruct (loop_remote_down inp s Hi Ha Hv) as (out & E & R).
           exists (currentPlanet s - 1), out. repeat split; try assumption.
           right; reflexivity.
        -- right; left. exists command. repeat split; try assumption.
           apply loop_remote_other; assumption.
    + left. split; [| right; reflexivity].
      unfold loop_remote. unfold_sketch. rewrite Ha, Hi. reflexivity.
Qed.

(** X5: a pass of [loop()] changes the selection index only by handling
    an UP or a DOWN command on an idle sketch: no serial line and no tick
    ever moves it. *)
Theorem selection_moves_only_by_remote
    (inp : LoopInput) (s s' : State) (out : list Event) :
  valid_planet s ->
  loop inp s = Ok tt s' out ->
  currentPlanet s' <> currentPlanet s ->
  (ir_command inp = Some 9 \/ ir_command inp = Some 7) /\
  remote_consumed out = true /\
  sunriseActive s' = false.
Proof.
  intros Hv H Hne.
  unfold loop, bind in H.
  destruct (loop_serial inp s) as [[] sa oa | f] eqn:Es; [| discriminate H].
  destruct (loop_sunrise inp sa) as [[] sb ob | f] eqn:Et; [| discriminate H].
  destruct (loop_serial_frame _ _ _ _ Es) as [_ S2].
  destruct (loop_sunrise_frame _ _ _ _ Et) as [_ T2].
  assert (Hvb : valid_planet sb).
  { unfold valid_planet in *. rewrite T2, S2. exact Hv. }
  destruct (loop_remote_cases inp sb Hvb)
    as [[E _] | [(c & _ & _ & _ & E) | (z & o & Hc & Ha & E & R)]];
    rewrite E in H; injection H as <- <-.
  - exfalso. apply Hne. congruence.
  - exfalso. apply Hne. congruence.
  - split; [exact Hc |]. split; [| reflexivity].
    unfold remote_consumed in *.
    rewrite !existsb_app, R, !orb_true_r. reflexivity.
Qed.

Lemma selection_moves_only_by_remote_witness :
  valid_planet moon_idle /\
  loop press_up moon_idle =
    Ok tt (mkState 2 false 0 0 0 0 0)
       [SerialPrint "Button: "; SerialPrintlnNum 9; LcdClear; LcdSetCursor 0 0;
        LcdPrint "Mars: Earth's"; LcdSetCursor 0 1; LcdPrint "Lil bro";
        AnalogWrite RED_PIN 0; AnalogWrite GREEN_PIN 0; AnalogWrite BLUE_PIN 255;
        SerialPrint "-> Planet: "; SerialPrintlnNum 2; IrResume] /\
  currentPlanet (mkState 2 false 0 0 0 0 0) <> currentPlanet moon_idle /\
  (ir_command press_up = Some 9 \/ ir_command press_up = Some 7) /\
  remote_consumed
    [SerialPrint "Button: "; SerialPrintlnNum 9; LcdClear; LcdSetCursor 0 0;
     LcdPrint "Mars: Earth's"; LcdSetCursor 0 1; LcdPrint "Lil bro";
     AnalogWrite RED_PIN 0; AnalogWrite GREEN_PIN 0; AnalogWrite BLUE_PIN 255;
     SerialPrint "-> Planet: "; SerialPrintlnNum 2; IrResume] = true /\
  sunriseActive (mkState 2 false 0 0 0 0 0) = false.
Proof.
  assert (h1 : valid_planet moon_idle) by evaluate.
  assert (h2 : loop press_up moon_idle =
    Ok tt (mkState 2 false 0 0 0 0 0)
       [SerialPrint "Button: "; SerialPrintlnNum 9; LcdClear; LcdSetCursor 0 0;
        LcdPrint "Mars: Earth's"; LcdSetCursor 0 1; LcdPrint "Lil bro";
        AnalogWrite RED_PIN 0; AnalogWrite GREEN_PIN 0; AnalogWrite BLUE_PIN 255;
        SerialPrint "-> Planet: "; SerialPrintlnNum 2; IrResume])
    by (vm_compute; reflexivity).
  assert (h3 : currentPlanet (mkState 2 false 0 0 0 0 0) <> currentPlanet moon_idle)
    by discriminate.
  split; [exact h1 |]. split; [exact h2 |]. split; [exact h3 |].
  exact (selection_moves_only_by_remote press_up moon_idle _ _ h1 h2 h3).
Defined.

(** *** A running sunrise *)

(** A pass with no line waiting, ticked before the duration has elapsed:
    the three pins are written and that is all. *)
Lemma ramp_pass (inp : LoopInput) (s : State) :
  serial_line inp = None ->
  sunriseActive s = true ->
  to_ulong (millis_update inp - sunriseStartTime s) < sunriseDuration s < 2 ^ 32 ->
  exists x y z,
    loop inp s =
      Ok tt s [AnalogWrite RED_PIN x; AnalogWrite GREEN_PIN y; AnalogWrite BLUE_PIN z].
Proof.
  intros Hl Ha He.
  pose proof (to_ulong_range (millis_update inp - sunriseStartTime s)) as Hr.
  destruct (scale_ramp 0 (to_ulong (millis_update inp - sunriseStartTime s))
              (sunriseDuration s)) as (p & Ep & _); try lia.
  unfold loop, loop_serial, loop_sunrise. rewrite Hl.
  set (rem := loop_remote inp).
  unfold_sketch. rewrite Ha.
  rewrite updateSunrise_interpolates by lia. rewrite Ep.
  unfold rem. rewrite (loop_remote_active inp s Ha).
  eexists; eexists; eexists. reflexivity.
Qed.

(** X6: while a sunrise is running and its duration has not elapsed,
    passes with no serial line leave every global as it is, whatever the
    remote decodes: each pass writes the three LED pins and nothing else, so
    nothing is printed or displayed and the decoder is never resumed. *)
Theorem ramp_passes_keep_the_state (inps : list LoopInput) (s : State) :
  sunriseActive s = true ->
  sunriseDuration s < 2 ^ 32 ->
  Forall (fun inp =>
            serial_line inp = None /\
            to_ulong (millis_update inp - sunriseStartTime s) < sunriseDuration s)
         inps ->
  exists out,
    loops inps s = Ok tt s out /\
    remote_consumed out = false /\
    Forall (fun ev => exists pin v, ev = AnalogWrite pin v) out /\
    List.length out = (3 * List.length inps)%nat.
Proof.
  intros Ha HD Hall.
  induction Hall as [| inp rest [Hl He] _ IH].
  - exists []. repeat split; constructor.
  - destruct (ramp_pass inp s Hl Ha) as (x & y & z & E); [lia |].
    destruct IH as (out & E2 & R & F & L).
    rewrite loops_cons, E, E2.
    eexists. split; [reflexivity |].
    split; [exact R |]. split.
    + cbn [app]. repeat (constructor; [eexists; eexists; reflexivity |]). exact F.
    + cbn [app List.length]. rewrite L. lia.
Qed.

Lemma ramp_passes_keep_the_state_witness :
  sunriseActive earth_1000 = true /\
  sunriseDuration earth_1000 < 2 ^ 32 /\
  Forall (fun inp =>
            serial_line inp = None /\
            to_ulong (millis_update inp - sunriseStartTime earth_1000)
              < sunriseDuration earth_1000)
         [tick_then_up_early; tick_then_up_early] /\
  exists out,
    loops [tick_then_up_early; tick_then_up_early] earth_1000 = Ok tt earth_1000 out /\
    remote_consumed out = false /\
    Forall (fun ev => exists pin v, ev = AnalogWrite pin v) out /\
    List.length out = (3 * List.length [tick_then_up_early; tick_then_up_early])%nat.
Proof.
  assert (h2 : sunriseDuration earth_1000 < 2 ^ 32) by evaluate.
  assert (h3 : Forall (fun inp =>
            serial_line inp = None /\
            to_ulong (millis_update inp - sunriseStartTime earth_1000)
              < sunriseDuration earth_1000)
         [tick_then_up_early; tick_then_up_early]).
  { repeat constructor. }
  split; [reflexivity |]. split; [exact h2 |]. split; [exact h3 |].
  exact (ramp_passes_keep_the_state [tick_then_up_early; tick_then_up_early]
           earth_1000 eq_refl h2 h3).
Defined.

Lemma to_ulong_sub_mod (now start : Z) :
  to_ulong (to_ulong now - start) = to_ulong (now - start).
Proof. unfold to_ulong. apply Zminus_mod_idemp_l. Qed.

Lemma updateSunrise_elapsed (now now' : Z) (s : State) :
  to_ulong (now - sunriseStartTime s) = to_ulong (now' - sunriseStartTime s) ->
  updateSunrise now s = updateSunrise now' s.
Proof.
  intros E. unfold updateSunrise, bind, get_state. rewrite E. reflexivity.
Qed.

(** X7: the tick measures time by unsigned subtraction, so a roll-over of
    the 32-bit millisecond clock between arming and tick is invisible: [e]
    milliseconds after the start time ([e < 2^32]) the wrapped clock gives
    elapsed time [e] and the tick does what it would do on an unbounded
    clock; it completes the sunrise when [e >= sunriseDuration] and leaves
    the globals alone when [e < sunriseDuration]. *)
Theorem tick_survives_clock_rollover (e : Z) (s : State) :
  0 <= e < 2 ^ 32 ->
  valid_planet s ->
  sunriseDuration s < 2 ^ 32 ->
  to_ulong (to_ulong (sunriseStartTime s + e) - sunriseStartTime s) = e /\
  updateSunrise (to_ulong (sunriseStartTime s + e)) s =
    updateSunrise (sunriseStartTime s + e) s /\
  (sunriseDuration s <= e ->
   updateSunrise (to_ulong (sunriseStartTime s + e)) s =
     Ok tt (set_sunriseActive false s) (completion_trace s)) /\
  (e < sunriseDuration s ->
   state_of (updateSunrise (to_ulong (sunriseStartTime s + e)) s) = Some s).
Proof.
  intros He Hv HD.
  pose proof (elapsed_across_rollover (sunriseStartTime s) e He) as El.
  split; [exact El |]. split; [| split].
  - apply updateSunrise_elapsed. apply to_ulong_sub_mod.
  - intros Hle. apply updateSunrise_done; [exact Hv |]. rewrite El. exact Hle.
  - intros Hlt. rewrite updateSunrise_interpolates by (rewrite El; exact Hlt).
    rewrite El.
    destruct (scale_ramp 0 e (sunriseDuration s)) as (p & Ep & _); try lia.
    rewrite Ep. reflexivity.
Qed.

Lemma tick_survives_clock_rollover_witness :
  0 <= 1000 < 2 ^ 32 /\
  valid_planet (armed 4294967000 1000 initial) /\
  sunriseDuration (armed 4294967000 1000 initial) < 2 ^ 32 /\
  to_ulong (to_ulong (sunriseStartTime (armed 4294967000 1000 initial) + 1000)
            - sunriseStartTime (armed 4294967000 1000 initial)) = 1000 /\
  updateSunrise
    (to_ulong (sunriseStartTime (armed 4294967000 1000 initial) + 1000))
    (armed 4294967000 1000 initial) =
    updateSunrise (sunriseStartTime (armed 4294967000 1000 initial) + 1000)
      (armed 4294967000 1000 initial) /\
  (sunriseDuration (armed 4294967000 1000 initial) <= 1000 ->
   updateSunrise
     (to_ulong (sunriseStartTime (armed 4294967000 1000 initial) + 1000))
     (armed 4294967000 1000 initial) =
     Ok tt (set_sunriseActive false (armed 4294967000 1000 initial))
        (completion_trace (armed 4294967000 1000 initial))) /\
  (1000 < sunriseDuration (armed 4294967000 1000 initial) ->
   state_of (updateSunrise
               (to_ulong (sunriseStartTime (armed 4294967000 1000 initial) + 1000))
               (armed 4294967000 1000 initial))
     = Some (armed 4294967000 1000 initial)).
Proof.
  assert (h1 : 0 <= 1000 < 2 ^ 32) by evaluate.
  assert (h2 : valid_planet (armed 4294967000 1000 initial)) by evaluate.
  assert (h3 : sunriseDuration (armed 4294967000 1000 initial) < 2 ^ 32) by evaluate.
  split; [exact h1 |]. split; [exact h2 |]. split; [exact h3 |].
  exact (tick_survives_clock_rollover 1000 (armed 4294967000 1000 initial) h1 h2 h3).
Defined.

(** X8: arming forgets the previous run: a command accepted while a
    sunrise is running gives the same globals and the same output as the
    same command on any other state with the same selection, so start time,
    target and duration are all replaced and the LED restarts from off. *)
Theorem rearming_forgets_the_previous_run
    (now : Z) (command : string) (s1 s2 : State) :
  0 < WString.indexOf " "%char command ->
  valid_planet s1 ->
  currentPlanet s1 = currentPlanet s2 ->
  parseAndStartSunrise now command s1 = parseAndStartSunrise now command s2 /\
  exists s' out,
    parseAndStartSunrise now command s1 = Ok tt s' out /\
    sunriseActive s' = true /\
    sunriseStartTime s' = now /\
    color_writes out = [(0, 0, 0)].
Proof.
  intros Hsp Hv Hcp.
  assert (Hv2 : valid_planet s2) by (unfold valid_planet in *; rewrite <- Hcp; exact Hv).
  rewrite (parse_accepts now command s1 Hsp Hv).
  rewrite (parse_accepts now command s2 Hsp Hv2).
  unfold armed, arm_trace. rewrite Hcp. split; [reflexivity |].
  eexists; eexists. split; [reflexivity |]. split; [reflexivity |].
  split; [reflexivity |].
  apply (arm_trace_quiet (parsed_duration command) s2 Hv2).
Qed.

Lemma rearming_forgets_the_previous_run_witness :
  0 < WString.indexOf " "%char "SUNRISE 30000" /\
  valid_planet earth_1000 /\
  currentPlanet earth_1000 = currentPlanet initial /\
  parseAndStartSunrise 700 "SUNRISE 30000" earth_1000 =
    parseAndStartSunrise 700 "SUNRISE 30000" initial /\
  exists s' out,
    parseAndStartSunrise 700 "SUNRISE 30000" earth_1000 = Ok tt s' out /\
    sunriseActive s' = true /\
    sunriseStartTime s' = 700 /\
    color_writes out = [(0, 0, 0)].
Proof.
  assert (h1 : 0 < WString.indexOf " "%char "SUNRISE 30000") by evaluate.
  assert (h2 : valid_planet earth_1000) by evaluate.
  split; [exact h1 |]. split; [exact h2 |]. split; [reflexivity |].
  exact (rearming_forgets_the_previous_run 700 "SUNRISE 30000" earth_1000 initial
           h1 h2 eq_refl).
Defined.

(** *** Command lines *)

(** X9: a serial line that spells [SUNRISE], one space and the decimal
    notation of [n], with any white space before and after, arms the
    sunrise with duration exactly [n], for every [n] below [2^31]. *)
Theorem decimal_duration_round_trip
    (inp : LoopInput) (pad1 pad2 : string) (n : Z) (s : State) :
  serial_line inp = Some (pad1 ++ "SUNRISE " ++ decimal n ++ pad2) ->
  all_space pad1 = true -> all_space pad2 = true ->
  0 <= n < 2 ^ 31 ->
  valid_planet s ->
  loop_serial inp s = Ok tt (armed (millis_parse inp) n s) (arm_trace n s).
Proof.
  intros Hl Hp1 Hp2 Hn Hv.
  destruct (decimal_digits n (proj1 Hn)) as [Hd Hs].
  assert (Htrim : WString.trim (pad1 ++ "SUNRISE " ++ decimal n ++ pad2)
                  = "SUNRISE " ++ decimal n).
  { unfold WString.trim. rewrite (skip_space_padding pad1 _ Hp1).
    change (WString.skip_space ("SUNRISE " ++ decimal n ++ pad2))
      with ("SUNRISE " ++ decimal n ++ pad2).
    assert (Hsolid : WString.drop_trailing_space (decimal n ++ pad2) = decimal n).
    { apply drop_trailing_space_solid; [apply digits_no_space; exact Hd | exact Hp2]. }
    rewrite drop_trailing_space_front; rewrite Hsolid; [reflexivity |].
    destruct (decimal n); [discriminate Hs | reflexivity]. }
  unfold loop_serial. rewrite Hl, Htrim.
  change (WString.startsWith ("SUNRISE " ++ decimal n) "SUNRISE") with true.
  cbv iota.
  destruct (parsed_duration_keyword (decimal n)) as [Hsp Hdur].
  rewrite (parse_accepts _ _ s Hsp Hv), Hdur.
  pose proof (toInt_decimal n EmptyString Hn eq_refl) as Hval.
  rewrite append_empty in Hval. rewrite Hval.
  unfold to_ulong. rewrite Z.mod_small by lia. reflexivity.
Qed.

Lemma decimal_duration_round_trip_witness :
  serial_line (mkLoopInput (Some ("  " ++ "SUNRISE " ++ decimal 30000 ++ " ")) 5 6 None)
    = Some ("  " ++ "SUNRISE " ++ decimal 30000 ++ " ") /\
  all_space "  " = true /\ all_space " " = true /\
  0 <= 30000 < 2 ^ 31 /\
  valid_planet moon_idle /\
  loop_serial (mkLoopInput (Some ("  " ++ "SUNRISE " ++ decimal 30000 ++ " ")) 5 6 None)
    moon_idle
  = Ok tt
      (armed (millis_parse
                (mkLoopInput (Some ("  " ++ "SUNRISE " ++ decimal 30000 ++ " ")) 5 6 None))
             30000 moon_idle)
      (arm_trace 30000 moon_idle).
Proof.
  assert (h4 : 0 <= 30000 < 2 ^ 31) by evaluate.
  assert (h5 : valid_planet moon_idle) by evaluate.
  split; [reflexivity |]. split; [reflexivity |]. split; [reflexivity |].
  split; [exact h4 |]. split; [exact h5 |].
  exact (decimal_duration_round_trip
           (mkLoopInput (Some ("  " ++ "SUNRISE " ++ decimal 30000 ++ " ")) 5 6 None)
           "  " " " 30000 moon_idle eq_refl eq_refl eq_refl h4 h5).
Defined.

(** X10: the keyword is matched as a prefix and the number is read up to
    its first non-digit: whatever text without a space and without a NUL
    follows [SUNRISE] before the first space, and whatever text not starting
    with a digit follows the digits, the command is accepted and arms with
    the number. *)
Theorem text_around_the_number_is_ignored
    (now : Z) (junk tail : string) (n : Z) (s : State) :
  ~ In " "%char (list_ascii_of_string junk) ->
  ~ In WString.nul (list_ascii_of_string junk) ->
  starts_with_digit tail = false ->
  0 <= n < 2 ^ 31 ->
  valid_planet s ->
  WString.startsWith ("SUNRISE" ++ junk ++ " " ++ decimal n ++ tail) "SUNRISE" = true /\
  parseAndStartSunrise now ("SUNRISE" ++ junk ++ " " ++ decimal n ++ tail) s =
    Ok tt (armed now n s) (arm_trace n s).
Proof.
  intros Hj Hz Ht Hn Hv.
  split.
  { unfold WString.startsWith. cbn [append String.prefix].
    repeat match goal with
           | |- context [ascii_dec ?a ?a] =>
               destruct (ascii_dec a a) as [_ | Hne]; [| exfalso; apply Hne; reflexivity]
           end.
    destruct (junk ++ _); reflexivity. }
  change ("SUNRISE" ++ junk ++ " " ++ decimal n ++ tail)
    with (("SUNRISE" ++ junk) ++ String " "%char (decimal n ++ tail)).
  assert (Ha : ~ In " "%char (list_ascii_of_string ("SUNRISE" ++ junk))).
  { cbn. intros H.
    repeat (destruct H as [H | H]; [discriminate H |]). exact (Hj H). }
  assert (Hb : ~ In WString.nul (list_ascii_of_string ("SUNRISE" ++ junk))).
  { cbn. intros H.
    repeat (destruct H as [H | H]; [discriminate H |]). exact (Hz H). }
  destruct (indexOf_append " "%char ("SUNRISE" ++ junk) (decimal n ++ tail) Ha Hb)
    as [I1 I2].
  assert (Hsp : 0 < WString.indexOf " "%char
                      (("SUNRISE" ++ junk) ++ String " "%char (decimal n ++ tail))).
  { rewrite I1. cbn [append String.length]. lia. }
  rewrite (parse_accepts now _ s Hsp Hv).
  unfold parsed_duration. rewrite I1, I2, toInt_c_str.
  rewrite (toInt_decimal n tail Hn Ht).
  unfold to_ulong. rewrite Z.mod_small by lia. reflexivity.
Qed.

Lemma text_around_the_number_is_ignored_witness :
  ~ In " "%char (list_ascii_of_string "_NOW") /\
  ~ In WString.nul (list_ascii_of_string "_NOW") /\
  starts_with_digit "ms" = false /\
  0 <= 30000 < 2 ^ 31 /\
  valid_planet moon_idle /\
  WString.startsWith ("SUNRISE" ++ "_NOW" ++ " " ++ decimal 30000 ++ "ms") "SUNRISE"
    = true /\
  parseAndStartSunrise 5 ("SUNRISE" ++ "_NOW" ++ " " ++ decimal 30000 ++ "ms") moon_idle =
    Ok tt (armed 5 30000 moon_idle) (arm_trace 30000 moon_idle).
Proof.
  assert (h1 : ~ In " "%char (list_ascii_of_string "_NOW")).
  { cbn. intros H. repeat (destruct H as [H | H]; [discriminate H |]). exact H. }
  assert (h2 : ~ In WString.nul (list_ascii_of_string "_NOW")).
  { cbn. intros H. repeat (destruct H as [H | H]; [discriminate H |]). exact H. }
  assert (h3 : 0 <= 30000 < 2 ^ 31) by evaluate.
  assert (h4 : valid_planet moon_idle) by evaluate.
  split; [exact h1 |]. split; [exact h2 |]. split; [reflexivity |].
  split; [exact h3 |]. split; [exact h4 |].
  exact (text_around_the_number_is_ignored 5 "_NOW" "ms" 30000 moon_idle
           h1 h2 eq_refl h3 h4).
Defined.

(** X17: a NUL hides the separator.  [indexOf] searches with [strchr],
    which stops at the first NUL of the buffer: a command with a NUL before
    its first space is rejected with the invalid-format diagnostic and no
    global changes, whatever follows the NUL, a space and a number
    included. *)
Theorem nul_hides_the_separator (now : Z) (a t : string) (s : State) :
  ~ In " "%char (list_ascii_of_string a) ->
  parseAndStartSunrise now (a ++ String WString.nul t) s =
    Ok tt s [SerialPrintln msg_invalid].
Proof.
  intros Ha. apply parse_rejects.
  unfold WString.indexOf.
  destruct (WString.is_empty (a ++ String WString.nul t)); [lia |].
  rewrite (strchr_stops_at_nul " "%char a t); [lia | discriminate | exact Ha].
Qed.

Lemma nul_hides_the_separator_witness :
  ~ In " "%char (list_ascii_of_string "SUNRISE") /\
  parseAndStartSunrise 5 ("SUNRISE" ++ String WString.nul " 5") earth_1000 =
    Ok tt earth_1000 [SerialPrintln msg_invalid].
Proof.
  assert (h1 : ~ In " "%char (list_ascii_of_string "SUNRISE")).
  { cbn. intros H. repeat (destruct H as [H | H]; [discriminate H |]). exact H. }
  split; [exact h1 |].
  exact (nul_hides_the_separator 5 "SUNRISE" " 5" earth_1000 h1).
Defined.

(** *** Rounding is monotone *)

Section Monotone.

Local Open Scope Q_scope.

Lemma pow2_le (a c : Z) : (a <= c)%Z -> pow2 a <= pow2 c.
Proof. intros H. apply Qpower_le_compat_l; [exact H | discriminate]. Qed.

Lemma pow2_24 (e : Z) : 16777216 * pow2 e == 8388608 * pow2 (e + 1).
Proof. rewrite pow2_succ. ring. Qed.

Lemma mantissa_bounds (m : Z) :
  (2 ^ 23 <= m < 2 ^ 24)%Z ->
  8388608 <= inject_Z m /\ inject_Z m + 1 <= 16777216.
Proof.
  intros [H1 H2]. split.
  - change 8388608 with (inject_Z (2 ^ 23)). rewrite <- Zle_Qle. exact H1.
  - change 1 with (inject_Z 1). rewrite <- inject_Z_plus.
    change 16777216 with (inject_Z (2 ^ 24)). rewrite <- Zle_Qle. lia.
Qed.

(** A value in a lower binade is below every value of a higher one. *)
Lemma binade_order (m1 e1 m2 e2 : Z) :
  (2 ^ 23 <= m1 < 2 ^ 24)%Z -> (2 ^ 23 <= m2 < 2 ^ 24)%Z ->
  (e1 < e2)%Z ->
  (inject_Z m1 + 1) * pow2 e1 <= inject_Z m2 * pow2 e2.
Proof.
  intros H1 H2 He.
  destruct (mantissa_bounds m1 H1) as [_ B1].
  destruct (mantissa_bounds m2 H2) as [B2 _].
  pose proof (pow2_pos e1) as P1. pose proof (pow2_pos e2) as P2.
  pose proof (pow2_le (e1 + 1) e2 ltac:(lia)) as Hle.
  pose proof (pow2_24 e1) as H24.
  apply Qle_trans with (16777216 * pow2 e1).
  - apply Qmult_le_r; assumption.
  - rewrite H24. apply Qle_trans with (8388608 * pow2 e2).
    + apply Qmult_le_l; [reflexivity | exact Hle].
    + apply Qmult_le_r; assumption.
Qed.

Lemma rne_between (X F : Q) (m e : Z) :
  (X < (inject_Z m + (1 # 2)) * pow2 e /\ F == inject_Z m * pow2 e \/
   (inject_Z m + (1 # 2)) * pow2 e < X /\ F == (inject_Z m + 1) * pow2 e \/
   X == (inject_Z m + (1 # 2)) * pow2 e /\
   F == inject_Z (if Z.even m then m else m + 1) * pow2 e) ->
  inject_Z m * pow2 e <= F /\ F <= (inject_Z m + 1) * pow2 e.
Proof.
  pose proof (pow2_pos e) as P.
  intros [[_ E] | [[_ E] | [_ E]]]; rewrite E.
  - split; nra.
  - split; nra.
  - destruct (Z.even m).
    + split; nra.
    + rewrite inject_Z_plus. change (inject_Z 1) with 1. split; nra.
Qed.

(** Rounding never reverses an order. *)
Lemma rne_monotone (X1 F1 X2 F2 : Q) :
  rne X1 F1 -> rne X2 F2 -> X1 <= X2 -> F1 <= F2.
Proof.
  intros (m1 & e1 & N1 & [L1 U1] & R1) (m2 & e2 & N2 & [L2 U2] & R2) HX.
  destruct (rne_between _ _ _ _ R1) as [FL1 FU1].
  destruct (rne_between _ _ _ _ R2) as [FL2 FU2].
  destruct (Z.lt_trichotomy e1 e2) as [Hlt | [Heq | Hgt]].
  - pose proof (binade_order m1 e1 m2 e2 N1 N2 Hlt). lra.
  - subst e2. pose proof (pow2_pos e1) as P.
    destruct (Z.lt_trichotomy m1 m2) as [Hm | [Hm | Hm]].
    + assert (inject_Z m1 + 1 <= inject_Z m2).
      { change 1 with (inject_Z 1). rewrite <- inject_Z_plus, <- Zle_Qle. lia. }
      assert ((inject_Z m1 + 1) * pow2 e1 <= inject_Z m2 * pow2 e1)
        by (apply Qmult_le_r; assumption).
      lra.
    + subst m2.
      destruct R1 as [[C1 E1] | [[C1 E1] | [C1 E1]]];
        destruct R2 as [[C2 E2] | [[C2 E2] | [C2 E2]]];
        rewrite ?E1, ?E2; lra.
    + exfalso.
      assert (inject_Z m2 + 1 <= inject_Z m1).
      { change 1 with (inject_Z 1). rewrite <- inject_Z_plus, <- Zle_Qle. lia. }
      assert ((inject_Z m2 + 1) * pow2 e1 <= inject_Z m1 * pow2 e1)
        by (apply Qmult_le_r; assumption).
      lra.
  - exfalso. pose proof (binade_order m2 e2 m1 e1 N2 N1 ltac:(lia)). lra.
Qed.

Lemma rne_ext (X X' F F' : Q) :
  X == X' -> F == F' -> rne X F -> rne X' F'.
Proof.
  intros EX EF (m & e & N & [B1 B2] & Rc).
  exists m, e. split; [exact N |].
  split; [split; lra |].
  destruct Rc as [[C E] | [[C E] | [C E]]];
    [left | right; left | right; right]; split; lra.
Qed.

Lemma round_nearest_even_cases (y : Q) (m : Z) (l : location) :
  inloc y m l ->
  (inject_Z m <= y /\ y < inject_Z m + 1) /\
  (y < inject_Z m + (1 # 2) /\ round_nearest_even m l = m \/
   inject_Z m + (1 # 2) < y /\ round_nearest_even m l = (m + 1)%Z \/
   y == inject_Z m + (1 # 2) /\
   round_nearest_even m l = if Z.even m then m else (m + 1)%Z).
Proof.
  intros H.
  destruct l as [| []]; cbn [round_nearest_even inloc] in *.
  - split; [lra |]. left. split; [lra | reflexivity].
  - split; [lra |]. right; right. split; [lra | reflexivity].
  - split; [lra |]. left. split; [lra | reflexivity].
  - split; [lra |]. right; left. split; [lra | reflexivity].
Qed.

(** The rounding step of every operation, in the normal range: the result
    is the nearest-even rounding of the exact value. *)
Lemma round_aux_rne (sx : bool) (mx ex : Z) (lx : location) (x : Q) :
  (0 < mx)%Z ->
  (24 <= Zdigits2 mx)%Z ->
  (-125 <= Zdigits2 mx + ex <= 127)%Z ->
  inloc x mx lx ->
  exists m e,
    binary_round_aux 24 128 sx mx ex lx = S754_finite sx m e /\
    rne (x * pow2 ex) (fval (Zpos m) e).
Proof.
  intros Hmx Hd Hrange Hx.
  set (d := Zdigits2 mx) in *.
  pose proof (Zdigits2_bounds mx Hmx) as Hb. fold d in Hb.
  unfold binary_round_aux.
  unfold shr_fexp. fold d.
  rewrite (fexp32 (d + ex)) by lia.
  replace (d + ex - 24 - ex)%Z with (d - 24)%Z by lia.
  destruct (shr_inrec x (shr_record_of_loc mx lx) ex (d - 24))
    as (K1 & K2 & K3).
  { lia. }
  { destruct lx as [| []]; cbn; lia. }
  { apply inrec_of_loc. exact Hx. }
  destruct (shr (shr_record_of_loc mx lx) ex (d - 24)) as [mrs1 e1].
  cbn [fst snd] in K1, K2, K3.
  assert (Hm1 : shr_m mrs1 = (mx / 2 ^ (d - 24))%Z).
  { rewrite K2. destruct lx as [| []]; reflexivity. }
  pose proof (div_pow2_digits mx d Hd Hb) as Hm1b. rewrite <- Hm1 in Hm1b.
  destruct (round_nearest_even_cases _ _ _ K1) as ([Y1 Y2] & Rc).
  assert (Rr : (shr_m mrs1
                <= round_nearest_even (shr_m mrs1) (loc_of_shr_record mrs1)
                <= shr_m mrs1 + 1)%Z).
  { destruct Rc as [[_ ->] | [[_ ->] | [_ ->]]]; [lia | lia |].
    destruct (Z.even (shr_m mrs1)); lia. }
  set (mr := round_nearest_even (shr_m mrs1) (loc_of_shr_record mrs1)) in *.
  set (m1 := shr_m mrs1) in *.
  set (y := x * pow2 (- (d - 24))) in *.
  assert (Hxy : x * pow2 ex == y * pow2 e1).
  { unfold y. rewrite K3. rewrite <- Qmult_assoc, <- pow2_add.
    replace (- (d - 24) + (ex + (d - 24)))%Z with ex by lia. reflexivity. }
  pose proof (pow2_pos e1) as He1.
  assert (Hrne : rne (x * pow2 ex) (inject_Z mr * pow2 e1)).
  { exists m1, e1. split; [exact Hm1b |]. rewrite Hxy. split.
    - split.
      + apply Qmult_le_r; assumption.
      + apply Qmult_lt_r; assumption.
    - destruct Rc as [[C E] | [[C E] | [C E]]].
      + left. rewrite E. split; [apply Qmult_lt_r; assumption | reflexivity].
      + right; left. rewrite E. split; [apply Qmult_lt_r; assumption |].
        rewrite inject_Z_plus. reflexivity.
      + right; right. rewrite E. split; [rewrite C; reflexivity | reflexivity]. }
  destruct (Z.eq_dec mr (2 ^ 24)) as [Hcarry | Hnocarry].
  - rewrite Hcarry in Hrne |- *.
    change (Zdigits2 (2 ^ 24)) with 25%Z.
    rewrite fexp32 by lia.
    replace (25 + e1 - 24 - e1)%Z with 1%Z by lia.
    cbn [shr shr_record_of_loc iter_pos shr_1 shr_m Z.pow Z.pow_pos Pos.iter Z.mul Pos.mul].
    assert (Hle : (e1 + 1 <=? 128 - 24)%Z = true) by (apply Z.leb_le; lia).
    rewrite Hle.
    exists 8388608%positive, (e1 + 1)%Z.
    split; [reflexivity |].
    assert (Ev : fval 8388608 (e1 + 1) == inject_Z (2 ^ 24) * pow2 e1).
    { unfold fval. rewrite pow2_succ.
      change (inject_Z (2 ^ 24)) with (16777216 # 1).
      change (inject_Z 8388608) with (8388608 # 1). ring. }
    revert Hrne. apply rne_ext; [reflexivity | symmetry; exact Ev].
  - assert (Hmr : (2 ^ 23 <= mr < 2 ^ 24)%Z) by lia.
    rewrite (Zdigits2_unique mr 24) by (cbn; lia).
    rewrite fexp32 by lia.
    replace (24 + e1 - 24 - e1)%Z with 0%Z by lia.
    cbn [shr shr_record_of_loc shr_m].
    destruct mr as [| pm | pm] eqn:Emr; [lia | | lia].
    assert (Hle : (e1 <=? 128 - 24)%Z = true) by (apply Z.leb_le; lia).
    rewrite Hle.
    exists pm, e1. split; [reflexivity | exact Hrne].
Qed.

Lemma of_Z_rne (n : Z) :
  (0 < n < 2 ^ 32)%Z ->
  exists m e,
    F32.of_Z n = S754_finite false m e /\ rne (inject_Z n) (fval (Zpos m) e).
Proof.
  intros Hn.
  destruct n as [| p | p]; [lia | | lia].
  unfold F32.of_Z, F32.prec, F32.emax, binary_normalize, binary_round.
  pose proof (Zdigits2_bounds (Zpos p) (proj1 Hn)) as Hb.
  cbn [Zdigits2] in Hb.
  set (d := Zpos (digits2_pos p)) in *.
  assert (Hd : (1 <= d <= 32)%Z).
  { split; [unfold d; lia |].
    destruct (Z_le_gt_dec d 32) as [Hle | Hgt]; [exact Hle | exfalso].
    assert (2 ^ 32 <= 2 ^ (d - 1))%Z by (apply Z.pow_le_mono_r; lia).
    lia. }
  rewrite Z.add_0_r. rewrite fexp32 by lia.
  unfold shl_align. rewrite Z.sub_0_r.
  assert (Plain :
    (24 <= d)%Z ->
    exists m e,
      binary_round_aux 24 128 false (Zpos p) 0 loc_Exact = S754_finite false m e /\
      rne (inject_Z (Zpos p)) (fval (Zpos m) e)).
  { intros H24.
    destruct (round_aux_rne false (Zpos p) 0 loc_Exact (inject_Z (Zpos p)))
      as (m & e & E1 & E2);
      try (cbn [Zdigits2]; fold d; lia); [reflexivity |].
    exists m, e. split; [exact E1 |].
    revert E2. apply rne_ext; [rewrite pow2_0; ring | reflexivity]. }
  destruct (d - 24)%Z as [| q | q] eqn:Eq.
  - apply Plain. lia.
  - apply Plain. lia.
  - pose proof (iter_xO_pow2 p q) as Hsh.
    set (mz := Pos.iter xO p q) in *.
    assert (Hq : Zpos q = (24 - d)%Z) by lia.
    assert (Hmz : (2 ^ 23 <= Zpos mz < 2 ^ 24)%Z).
    { rewrite Hsh, Hq.
      assert (Hp : (0 < 2 ^ (24 - d))%Z) by (apply Z.pow_pos_nonneg; lia).
      assert (H23 : (2 ^ 23 = 2 ^ (d - 1) * 2 ^ (24 - d))%Z).
      { rewrite <- Z.pow_add_r by lia. f_equal. lia. }
      assert (H24 : (2 ^ 24 = 2 ^ d * 2 ^ (24 - d))%Z).
      { rewrite <- Z.pow_add_r by lia. f_equal. lia. }
      rewrite H23, H24. split.
      - apply Z.mul_le_mono_nonneg_r; lia.
      - apply Z.mul_lt_mono_pos_r; lia. }
    destruct (round_aux_rne false (Zpos mz) (Zneg q) loc_Exact
                (inject_Z (Zpos mz)))
      as (m & e & E1 & E2);
      try (rewrite (normal_digits mz Hmz); lia); [lia | reflexivity |].
    exists m, e. split; [exact E1 |].
    assert (Hval : inject_Z (Zpos mz) * pow2 (Zneg q) == inject_Z (Zpos p)).
    { rewrite Hsh, inject_Z_mult, <- pow2_inject by lia.
      rewrite <- Qmult_assoc, <- pow2_add.
      replace (Zpos q + Zneg q)%Z with 0%Z by lia.
      rewrite pow2_0. ring. }
    revert E2. apply rne_ext; [exact Hval | reflexivity].
Qed.

Lemma div_rne (m1 : positive) (e1 : Z) (m2 : positive) (e2 : Z) (qx : Q) :
  normal_mantissa m1 -> normal_mantissa m2 ->
  (-100 <= e1 - e2 <= 100)%Z ->
  qx * fval (Zpos m2) e2 == fval (Zpos m1) e1 ->
  exists m e,
    SFdiv 24 128 (S754_finite false m1 e1) (S754_finite false m2 e2)
      = S754_finite false m e /\
    rne qx (fval (Zpos m) e).
Proof.
  intros N1 N2 He Hq.
  unfold SFdiv, SFdiv_core_binary.
  rewrite (normal_digits m1 N1), (normal_digits m2 N2).
  replace (24 + e1 - (24 + e2))%Z with (e1 - e2)%Z by lia.
  rewrite fexp32 by lia.
  rewrite Z.min_l by lia.
  replace (e1 - e2 - (e1 - e2 - 24))%Z with 24%Z by lia.
  cbv beta iota.
  rewrite Z.shiftl_mul_pow2 by lia.
  pose proof (Z_div_mod (Zpos m1 * 2 ^ 24) (Zpos m2) eq_refl) as Hdm.
  destruct (Z.div_eucl (Zpos m1 * 2 ^ 24) (Zpos m2)) as [q k].
  destruct Hdm as [Hdm Hk].
  unfold normal_mantissa in N1, N2.
  assert (Hqb : (2 ^ 23 <= q < 2 ^ 25)%Z).
  { change (2 ^ 23)%Z with 8388608%Z in *. change (2 ^ 24)%Z with 16777216%Z in *.
    change (2 ^ 25)%Z with 33554432%Z. nia. }
  pose proof (Zdigits2_range q 24 25 eq_refl Hqb) as Hdq.
  set (x := inject_Z (Zpos m1 * 2 ^ 24) / inject_Z (Zpos m2)).
  assert (Hm2 : 0 < inject_Z (Zpos m2)) by (apply inject_Z_pos; lia).
  assert (Hx : x * inject_Z (Zpos m2) == inject_Z (Zpos m1 * 2 ^ 24)).
  { unfold x. field. lra. }
  cbn [xorb].
  destruct (round_aux_rne false q (e1 - e2 - 24) (new_location (Zpos m2) k) x)
    as (m & e & E1 & E2); try lia.
  { apply new_location_inloc; [exact Hk |].
    rewrite Hx, Hdm, inject_Z_plus, inject_Z_mult. ring. }
  exists m, e. split; [exact E1 |].
  assert (Hqx : qx == x * pow2 (e1 - e2 - 24)).
  { pose proof (fval_pos m2 e2) as Hpos.
    apply (Qmult_inj_r _ _ (fval (Zpos m2) e2)); [lra |].
    rewrite Hq. unfold fval.
    transitivity (x * inject_Z (Zpos m2) * (pow2 (e1 - e2 - 24) * pow2 e2));
      [| ring].
    rewrite Hx, inject_Z_mult, <- pow2_inject by lia.
    rewrite <- pow2_add, <- Qmult_assoc, <- pow2_add.
    replace (24 + (e1 - e2 - 24 + e2))%Z with e1 by lia. reflexivity. }
  revert E2. apply rne_ext; [symmetry; exact Hqx | reflexivity].
Qed.

Lemma mul_rne (m1 : positive) (e1 : Z) (m2 : positive) (e2 : Z) :
  normal_mantissa m1 -> normal_mantissa m2 ->
  (-100 <= e1 + e2 <= 50)%Z ->
  exists m e,
    F32.mul (S754_finite false m1 e1) (S754_finite false m2 e2)
      = S754_finite false m e /\
    rne (fval (Zpos m1) e1 * fval (Zpos m2) e2) (fval (Zpos m) e).
Proof.
  intros N1 N2 He.
  unfold F32.mul, F32.prec, F32.emax, SFmul. cbn [xorb].
  unfold normal_mantissa in N1, N2.
  assert (Hpb : (2 ^ 46 <= Zpos (m1 * m2) < 2 ^ 48)%Z).
  { rewrite Pos2Z.inj_mul.
    change (2 ^ 23)%Z with 8388608%Z in *. change (2 ^ 24)%Z with 16777216%Z in *.
    change (2 ^ 46)%Z with 70368744177664%Z.
    change (2 ^ 48)%Z with 281474976710656%Z. nia. }
  pose proof (Zdigits2_range (Zpos (m1 * m2)) 47 48 eq_refl Hpb) as Hd.
  destruct (round_aux_rne false (Zpos (m1 * m2)) (e1 + e2) loc_Exact
              (inject_Z (Zpos (m1 * m2))))
    as (m & e & E1 & E2); try lia.
  { reflexivity. }
  exists m, e. split; [exact E1 |].
  assert (Hv : inject_Z (Zpos (m1 * m2)) * pow2 (e1 + e2)
               == fval (Zpos m1) e1 * fval (Zpos m2) e2).
  { unfold fval. rewrite Pos2Z.inj_mul, inject_Z_mult, pow2_add. ring. }
  revert E2. apply rne_ext; [exact Hv | reflexivity].
Qed.

Lemma rne_positive (X F : Q) : rne X F -> 0 < X /\ 0 < F.
Proof.
  intros (m & e & N & [B1 B2] & Rc).
  destruct (rne_between _ _ _ _ Rc) as [FL _].
  destruct (mantissa_bounds m N) as [M1 _].
  pose proof (pow2_pos e) as P.
  assert (0 < inject_Z m * pow2 e) by (apply Qmult_lt_0_compat; lra).
  split; lra.
Qed.

(** Rounding is a function of the real value. *)
Lemma rne_unique (X F1 F2 : Q) : rne X F1 -> rne X F2 -> F1 == F2.
Proof.
  intros H1 H2.
  pose proof (rne_monotone X F1 X F2 H1 H2 ltac:(lra)).
  pose proof (rne_monotone X F2 X F1 H2 H1 ltac:(lra)).
  lra.
Qed.

(** The relative error of one rounding is at most [2^-24]. *)
Lemma rne_error (X F : Q) :
  rne X F ->
  (1 - unit_roundoff) * X <= F /\ F <= (1 + unit_roundoff) * X.
Proof.
  intros (m & e & N & [B1 B2] & Rc).
  destruct (mantissa_bounds m N) as [M1 _].
  pose proof (pow2_pos e) as P.
  assert (Hhalf : (1 # 2) * pow2 e <= unit_roundoff * (inject_Z m * pow2 e)).
  { unfold unit_roundoff. nra. }
  unfold unit_roundoff in *.
  destruct Rc as [[C E] | [[C E] | [C E]]].
  - rewrite E. split; nra.
  - rewrite E. split; nra.
  - destruct (rne_between X F m e) as [FL FU].
    { right; right. split; assumption. }
    split; nra.
Qed.

(** A value that binary32 represents rounds to itself. *)
Lemma rne_exact (X F : Q) (m0 e0 : Z) :
  rne X F ->
  (2 ^ 23 <= m0 < 2 ^ 24)%Z ->
  X == inject_Z m0 * pow2 e0 ->
  F == X.
Proof.
  intros (m & e & N & [B1 B2] & Rc) N0 EX.
  pose proof (pow2_pos e) as P. pose proof (pow2_pos e0) as P0.
  destruct (Z.lt_trichotomy e e0) as [Hlt | [Heq | Hgt]].
  - exfalso. pose proof (binade_order m e m0 e0 N N0 Hlt). lra.
  - subst e0.
    assert (Hm : m = m0).
    { assert (inject_Z m < inject_Z m0 + 1).
      { apply (Qmult_lt_r _ _ (pow2 e) P). lra. }
      assert (inject_Z m0 < inject_Z m + 1).
      { apply (Qmult_lt_r _ _ (pow2 e) P). lra. }
      change 1 with (inject_Z 1) in *.
      rewrite <- inject_Z_plus, <- Zlt_Qlt in *. lia. }
    subst m0.
    destruct Rc as [[C E] | [[C E] | [C E]]]; [lra | exfalso; nra | exfalso; nra].
  - exfalso. pose proof (binade_order m0 e0 m e N0 N ltac:(lia)).
    assert (inject_Z m0 * pow2 e0 < (inject_Z m0 + 1) * pow2 e0) by nra.
    lra.
Qed.

(** Every positive integer below [2^24] is a binary32 value. *)
Lemma small_integer_is_float (n : Z) :
  (0 < n < 2 ^ 24)%Z ->
  exists m0 e0,
    (2 ^ 23 <= m0 < 2 ^ 24)%Z /\ inject_Z n == inject_Z m0 * pow2 e0.
Proof.
  intros Hn.
  pose proof (Zdigits2_bounds n (proj1 Hn)) as Hb.
  set (d := Zdigits2 n) in *.
  assert (Hd : (1 <= d <= 24)%Z).
  { split.
    - destruct (Z_le_gt_dec 1 d) as [H | H]; [exact H | exfalso].
      assert (2 ^ d <= 2 ^ 0)%Z by (apply Z.pow_le_mono_r; lia).
      change (2 ^ 0)%Z with 1%Z in *. lia.
    - destruct (Z_le_gt_dec d 24) as [H | H]; [exact H | exfalso].
      assert (2 ^ 24 <= 2 ^ (d - 1))%Z by (apply Z.pow_le_mono_r; lia).
      lia. }
  exists (n * 2 ^ (24 - d))%Z, (d - 24)%Z. split.
  - assert (Hp : (0 < 2 ^ (24 - d))%Z) by (apply Z.pow_pos_nonneg; lia).
    assert (H23 : (2 ^ 23 = 2 ^ (d - 1) * 2 ^ (24 - d))%Z).
    { rewrite <- Z.pow_add_r by lia. f_equal. lia. }
    assert (H24 : (2 ^ 24 = 2 ^ d * 2 ^ (24 - d))%Z).
    { rewrite <- Z.pow_add_r by lia. f_equal. lia. }
    rewrite H23, H24. split.
    + apply Z.mul_le_mono_nonneg_r; lia.
    + apply Z.mul_lt_mono_pos_r; lia.
  - rewrite inject_Z_mult, <- pow2_inject by lia.
    rewrite <- Qmult_assoc, <- pow2_add.
    replace (24 - d + (d - 24))%Z with 0%Z by lia.
    rewrite pow2_0. ring.
Qed.

(** The computation of one channel, step by step in the reals: the two
    conversions, the quotient, the product, each rounded once. *)
Lemma scale_chain (t e D : Z) :
  (0 < t < 2 ^ 32)%Z -> (0 < e < 2 ^ 32)%Z -> (0 < D < 2 ^ 32)%Z ->
  exists p m ex,
    F32.div (F32.of_Z e) (F32.of_Z D) = Some p /\
    F32.mul (F32.of_Z t) p = S754_finite false m ex /\
    exists E Dv T q P,
      rne (inject_Z e) E /\ rne (inject_Z D) Dv /\ rne (inject_Z t) T /\
      q * Dv == E /\ rne q P /\ rne (T * P) (fval (Zpos m) ex).
Proof.
  intros Ht He HD.
  destruct (of_Z_normal e He) as (me & ee & Ee & Ne & Re & _).
  destruct (of_Z_normal D HD) as (md & ed & Ed & Nd & Rd & _).
  destruct (of_Z_normal t Ht) as (mt & et & Et & Nt & Rt & _).
  destruct (of_Z_rne e He) as (me' & ee' & Ee' & Xe).
  destruct (of_Z_rne D HD) as (md' & ed' & Ed' & Xd).
  destruct (of_Z_rne t Ht) as (mt' & et' & Et' & Xt).
  rewrite Ee in Ee'. injection Ee' as <- <-.
  rewrite Ed in Ed'. injection Ed' as <- <-.
  rewrite Et in Et'. injection Et' as <- <-.
  pose proof (fval_pos md ed) as Hdv.
  set (q := fval (Zpos me) ee / fval (Zpos md) ed).
  assert (Hq : q * fval (Zpos md) ed == fval (Zpos me) ee).
  { unfold q. field. lra. }
  destruct (div_normal me ee md ed q Ne Nd) as (mp & ep & Ep & Np & Rp & _);
    [lia | exact Hq |].
  destruct (div_rne me ee md ed q Ne Nd) as (mp' & ep' & Ep' & Xp);
    [lia | exact Hq |].
  rewrite Ep in Ep'. injection Ep' as <- <-.
  destruct (mul_rne mt et mp ep Nt Np) as (m & ex & Em & Xm); [lia |].
  exists (S754_finite false mp ep), m, ex.
  split.
  { rewrite Ee, Ed. unfold F32.div, F32.is_zero, F32.prec, F32.emax.
    rewrite Ep. reflexivity. }
  split; [rewrite Et; exact Em |].
  exists (fval (Zpos me) ee), (fval (Zpos md) ed), (fval (Zpos mt) et), q,
         (fval (Zpos mp) ep).
  repeat split; assumption.
Qed.

(** One channel of the ramp is monotone in the elapsed time. *)
Lemma scale_monotone (t e1 e2 D : Z) :
  (0 <= t < 2 ^ 15)%Z -> (0 <= e1 <= e2)%Z -> (e2 < D)%Z -> (D < 2 ^ 32)%Z ->
  exists p1 p2,
    F32.div (F32.of_Z e1) (F32.of_Z D) = Some p1 /\
    F32.div (F32.of_Z e2) (F32.of_Z D) = Some p2 /\
    (scale t p1 <= scale t p2)%Z.
Proof.
  intros Ht He1 He2 HD.
  destruct (scale_ramp t e1 D) as (p1 & E1 & R1); try lia.
  destruct (scale_ramp t e2 D) as (p2 & E2 & R2); try lia.
  exists p1, p2. split; [exact E1 |]. split; [exact E2 |].
  destruct R1 as ([_ U1] & _ & B1), R2 as (_ & _ & B2).
  destruct (Z.eq_dec t 0) as [-> | Ht0]; [lia |].
  destruct (Z.eq_dec e1 0) as [-> | He0].
  { rewrite Z.mul_0_r, Z.mul_0_r, Z.div_0_l in U1 by lia. lia. }
  destruct (scale_chain t e1 D) as
    (q1 & m1 & x1 & E1' & M1 & A1 & Dv1 & T1 & r1 & P1 & Xa1 & Xd1 & Xt1 & Q1 & Xp1 & Xy1);
    try lia.
  destruct (scale_chain t e2 D) as
    (q2 & m2 & x2 & E2' & M2 & A2 & Dv2 & T2 & r2 & P2 & Xa2 & Xd2 & Xt2 & Q2 & Xp2 & Xy2);
    try lia.
  rewrite E1 in E1'. injection E1' as <-.
  rewrite E2 in E2'. injection E2' as <-.
  unfold scale. rewrite M1, M2.
  destruct (to_Z_floor m1 x1) as [L1 _].
  destruct (to_Z_floor m2 x2) as [_ L2].
  apply inject_Z_lt_succ.
  assert (HA : A1 <= A2).
  { apply (rne_monotone _ _ _ _ Xa1 Xa2). rewrite <- Zle_Qle. lia. }
  pose proof (rne_unique _ _ _ Xd1 Xd2) as HDv.
  pose proof (rne_unique _ _ _ Xt1 Xt2) as HT.
  destruct (rne_positive _ _ Xd1) as [_ Dpos].
  destruct (rne_positive _ _ Xt1) as [_ Tpos].
  assert (Hr : r1 <= r2).
  { apply (Qmult_le_r _ _ Dv1 Dpos). rewrite Q1, HDv, Q2. exact HA. }
  pose proof (rne_monotone _ _ _ _ Xp1 Xp2 Hr) as HP.
  assert (HY : fval (Zpos m1) x1 <= fval (Zpos m2) x2).
  { apply (rne_monotone _ _ _ _ Xy1 Xy2). rewrite <- HT.
    apply Qmult_le_l; assumption. }
  lra.
Qed.

(** One channel of a short ramp: when [target * duration < 2^23] the three
    integers are binary32 values, only the quotient and the product round,
    and the truncated result is the exact integer part unless the exact
    value is itself an integer, where it may be one less. *)
Lemma scale_short (t e D : Z) :
  (0 <= t < 2 ^ 15)%Z -> (0 <= e < D)%Z -> (t * D < 2 ^ 23)%Z -> (D < 2 ^ 32)%Z ->
  exists p,
    F32.div (F32.of_Z e) (F32.of_Z D) = Some p /\
    (t * e / D - 1 <= scale t p <= t * e / D)%Z /\
    (0 <= scale t p)%Z /\
    ((t * e) mod D <> 0 -> scale t p = t * e / D)%Z.
Proof.
  intros Ht He HtD HD.
  destruct (scale_ramp t e D) as (p & Ep & R); try lia.
  exists p. split; [exact Ep |].
  destruct R as ([_ U] & _ & B).
  destruct (Z.eq_dec t 0) as [-> | Ht0].
  { rewrite Z.mul_0_l, Z.div_0_l, Zmod_0_l by lia. lia. }
  destruct (Z.eq_dec e 0) as [-> | He0].
  { rewrite Z.mul_0_r, Z.mul_0_r, Z.div_0_l in U by lia.
    rewrite Z.mul_0_r, Z.div_0_l, Zmod_0_l by lia. lia. }
  assert (HD24 : (0 < D < 2 ^ 24)%Z) by nia.
  assert (He24 : (0 < e < 2 ^ 24)%Z) by lia.
  assert (Ht24 : (0 < t < 2 ^ 24)%Z) by lia.
  destruct (scale_chain t e D) as
    (p' & m & x & Ep' & Em & A & Dv & T & q & P & Xa & Xd & Xt & Hq & Xp & Xy);
    try lia.
  rewrite Ep in Ep'. injection Ep' as <-.
  destruct (small_integer_is_float e He24) as (ma & ea & Na & Ra).
  destruct (small_integer_is_float D HD24) as (md & ed & Nd & Rd).
  destruct (small_integer_is_float t Ht24) as (mt & et & Nt & Rt).
  pose proof (rne_exact _ _ _ _ Xa Na Ra) as HA.
  pose proof (rne_exact _ _ _ _ Xd Nd Rd) as HDv.
  pose proof (rne_exact _ _ _ _ Xt Nt Rt) as HT.
  destruct (rne_error _ _ Xp) as [Lp Up].
  destruct (rne_error _ _ Xy) as [Ly Uy].
  destruct (rne_positive _ _ Xp) as [qpos Ppos].
  unfold scale in B |- *. rewrite Em in B |- *.
  destruct (to_Z_floor m x) as [Fl Fu].
  set (c := F32.to_Z (S754_finite false m x)) in *.
  set (Y := fval (Zpos m) x) in *.
  pose proof (inject_Z_pos t ltac:(lia)) as Qt.
  pose proof (inject_Z_pos D ltac:(lia)) as Qd.
  pose proof (inject_Z_pos e ltac:(lia)) as Qe.
  rewrite HT in Ly, Uy. rewrite HDv, HA in Hq.
  (* the exact value and its integer part *)
  set (X := inject_Z t * q).
  assert (HX : X * inject_Z D == inject_Z (t * e)).
  { unfold X. rewrite inject_Z_mult, <- Hq. ring. }
  assert (Xpos : 0 < X) by (unfold X; apply Qmult_lt_0_compat; assumption).
  assert (YL : (1 - unit_roundoff) * (1 - unit_roundoff) * X <= Y).
  { unfold X, unit_roundoff in *. nra. }
  assert (YU : Y <= (1 + unit_roundoff) * (1 + unit_roundoff) * X).
  { unfold X, unit_roundoff in *. nra. }
  pose proof (Z_div_mod (t * e) D ltac:(lia)) as Hdm.
  unfold Z.modulo, Z.div.
  destruct (Z.div_eucl (t * e) D) as [n k]. cbn [fst snd].
  destruct Hdm as [Hdm Hk].
  assert (HN : (0 < t * e < 2 ^ 23)%Z) by nia.
  assert (QN : inject_Z (t * e) <= 8388607).
  { change 8388607 with (inject_Z 8388607). rewrite <- Zle_Qle. lia. }
  assert (QN0 : 0 < inject_Z (t * e)) by (apply inject_Z_pos; lia).
  assert (Qk0 : 0 <= inject_Z k).
  { change 0 with (inject_Z 0). rewrite <- Zle_Qle. lia. }
  assert (Qk1 : inject_Z k + 1 <= inject_Z D).
  { change 1 with (inject_Z 1). rewrite <- inject_Z_plus, <- Zle_Qle. lia. }
  assert (Qdm : inject_Z (t * e) == inject_Z D * inject_Z n + inject_Z k).
  { rewrite Hdm, inject_Z_plus, inject_Z_mult. reflexivity. }
  (* the rounded value stays below the next integer *)
  assert (Upper : Y < inject_Z n + 1).
  { apply (Qmult_lt_r _ _ (inject_Z D) Qd).
    assert (Y * inject_Z D <=
            (1 + unit_roundoff) * (1 + unit_roundoff) * inject_Z (t * e)).
    { rewrite <- HX. unfold unit_roundoff in *. nra. }
    unfold unit_roundoff in *. nra. }
  assert (Lower : inject_Z n - 1 < Y).
  { apply (Qmult_lt_r _ _ (inject_Z D) Qd).
    assert ((1 - unit_roundoff) * (1 - unit_roundoff) * inject_Z (t * e)
            <= Y * inject_Z D).
    { rewrite <- HX. unfold unit_roundoff in *. nra. }
    unfold unit_roundoff in *. nra. }
  assert (Hcu : (c <= n)%Z).
  { apply inject_Z_lt_succ. lra. }
  assert (Hcl : (n - 1 <= c)%Z).
  { apply inject_Z_lt_succ. unfold Z.sub. rewrite inject_Z_plus.
    rewrite inject_Z_opp. change (inject_Z 1) with 1. lra. }
  split; [lia |]. split; [lia |].
  intros Hk0.
  assert (Qk2 : 1 <= inject_Z k).
  { change 1 with (inject_Z 1). rewrite <- Zle_Qle. lia. }
  assert (Exact : inject_Z n <= Y).
  { apply (Qmult_le_r _ _ (inject_Z D) Qd).
    assert ((1 - unit_roundoff) * (1 - unit_roundoff) * inject_Z (t * e)
            <= Y * inject_Z D).
    { rewrite <- HX. unfold unit_roundoff in *. nra. }
    unfold unit_roundoff in *. nra. }
  assert ((n <= c)%Z) by (apply inject_Z_lt_succ; lra).
  lia.
Qed.

End Monotone.

(** X11: the ramp never dims.  Of two ticks of the same sunrise taken
    before it completes, the one with the larger elapsed time writes on each
    channel a value at least as large as the other: the two conversions, the
    division and the multiplication all round to nearest, which keeps the
    order, and so does the truncation. *)
Theorem ramp_never_dims (now1 now2 : Z) (s : State) :
  wellformed s ->
  to_ulong (now1 - sunriseStartTime s) <= to_ulong (now2 - sunriseStartTime s) ->
  to_ulong (now2 - sunriseStartTime s) < sunriseDuration s ->
  exists c1 c2,
    updateSunrise now1 s = Ok tt s (color_trace c1) /\
    updateSunrise now2 s = Ok tt s (color_trace c2) /\
    fst (fst c1) <= fst (fst c2) /\
    snd (fst c1) <= snd (fst c2) /\
    snd c1 <= snd c2.
Proof.
  intros (Hv & HD & HR & HG & HB) Hle Hlt.
  set (e1 := to_ulong (now1 - sunriseStartTime s)) in *.
  set (e2 := to_ulong (now2 - sunriseStartTime s)) in *.
  pose proof (to_ulong_range (now1 - sunriseStartTime s)) as He1. fold e1 in He1.
  destruct (scale_monotone (targetR s) e1 e2 (sunriseDuration s))
    as (p1 & p2 & E1 & E2 & Mr); try lia.
  destruct (scale_monotone (targetG s) e1 e2 (sunriseDuration s))
    as (p1' & p2' & E1' & E2' & Mg); try lia.
  assert (p1' = p1) by congruence. assert (p2' = p2) by congruence. subst p1' p2'.
  destruct (scale_monotone (targetB s) e1 e2 (sunriseDuration s))
    as (p1' & p2' & E1'' & E2'' & Mb); try lia.
  assert (p1' = p1) by congruence. assert (p2' = p2) by congruence. subst p1' p2'.
  exists (scale (targetR s) p1, scale (targetG s) p1, scale (targetB s) p1),
         (scale (targetR s) p2, scale (targetG s) p2, scale (targetB s) p2).
  split.
  { rewrite updateSunrise_interpolates by (fold e1; lia).
    fold e1. rewrite E1. reflexivity. }
  split.
  { rewrite updateSunrise_interpolates by (fold e2; lia).
    fold e2. rewrite E2. reflexivity. }
  cbn [fst snd]. split; [exact Mr |]. split; [exact Mg | exact Mb].
Qed.

Lemma ramp_never_dims_witness :
  exists c1 c2,
    updateSunrise 12345 moon_30000 = Ok tt moon_30000 (color_trace c1) /\
    updateSunrise 12346 moon_30000 = Ok tt moon_30000 (color_trace c2) /\
    fst (fst c1) <= fst (fst c2) /\
    snd (fst c1) <= snd (fst c2) /\
    snd c1 <= snd c2.
Proof.
  apply (ramp_never_dims 12345 12346 moon_30000).
  - evaluate.
  - vm_compute. discriminate.
  - vm_compute. reflexivity.
Defined.

(** X12: a short sunrise is exact.  When the duration is at most 32896 ms
    (so that [255 * duration < 2^23]) a tick before completion writes on
    each channel the integer part of [target * elapsed / duration]; the one
    exception is a tick at which that quotient is itself an integer, where
    the value written may be one less. *)
Theorem short_ramp_is_exact (now : Z) (s : State) :
  wellformed s ->
  sunriseDuration s <= 32896 ->
  to_ulong (now - sunriseStartTime s) < sunriseDuration s ->
  exists x y z,
    updateSunrise now s = Ok tt s (color_trace (x, y, z)) /\
    short_ramp_value (targetR s) (to_ulong (now - sunriseStartTime s))
                     (sunriseDuration s) x /\
    short_ramp_value (targetG s) (to_ulong (now - sunriseStartTime s))
                     (sunriseDuration s) y /\
    short_ramp_value (targetB s) (to_ulong (now - sunriseStartTime s))
                     (sunriseDuration s) z.
Proof.
  intros (Hv & HD & HR & HG & HB) Hs Hlt.
  set (e := to_ulong (now - sunriseStartTime s)) in *.
  pose proof (to_ulong_range (now - sunriseStartTime s)) as He. fold e in He.
  assert (Hb : forall t, 0 <= t <= 255 -> t * sunriseDuration s < 2 ^ 23).
  { intros t Ht. apply Z.le_lt_trans with (255 * 32896); [| reflexivity].
    apply Z.mul_le_mono_nonneg; lia. }
  destruct (scale_short (targetR s) e (sunriseDuration s))
    as (p & Ep & Sr); try lia; [apply Hb; lia |].
  destruct (scale_short (targetG s) e (sunriseDuration s))
    as (p' & Ep' & Sg); try lia; [apply Hb; lia |].
  assert (p' = p) by congruence. subst p'.
  destruct (scale_short (targetB s) e (sunriseDuration s))
    as (p' & Ep'' & Sb); try lia; [apply Hb; lia |].
  assert (p' = p) by congruence. subst p'.
  exists (scale (targetR s) p), (scale (targetG s) p), (scale (targetB s) p).
  split.
  { rewrite updateSunrise_interpolates by (fold e; lia).
    fold e. rewrite Ep. reflexivity. }
  split; [exact Sr |]. split; [exact Sg | exact Sb].
Qed.

Lemma short_ramp_is_exact_witness :
  exists x y z,
    updateSunrise 12345 moon_30000 = Ok tt moon_30000 (color_trace (x, y, z)) /\
    short_ramp_value (targetR moon_30000)
                     (to_ulong (12345 - sunriseStartTime moon_30000))
                     (sunriseDuration moon_30000) x /\
    short_ramp_value (targetG moon_30000)
                     (to_ulong (12345 - sunriseStartTime moon_30000))
                     (sunriseDuration moon_30000) y /\
    short_ramp_value (targetB moon_30000)
                     (to_ulong (12345 - sunriseStartTime moon_30000))
                     (sunriseDuration moon_30000) z.
Proof.
  apply (short_ramp_is_exact 12345 moon_30000).
  - evaluate.
  - vm_compute. discriminate.
  - vm_compute. reflexivity.
Defined.

(** ** What reaches the LED and the display *)

Lemma lcd_run_app (col : Z) (o1 o2 : list Event) :
  lcd_run col (o1 ++ o2) =
    match lcd_run col o1 with
    | Some c => lcd_run c o2
    | None => None
    end.
Proof.
  revert col. induction o1 as [| ev o1 IH]; intros col; [reflexivity |].
  cbn [app lcd_run]. destruct (lcd_step col ev); [apply IH | reflexivity].
Qed.

Lemma trace_ok_nil : trace_ok [].
Proof. split; [reflexivity | intros col; discriminate]. Qed.

Lemma trace_ok_app (o1 o2 : list Event) :
  trace_ok o1 -> trace_ok o2 -> trace_ok (o1 ++ o2).
Proof.
  intros [P1 L1] [P2 L2]. split.
  - rewrite forallb_app, P1, P2. reflexivity.
  - intros col. rewrite lcd_run_app.
    destruct (lcd_run col o1) as [c |] eqn:E; [apply L2 | destruct (L1 col E)].
Qed.

Lemma color_trace_ok (x y z : Z) :
  0 <= x <= 255 -> 0 <= y <= 255 -> 0 <= z <= 255 ->
  trace_ok (color_trace (x, y, z)).
Proof.
  intros Hx Hy Hz. split.
  - cbn [color_trace forallb pwm_ok].
    change (RED_PIN =? RED_PIN) with true.
    change (GREEN_PIN =? RED_PIN) with false.
    change (GREEN_PIN =? GREEN_PIN) with true.
    change (BLUE_PIN =? RED_PIN) with false.
    change (BLUE_PIN =? GREEN_PIN) with false.
    change (BLUE_PIN =? BLUE_PIN) with true.
    cbn [orb andb].
    destruct Hx as [Hx1 Hx2], Hy as [Hy1 Hy2], Hz as [Hz1 Hz2].
    apply Z.leb_le in Hx1, Hx2, Hy1, Hy2, Hz1, Hz2.
    rewrite Hx1, Hx2, Hy1, Hy2, Hz1, Hz2. reflexivity.
  - intros col. cbn. discriminate.
Qed.

Lemma arm_trace_ok (d : Z) (s : State) :
  valid_planet s -> trace_ok (arm_trace d s).
Proof.
  intros Hv. unfold arm_trace.
  destruct (three_planets _ Hv) as [-> | [-> | ->]];
    (split; [reflexivity | intros col; vm_compute; discriminate]).
Qed.

Lemma completion_trace_ok (s : State) :
  wellformed s -> trace_ok (completion_trace s).
Proof.
  intros (Hv & _ & HR & HG & HB).
  change (completion_trace s) with
    (color_trace (targetR s, targetG s, targetB s) ++
     [LcdClear; LcdSetCursor 0 0; LcdPrint "Good Morning!"; LcdSetCursor 0 1;
      LcdPrint (name (preset (currentPlanet s))); SerialPrintln msg_complete])%list.
  apply trace_ok_app; [apply color_trace_ok; assumption |].
  destruct (three_planets _ Hv) as [-> | [-> | ->]];
    (split; [reflexivity | intros col; vm_compute; discriminate]).
Qed.

Lemma updateSunrise_ok (now : Z) (s : State) :
  wellformed s ->
  exists s1 out,
    updateSunrise now s = Ok tt s1 out /\ wellformed s1 /\ trace_ok out.
Proof.
  intros Hw. pose proof Hw as (Hv & HD & HR & HG & HB).
  destruct (Z_le_gt_dec (sunriseDuration s) (to_ulong (now - sunriseStartTime s)))
    as [Hle | Hgt].
  - rewrite (updateSunrise_done now s Hv Hle).
    eexists; eexists. split; [reflexivity |].
    split; [apply wellformed_flag; exact Hw | apply completion_trace_ok; exact Hw].
  - rewrite updateSunrise_interpolates by lia.
    pose proof (to_ulong_range (now - sunriseStartTime s)) as He.
    destruct (scale_ramp (targetR s) (to_ulong (now - sunriseStartTime s))
                (sunriseDuration s)) as (p & Ep & (_ & _ & Br)); try lia.
    destruct (scale_ramp (targetG s) (to_ulong (now - sunriseStartTime s))
                (sunriseDuration s)) as (pg & Epg & (_ & _ & Bg)); try lia.
    destruct (scale_ramp (targetB s) (to_ulong (now - sunriseStartTime s))
                (sunriseDuration s)) as (pb & Epb & (_ & _ & Bb)); try lia.
    assert (pg = p) by congruence. assert (pb = p) by congruence. subst pg pb.
    rewrite Ep. eexists; eexists. split; [reflexivity |].
    split; [exact Hw |].
    apply (color_trace_ok (scale (targetR s) p) (scale (targetG s) p)
                          (scale (targetB s) p)); lia.
Qed.

Lemma loop_serial_ok (inp : LoopInput) (s : State) :
  wellformed s ->
  exists s1 out, loop_serial inp s = Ok tt s1 out /\ wellformed s1 /\ trace_ok out.
Proof.
  intros Hw. unfold loop_serial.
  destruct (serial_line inp) as [line |];
    [| exists s, []; split; [reflexivity | split; [exact Hw | apply trace_ok_nil]]].
  destruct (WString.startsWith (WString.trim line) "SUNRISE");
    [| exists s, []; split; [reflexivity | split; [exact Hw | apply trace_ok_nil]]].
  destruct (Z_lt_le_dec 0 (WString.indexOf " "%char (WString.trim line)))
    as [Hsp | Hsp].
  - rewrite (parse_accepts _ _ s Hsp (proj1 Hw)).
    eexists; eexists. split; [reflexivity |]. split.
    + unfold parsed_duration. apply wellformed_armed. exact Hw.
    + apply arm_trace_ok. exact (proj1 Hw).
  - rewrite (parse_rejects _ _ s Hsp).
    eexists; eexists. split; [reflexivity |]. split; [exact Hw |].
    split; [reflexivity | intros col; discriminate].
Qed.

Lemma loop_sunrise_ok (inp : LoopInput) (s : State) :
  wellformed s ->
  exists s1 out, loop_sunrise inp s = Ok tt s1 out /\ wellformed s1 /\ trace_ok out.
Proof.
  intros Hw. unfold loop_sunrise. unfold_sketch.
  destruct (sunriseActive s).
  - destruct (updateSunrise_ok (millis_update inp) s Hw) as (s1 & out & E & Hw1 & T).
    rewrite E. exists s1, out. split; [reflexivity |]. split; assumption.
  - exists s, []. split; [reflexivity |]. split; [exact Hw | apply trace_ok_nil].
Qed.

Lemma loop_remote_ok (inp : LoopInput) (s : State) :
  wellformed s ->
  exists s1 out, loop_remote inp s = Ok tt s1 out /\ wellformed s1 /\ trace_ok out.
Proof.
  intros Hw.
  destruct (sunriseActive s) eqn:Ha.
  { rewrite (loop_remote_active inp s Ha).
    exists s, []. split; [reflexivity |]. split; [exact Hw | apply trace_ok_nil]. }
  destruct (ir_command inp) as [command |] eqn:Hc.
  2:{ exists s, []. split.
      - unfold loop_remote. unfold_sketch. rewrite Ha, Hc. reflexivity.
      - split; [exact Hw | apply trace_ok_nil]. }
  destruct (Z.eq_dec command 9) as [-> | H9];
    [| destruct (Z.eq_dec command 7) as [-> | H7]].
  - unfold loop_remote. unfold_sketch. rewrite Ha, Hc. cbn [negb Z.eqb Pos.eqb].
    destruct Hw as (Hv & Hrest).
    destruct s as [cp act st tr tg tb du]. cbn in Ha, Hv, Hrest |- *. subst act.
    destruct (three_planets cp Hv) as [-> | [-> | ->]];
      (eexists; eexists; split; [reflexivity |]);
      (split; [split; [unfold valid_planet; cbn; lia | exact Hrest] |]);
      (split; [reflexivity | intros col; vm_compute; discriminate]).
  - unfold loop_remote. unfold_sketch. rewrite Ha, Hc. cbn [negb Z.eqb Pos.eqb].
    destruct Hw as (Hv & Hrest).
    destruct s as [cp act st tr tg tb du]. cbn in Ha, Hv, Hrest |- *. subst act.
    destruct (three_planets cp Hv) as [-> | [-> | ->]];
      (eexists; eexists; split; [reflexivity |]);
      (split; [split; [unfold valid_planet; cbn; lia | exact Hrest] |]);
      (split; [reflexivity | intros col; vm_compute; discriminate]).
  - rewrite (loop_remote_other inp command s Hc H9 H7 Ha).
    eexists; eexists. split; [reflexivity |]. split; [exact Hw |].
    split; [reflexivity | intros col; discriminate].
Qed.

Lemma loop_ok (inp : LoopInput) (s : State) :
  wellformed s ->
  exists s1 out, loop inp s = Ok tt s1 out /\ wellformed s1 /\ trace_ok out.
Proof.
  intros Hw. unfold loop, bind.
  destruct (loop_serial_ok inp s Hw) as (sa & oa & Ea & Hwa & Ta). rewrite Ea.
  destruct (loop_sunrise_ok inp sa Hwa) as (sb & ob & Eb & Hwb & Tb). rewrite Eb.
  destruct (loop_remote_ok inp sb Hwb) as (sc & oc & Ec & Hwc & Tc). rewrite Ec.
  eexists; eexists. split; [reflexivity |]. split; [exact Hwc |].
  apply trace_ok_app; [exact Ta |]. apply trace_ok_app; assumption.
Qed.

Lemma loops_ok (inps : list LoopInput) :
  forall s : State,
    wellformed s ->
    exists s1 out, loops inps s = Ok tt s1 out /\ wellformed s1 /\ trace_ok out.
Proof.
  induction inps as [| inp rest IH]; intros s Hw.
  - exists s, []. split; [reflexivity |]. split; [exact Hw | apply trace_ok_nil].
  - rewrite loops_cons.
    destruct (loop_ok inp s Hw) as (s1 & o1 & E1 & Hw1 & T1). rewrite E1.
    destruct (IH s1 Hw1) as (s2 & o2 & E2 & Hw2 & T2). rewrite E2.
    eexists; eexists. split; [reflexivity |]. split; [exact Hw2 |].
    apply trace_ok_app; assumption.
Qed.

Lemma sketch_ok (inps : list LoopInput) :
  exists s out, sketch inps = Ok tt s out /\ trace_ok out.
Proof.
  assert (Hw : wellformed initial) by evaluate.
  destruct (loops_ok inps initial Hw) as (s & out & E & _ & T).
  unfold sketch, bind.
  change (setup initial) with
    (Ok tt initial
        [LcdBegin 16 2; LcdClear; LcdPrint "Ready!";
         AnalogWrite RED_PIN 0; AnalogWrite GREEN_PIN 0; AnalogWrite BLUE_PIN 0;
         SerialPrintln "System Ready"; SerialPrintln "Use UP/DOWN arrows";
         Delay 1000; LcdClear; LcdSetCursor 0 0; LcdPrint "Earth: Home";
         AnalogWrite RED_PIN 230; AnalogWrite GREEN_PIN 255;
         AnalogWrite BLUE_PIN 0]).
  cbv beta iota. rewrite E.
  eexists; eexists. split; [reflexivity |].
  apply trace_ok_app; [| exact T].
  split; [reflexivity | intros col; vm_compute; discriminate].
Qed.

(** X13: in every run of the sketch, whatever the serial port, the clock and
    the remote deliver, each [analogWrite] goes to one of the three LED pins
    with a duty cycle between 0 and 255: no value is ever left to the 8-bit
    truncation of the PWM register. *)
Theorem pwm_stays_in_range (inps : list LoopInput) :
  exists s out,
    sketch inps = Ok tt s out /\
    Forall (fun ev => forall pin v,
              ev = AnalogWrite pin v ->
              (pin = RED_PIN \/ pin = GREEN_PIN \/ pin = BLUE_PIN) /\ 0 <= v <= 255)
           out.
Proof.
  destruct (sketch_ok inps) as (s & out & E & P & _).
  exists s, out. split; [exact E |].
  apply Forall_forall. intros ev Hin pin v ->.
  rewrite forallb_forall in P. specialize (P _ Hin).
  cbn [pwm_ok] in P.
  apply andb_prop in P. destruct P as [P Hu].
  apply andb_prop in P. destruct P as [Hp Hl].
  apply Z.leb_le in Hu, Hl.
  split; [| lia].
  apply orb_prop in Hp. destruct Hp as [Hp | Hp].
  - apply orb_prop in Hp. destruct Hp as [Hp | Hp]; apply Z.eqb_eq in Hp; auto.
  - apply Z.eqb_eq in Hp. auto.
Qed.

(** X14: in every run of the sketch the display is used within its 16
    columns and 2 rows: the cursor is only placed inside the display, and
    the texts printed on a row after a placement never run past column 16
    (the longest is ["Sunrise: Earth"], 14 characters). *)
Theorem lcd_text_fits (inps : list LoopInput) :
  exists s out,
    sketch inps = Ok tt s out /\ forall col : Z, lcd_run col out <> None.
Proof.
  destruct (sketch_ok inps) as (s & out & E & _ & L).
  exists s, out. split; [exact E | exact L].
Qed.

(** ** Completions and commands *)

Lemma completions_app (o1 o2 : list Event) :
  completions (o1 ++ o2) = (completions o1 + completions o2)%nat.
Proof. unfold completions. rewrite filter_app, length_app. reflexivity. Qed.

Lemma completions_arm (d : Z) (s : State) :
  valid_planet s -> completions (arm_trace d s) = 0%nat.
Proof.
  intros Hv. unfold arm_trace.
  destruct (three_planets _ Hv) as [-> | [-> | ->]]; reflexivity.
Qed.

Lemma completions_completion (s : State) :
  completions (completion_trace s) = 1%nat.
Proof. reflexivity. Qed.

(** The serial block announces nothing, and arms only on an accepted
    command. *)
Lemma loop_serial_pending (inp : LoopInput) (s : State) :
  wellformed s ->
  exists s1 out,
    loop_serial inp s = Ok tt s1 out /\ wellformed s1 /\
    completions out = 0%nat /\
    (pending s1 <= pending s + (if accepted inp then 1 else 0))%nat.
Proof.
  intros Hw. unfold loop_serial, accepted.
  destruct (serial_line inp) as [line |];
    [| exists s, []; split; [reflexivity |]; split; [exact Hw |];
       split; [reflexivity | lia]].
  destruct (WString.startsWith (WString.trim line) "SUNRISE");
    [| exists s, []; split; [reflexivity |]; split; [exact Hw |];
       split; [reflexivity | cbn [andb]; lia]].
  cbn [andb].
  destruct (Z_lt_le_dec 0 (WString.indexOf " "%char (WString.trim line)))
    as [Hsp | Hsp].
  - rewrite (parse_accepts _ _ s Hsp (proj1 Hw)).
    apply Z.ltb_lt in Hsp. rewrite Hsp.
    eexists; eexists. split; [reflexivity |]. split.
    { unfold parsed_duration. apply wellformed_armed. exact Hw. }
    split; [apply completions_arm; exact (proj1 Hw) |].
    unfold pending. cbn [armed sunriseActive]. destruct (sunriseActive s); lia.
  - rewrite (parse_rejects _ _ s Hsp).
    eexists; eexists. split; [reflexivity |]. split; [exact Hw |].
    split; [reflexivity | lia].
Qed.

(** The tick announces a completion only by ending a running sunrise. *)
Lemma loop_sunrise_pending (inp : LoopInput) (s : State) :
  wellformed s ->
  exists s1 out,
    loop_sunrise inp s = Ok tt s1 out /\ wellformed s1 /\
    (completions out + pending s1 = pending s)%nat.
Proof.
  intros Hw. pose proof Hw as (Hv & HD & _).
  unfold loop_sunrise. unfold_sketch. unfold pending.
  destruct (sunriseActive s) eqn:Ha.
  - destruct (Z_le_gt_dec (sunriseDuration s)
                (to_ulong (millis_update inp - sunriseStartTime s))) as [Hle | Hgt].
    + rewrite (updateSunrise_done _ s Hv Hle).
      eexists; eexists. split; [reflexivity |].
      split; [apply wellformed_flag; exact Hw |].
      cbn [app]. rewrite completions_completion. reflexivity.
    + rewrite updateSunrise_interpolates by lia.
      pose proof (to_ulong_range (millis_update inp - sunriseStartTime s)) as He.
      destruct (scale_ramp 0 (to_ulong (millis_update inp - sunriseStartTime s))
                  (sunriseDuration s)) as (p & Ep & _); try lia.
      rewrite Ep. eexists; eexists. split; [reflexivity |].
      split; [exact Hw |]. cbn [app]. rewrite Ha. reflexivity.
  - exists s, []. split; [reflexivity |]. split; [exact Hw |].
    rewrite Ha. reflexivity.
Qed.

(** The remote announces nothing and never starts a sunrise. *)
Lemma loop_remote_pending (inp : LoopInput) (s : State) :
  wellformed s ->
  exists s1 out,
    loop_remote inp s = Ok tt s1 out /\ wellformed s1 /\
    completions out = 0%nat /\ pending s1 = pending s.
Proof.
  intros Hw.
  destruct (sunriseActive s) eqn:Ha.
  { rewrite (loop_remote_active inp s Ha).
    exists s, []. split; [reflexivity |]. split; [exact Hw |].
    split; reflexivity. }
  destruct (ir_command inp) as [command |] eqn:Hc.
  2:{ exists s, []. split.
      - unfold loop_remote. unfold_sketch. rewrite Ha, Hc. reflexivity.
      - split; [exact Hw |]. split; reflexivity. }
  destruct (Z.eq_dec command 9) as [-> | H9];
    [| destruct (Z.eq_dec command 7) as [-> | H7]].
  - unfold loop_remote. unfold_sketch. rewrite Ha, Hc. cbn [negb Z.eqb Pos.eqb].
    destruct Hw as (Hv & Hrest).
    destruct s as [cp act st tr tg tb du]. cbn in Ha, Hv, Hrest |- *. subst act.
    destruct (three_planets cp Hv) as [-> | [-> | ->]];
      (eexists; eexists; split; [reflexivity |]);
      (split; [split; [unfold valid_planet; cbn; lia | exact Hrest] |]);
      split; reflexivity.
  - unfold loop_remote. unfold_sketch. rewrite Ha, Hc. cbn [negb Z.eqb Pos.eqb].
    destruct Hw as (Hv & Hrest).
    destruct s as [cp act st tr tg tb du]. cbn in Ha, Hv, Hrest |- *. subst act.
    destruct (three_planets cp Hv) as [-> | [-> | ->]];
      (eexists; eexists; split; [reflexivity |]);
      (split; [split; [unfold valid_planet; cbn; lia | exact Hrest] |]);
      split; reflexivity.
  - rewrite (loop_remote_other inp command s Hc H9 H7 Ha).
    eexists; eexists. split; [reflexivity |]. split; [exact Hw |].
    split; reflexivity.
Qed.

Lemma loop_pending (inp : LoopInput) (s : State) :
  wellformed s ->
  exists s1 out,
    loop inp s = Ok tt s1 out /\ wellformed s1 /\
    (completions out + pending s1
       <= pending s + (if accepted inp then 1 else 0))%nat.
Proof.
  intros Hw. unfold loop, bind.
  destruct (loop_serial_pending inp s Hw) as (sa & oa & Ea & Hwa & Ca & Pa).
  rewrite Ea.
  destruct (loop_sunrise_pending inp sa Hwa) as (sb & ob & Eb & Hwb & Cb).
  rewrite Eb.
  destruct (loop_remote_pending inp sb Hwb) as (sc & oc & Ec & Hwc & Cc & Pc).
  rewrite Ec.
  eexists; eexists. split; [reflexivity |]. split; [exact Hwc |].
  rewrite !completions_app. lia.
Qed.

Lemma loops_pending (inps : list LoopInput) :
  forall s : State,
    wellformed s ->
    exists s1 out,
      loops inps s = Ok tt s1 out /\
      (completions out + pending s1 <= pending s + commands inps)%nat.
Proof.
  induction inps as [| inp rest IH]; intros s Hw.
  - exists s, []. split; [reflexivity |]. cbn. lia.
  - rewrite loops_cons.
    destruct (loop_pending inp s Hw) as (s1 & o1 & E1 & Hw1 & C1). rewrite E1.
    destruct (IH s1 Hw1) as (s2 & o2 & E2 & C2). rewrite E2.
    eexists; eexists. split; [reflexivity |].
    rewrite completions_app. unfold commands in *. cbn [filter].
    destruct (accepted inp); cbn [List.length]; lia.
Qed.

(** X15: a completion needs a command.  In every run of the sketch the
    number of ["Sunrise complete!"] announcements, plus one if a sunrise is
    still running at the end, is at most the number of command lines that
    were accepted: the tick completes a sunrise once and then leaves it
    alone, and neither the remote nor a rejected line can start one. *)
Theorem completion_needs_a_command (inps : list LoopInput) :
  exists s out,
    sketch inps = Ok tt s out /\
    (completions out + pending s <= commands inps)%nat.
Proof.
  assert (Hw : wellformed initial) by evaluate.
  destruct (loops_pending inps initial Hw) as (s & out & E & C).
  unfold sketch, bind.
  change (setup initial) with
    (Ok tt initial
        [LcdBegin 16 2; LcdClear; LcdPrint "Ready!";
         AnalogWrite RED_PIN 0; AnalogWrite GREEN_PIN 0; AnalogWrite BLUE_PIN 0;
         SerialPrintln "System Ready"; SerialPrintln "Use UP/DOWN arrows";
         Delay 1000; LcdClear; LcdSetCursor 0 0; LcdPrint "Earth: Home";
         AnalogWrite RED_PIN 230; AnalogWrite GREEN_PIN 255;
         AnalogWrite BLUE_PIN 0]).
  cbv beta iota. rewrite E.
  eexists; eexists. split; [reflexivity |].
  rewrite completions_app.
  change (pending initial) with 0%nat in C.
  change (completions _ + completions out + pending s <= commands inps)%nat
    with (0 + completions out + pending s <= commands inps)%nat.
  lia.
Qed.

(** X16: the pass that reads a command already ticks.  When an accepted
    command with a duration above zero is read and the clock does not
    advance between arming and the tick of the same pass, the pass arms the
    sunrise, writes black a second time as the first ramp value, and leaves
    the remote alone whatever was decoded. *)
Theorem arming_pass_starts_dark (inp : LoopInput) (line : string) (s : State) :
  serial_line inp = Some line ->
  WString.startsWith (WString.trim line) "SUNRISE" = true ->
  0 < WString.indexOf " "%char (WString.trim line) ->
  0 < parsed_duration (WString.trim line) ->
  to_ulong (millis_update inp - millis_parse inp) = 0 ->
  valid_planet s ->
  loop inp s =
    Ok tt (armed (millis_parse inp) (parsed_duration (WString.trim line)) s)
       (arm_trace (parsed_duration (WString.trim line)) s ++ color_trace (0, 0, 0)).
Proof.
  intros Hl Hk Hsp Hd He Hv.
  set (d := parsed_duration (WString.trim line)) in *.
  assert (Hd32 : d < 2 ^ 32) by (apply to_ulong_range).
  destruct (preset_color_range (currentPlanet s)) as (HR & HG & HB).
  assert (Hz : forall t, 0 <= t <= 255 ->
               exists p, F32.div (F32.of_Z 0) (F32.of_Z d) = Some p /\ scale t p = 0).
  { intros t Ht.
    destruct (scale_ramp t 0 d) as (p & Ep & ([_ U] & _ & B)); try lia.
    exists p. split; [exact Ep |].
    rewrite Z.mul_0_r, Z.mul_0_r, Z.div_0_l in U by lia. lia. }
  destruct (Hz _ HR) as (p & Ep & Sr).
  destruct (Hz _ HG) as (pg & Epg & Sg).
  destruct (Hz _ HB) as (pb & Epb & Sb).
  assert (pg = p) by congruence. assert (pb = p) by congruence. subst pg pb.
  unfold loop, bind, loop_serial. rewrite Hl, Hk.
  rewrite (parse_accepts _ _ s Hsp Hv). fold d.
  unfold loop_sunrise. unfold_sketch. cbn [armed sunriseActive].
  rewrite updateSunrise_interpolates
    by (cbn [armed sunriseStartTime sunriseDuration]; rewrite He; exact Hd).
  cbn [armed sunriseStartTime sunriseDuration targetR targetG targetB].
  rewrite He, Ep, Sr, Sg, Sb.
  rewrite loop_remote_active by reflexivity.
  rewrite !app_nil_r. reflexivity.
Qed.

Lemma arming_pass_starts_dark_witness :
  loop sunrise_line initial =
    Ok tt (armed 5 30000 initial) (arm_trace 30000 initial ++ color_trace (0, 0, 0)).
Proof.
  apply (arming_pass_starts_dark sunrise_line "SUNRISE 30000" initial);
    evaluate.
Defined.
